(** * nolang: the lexer and the parser of the language front end

    A shallow embedding of [nolang/lexer.py] and [nolang/parser.py].
    Python byte strings are [string]; offsets, line and column numbers of
    source ranges are [nat]; the columns of an error value are [Z], since
    the source computes [idx - 1] at offset 0.  Exceptions are values of
    the type [exn], and a call either returns, raises, or runs out of the
    fuel that bounds its loops. *)

From Stdlib Require Import String Ascii List ZArith NArith Lia Bool Arith Sorted.
Import ListNotations.
Open Scope string_scope.
Set Warnings "-register-all".

(** ** Python values used by both files *)

Module Py.

Definition newline : ascii := "010"%char.
Definition dquote : ascii := "034"%char.
Definition backslash : ascii := "\"%char.

(** [s[n:]] *)
Fixpoint drop (n : nat) (s : string) : string :=
  match n, s with
  | S n', String _ s' => drop n' s'
  | _, _ => s
  end.

(** [s[:n]] *)
Fixpoint take (n : nat) (s : string) : string :=
  match n, s with
  | S n', String c s' => String c (take n' s')
  | _, _ => EmptyString
  end.

(** [s[a:b]] for offsets [a], [b] that are not negative. *)
Definition slice (s : string) (a b : nat) : string := take (b - a) (drop a s).

(** [c in s] for a one-character [c]. *)
Fixpoint contains (c : ascii) (s : string) : bool :=
  match s with
  | EmptyString => false
  | String x s' => Ascii.eqb x c || contains c s'
  end.

(** [s.count(c)] for a one-character [c]. *)
Fixpoint count_char (c : ascii) (s : string) : nat :=
  match s with
  | EmptyString => 0
  | String x s' => (if Ascii.eqb x c then 1 else 0) + count_char c s'
  end.

(** [s.count(c, a, b)] *)
Definition count (c : ascii) (s : string) (a b : nat) : nat :=
  count_char c (slice s a b).

(** The highest offset of [c] in [s], counted from [base]. *)
Fixpoint rfind_from (c : ascii) (base : nat) (s : string) : option nat :=
  match s with
  | EmptyString => None
  | String x s' =>
      match rfind_from c (S base) s' with
      | Some i => Some i
      | None => if Ascii.eqb x c then Some base else None
      end
  end.

(** [s.rfind(c, 0, hi)]; [None] stands for the result [-1]. *)
Definition rfind (c : ascii) (s : string) (hi : nat) : option nat :=
  rfind_from c 0 (take hi s).

(** [s.splitlines()] of a byte string: lines end at a line feed, at a
    carriage return, or at a carriage return followed by a line feed. *)
Fixpoint splitlines_from (cur : string) (s : string) : list string :=
  match s with
  | EmptyString => match cur with EmptyString => [] | _ => [cur] end
  | String c s' =>
      if Ascii.eqb c newline then cur :: splitlines_from EmptyString s'
      else if Ascii.eqb c "013"%char then
        match s' with
        | String c' s'' =>
            if Ascii.eqb c' newline then cur :: splitlines_from EmptyString s''
            else cur :: splitlines_from EmptyString s'
        | EmptyString => cur :: splitlines_from EmptyString s'
        end
      else splitlines_from (cur ++ String c EmptyString) s'
  end.

Definition splitlines (s : string) : list string := splitlines_from EmptyString s.

(** [l[i]] with Python's negative indices; [None] stands for [IndexError]. *)
Definition getitem {A : Type} (l : list A) (i : Z) : option A :=
  let n := Z.of_nat (List.length l) in
  if (i <? - n)%Z || (n <=? i)%Z then None
  else nth_error l (Z.to_nat (if (i <? 0)%Z then i + n else i)%Z).

Definition is_lower (c : ascii) : bool :=
  (97 <=? nat_of_ascii c)%nat && (nat_of_ascii c <=? 122)%nat.

(** [s.upper()] *)
Fixpoint upper (s : string) : string :=
  match s with
  | EmptyString => EmptyString
  | String c s' =>
      String (if is_lower c then ascii_of_nat (nat_of_ascii c - 32) else c) (upper s')
  end.

Definition is_digit (c : ascii) : bool :=
  (48 <=? nat_of_ascii c)%nat && (nat_of_ascii c <=? 57)%nat.

Definition is_hex (c : ascii) : bool :=
  is_digit c
  || ((97 <=? nat_of_ascii c)%nat && (nat_of_ascii c <=? 102)%nat)
  || ((65 <=? nat_of_ascii c)%nat && (nat_of_ascii c <=? 70)%nat).

Definition hex_value (c : ascii) : N :=
  let n := N_of_ascii c in
  if is_digit c then (n - 48)%N
  else if (97 <=? nat_of_ascii c)%nat then (n - 87)%N
  else (n - 55)%N.

(** [int(s, 16)] on a string of hexadecimal digits. *)
Definition int16 (s : string) : N :=
  fold_left (fun acc c => (16 * acc + hex_value c)%N) (list_ascii_of_string s) 0%N.

(** [int(s)] on a string of decimal digits. *)
Definition int10 (s : string) : Z :=
  fold_left (fun acc c => (10 * acc + (Z.of_nat (nat_of_ascii c) - 48))%Z)
            (list_ascii_of_string s) 0%Z.

(** [s * n]: [n] copies of [s], and none when [n] is not positive. *)
Definition mul (s : string) (n : Z) : string :=
  String.concat EmptyString (List.repeat s (Z.to_nat n)).

End Py.

(** ** The regular expressions of the rule tables

    Every pattern of [RULES] and [STRING_RULES] is a sequence of character
    classes, each taken once, a fixed number of times, or repeated.  The
    matcher is anchored at the start of its input, greedy, and backtracks
    into a repetition when the rest of the pattern fails, as [re.match]
    does; it returns the length of the match. *)

Module Re.

Inductive quant : Type := One | Plus | Star | Times (n : nat).

Record atom : Type := Atom { cls : ascii -> bool; rep : quant }.

Definition regex : Type := list atom.

Fixpoint many (c : ascii -> bool) (k : string -> option nat) (s : string) : option nat :=
  match s with
  | String a s' =>
      if c a then
        match many c k s' with
        | Some n => Some (S n)
        | None => k s
        end
      else k s
  | EmptyString => k s
  end.

Fixpoint exactly (c : ascii -> bool) (n : nat) (k : string -> option nat) (s : string)
  : option nat :=
  match n with
  | 0 => k s
  | S n' =>
      match s with
      | String a s' => if c a then option_map S (exactly c n' k s') else None
      | EmptyString => None
      end
  end.

Fixpoint rmatch (r : regex) (s : string) : option nat :=
  match r with
  | [] => Some 0
  | a :: r' =>
      match rep a with
      | One => exactly (cls a) 1 (rmatch r') s
      | Times n => exactly (cls a) n (rmatch r') s
      | Star => many (cls a) (rmatch r') s
      | Plus =>
          match s with
          | String x s' =>
              if cls a x then option_map S (many (cls a) (rmatch r') s') else None
          | EmptyString => None
          end
      end
  end.

(** [rule.matches(s, pos)]: the match starts at [pos]; the result is its end. *)
Definition matches (r : regex) (s : string) (pos : nat) : option nat :=
  option_map (fun n => pos + n) (rmatch r (Py.drop pos s)).

Definition chr (c : ascii) : atom := Atom (Ascii.eqb c) One.

(** A pattern that matches the characters of [s] literally. *)
Definition lit (s : string) : regex := map chr (list_ascii_of_string s).

Definition one_of (s : string) : ascii -> bool := fun c => Py.contains c s.
Definition none_of (s : string) : ascii -> bool := fun c => negb (Py.contains c s).

(** [\d] *)
Definition digit : ascii -> bool := Py.is_digit.

(** [\s] of a byte pattern: space, tab, line feed, vertical tab, form feed,
    carriage return. *)
Definition space (c : ascii) : bool :=
  let n := nat_of_ascii c in (n =? 32)%nat || ((9 <=? n)%nat && (n <=? 13)%nat).

Definition is_alpha (c : ascii) : bool :=
  let n := nat_of_ascii c in
  ((97 <=? n)%nat && (n <=? 122)%nat) || ((65 <=? n)%nat && (n <=? 90)%nat).

(** [[a-zA-Z_]] and [[a-zA-Z0-9_]] *)
Definition ident_start (c : ascii) : bool := is_alpha c || Ascii.eqb c "_"%char.
Definition ident_char (c : ascii) : bool := ident_start c || Py.is_digit c.

End Re.

(** ** Exceptions and results

    The two [ParseError] classes, of [lexer.py] and of [parser.py], are
    different classes with different fields. *)

Module LexerError.
Record ParseError : Type := {
  msg : string;
  line : string;
  filename : string;
  lineno : nat;
  start_colno : Z;
  end_colno : Z
}.

(** [ParseError.__str__] *)
Definition __str__ (self : ParseError) : string :=
  ((line self ++ String Py.newline EmptyString)
   ++ Py.mul " " (start_colno self - 6))
  ++ Py.mul "^" (end_colno self - start_colno self).

End LexerError.

Module ParserError.
Record ParseError : Type := {
  line : string;
  filename : string;
  lineno : nat;
  start_colno : Z;
  end_colno : Z
}.

(** [ParseError.__str__] *)
Definition __str__ (self : ParseError) : string :=
  ((line self ++ String Py.newline EmptyString)
   ++ Py.mul " " (start_colno self - 6))
  ++ Py.mul "^" (end_colno self - start_colno self).

End ParserError.

(** The exceptions that the two files raise or let through. *)
Inductive exn : Type :=
| LexerParseError (e : LexerError.ParseError)
| ParserParseError (e : ParserError.ParseError)
| StopIteration
| AttributeError
| AssertionError
| IndexError
| KeyError
| TypeError
| ValueError
| UnicodeError
| Exception (msg : string).

(** What a call does: it returns a value, raises, or exhausts the fuel
    given to its loops. *)
Inductive result (A : Type) : Type :=
| Return (a : A)
| Raise (e : exn)
| OutOfFuel.

Arguments Return {A} a.
Arguments Raise {A} e.
Arguments OutOfFuel {A}.

(** ** rpython.rlib.runicode

    The two functions that [lexer.py] imports from the RPython library:
    the UTF-8 encoding of one code point and the strict check of a byte
    string, both over Unicode scalar values. *)

Module Runicode.

Definition byte (n : N) : ascii := ascii_of_N n.

(** [unicode_encode_utf_8(UNICHR(n), ..., 'strict')] *)
Definition encode_code_point (n : N) : result string :=
  if (0x10FFFF <? n)%N then Raise ValueError
  else if ((0xD800 <=? n) && (n <=? 0xDFFF))%N then Raise UnicodeError
  else if (n <? 0x80)%N then Return (String (byte n) EmptyString)
  else if (n <? 0x800)%N then
    Return (String (byte (0xC0 + N.shiftr n 6))
           (String (byte (0x80 + N.land n 0x3F)) EmptyString))
  else if (n <? 0x10000)%N then
    Return (String (byte (0xE0 + N.shiftr n 12))
           (String (byte (0x80 + N.land (N.shiftr n 6) 0x3F))
           (String (byte (0x80 + N.land n 0x3F)) EmptyString)))
  else
    Return (String (byte (0xF0 + N.shiftr n 18))
           (String (byte (0x80 + N.land (N.shiftr n 12) 0x3F))
           (String (byte (0x80 + N.land (N.shiftr n 6) 0x3F))
           (String (byte (0x80 + N.land n 0x3F)) EmptyString)))).

Definition in_range (lo hi : N) (c : ascii) : bool :=
  ((lo <=? N_of_ascii c) && (N_of_ascii c <=? hi))%N.

Definition cont : ascii -> bool := in_range 0x80 0xBF.

(** Well-formed UTF-8. *)
Fixpoint well_formed (s : string) : bool :=
  match s with
  | EmptyString => true
  | String c0 r0 =>
      let b := N_of_ascii c0 in
      if (b <? 0x80)%N then well_formed r0
      else if (b <? 0xC2)%N then false
      else if (b <? 0xE0)%N then
        match r0 with
        | String c1 r1 => cont c1 && well_formed r1
        | _ => false
        end
      else if (b <? 0xF0)%N then
        match r0 with
        | String c1 (String c2 r2) =>
            (if (b =? 0xE0)%N then in_range 0xA0 0xBF c1
             else if (b =? 0xED)%N then in_range 0x80 0x9F c1
             else cont c1)
            && cont c2 && well_formed r2
        | _ => false
        end
      else if (b <? 0xF5)%N then
        match r0 with
        | String c1 (String c2 (String c3 r3)) =>
            (if (b =? 0xF0)%N then in_range 0x90 0xBF c1
             else if (b =? 0xF4)%N then in_range 0x80 0x8F c1
             else cont c1)
            && cont c2 && cont c3 && well_formed r3
        | _ => false
        end
      else false
  end.

(** [str_decode_utf_8(s, len(s), 'strict', final=True)], for its check alone. *)
Definition str_decode_utf_8 (s : string) : result unit :=
  if well_formed s then Return tt else Raise UnicodeError.

End Runicode.

(** ** nolang/lexer.py *)

Module Lexer.

Import Py Re.

Record SourceRange : Type := {
  start : nat;
  end_ : nat;
  lineno : nat;
  colno : nat
}.

(** [rply.token.Token]: a kind, the token's text, and a source position,
    which is [None] for the end marker that the parser makes up. *)
Record Token : Type := {
  name : string;
  value : string;
  source_pos : option SourceRange
}.

Definition gettokentype (t : Token) : string := name t.
Definition getstr (t : Token) : string := value t.
Definition getsourcepos (t : Token) : option SourceRange := source_pos t.

Definition rule : Type := (string * regex)%type.

Definition RULES : list rule := [
  ("INTEGER", [Atom digit Plus]);
  ("PLUS", lit "+");
  ("MINUS", lit "-");
  ("LT", lit "<");
  ("STAR", lit "*");
  ("DOT", lit ".");
  ("TRUEDIV", lit "//");
  ("EQ", lit "==");
  ("ASSIGN", lit "=");
  ("IDENTIFIER", [Atom ident_start One; Atom ident_char Star]);
  ("LEFT_CURLY_BRACE", lit "{");
  ("LEFT_PAREN", lit "(");
  ("RIGHT_PAREN", lit ")");
  ("RIGHT_CURLY_BRACE", lit "}");
  ("COMMA", lit ",");
  ("SEMICOLON", lit ";");
  ("STRING", [chr dquote])
].

Definition KEYWORDS : list string := [
  "def"; "class"; "return"; "var"; "while"; "if"; "or"; "and"; "true";
  "false"; "try"; "except"; "finally"; "as"; "raise"; "import"
].

Definition TOKENS : list string := map fst RULES ++ map upper KEYWORDS.

(** [val in KEYWORD_DICT] *)
Definition KEYWORD_DICT (val : string) : bool := existsb (String.eqb val) KEYWORDS.

Definition STRING_RULES : list rule := [
  ("ESC_QUOTE", [chr backslash; chr dquote]);
  ("ESC_ESC", [chr backslash; chr backslash]);
  ("ESC_SIMPLE", [chr backslash; Atom (one_of "abfnrtv0") One]);
  ("ESC_HEX_8", [chr backslash; chr "x"; Atom is_hex (Times 2)]);
  ("ESC_HEX_16", [chr backslash; chr "u"; Atom is_hex (Times 4)]);
  ("ESC_HEX_ANY", [chr backslash; chr "u"; chr "{"; Atom is_hex Plus; chr "}"]);
  ("ESC_UNRECOGNISED",
   [chr backslash;
    Atom (none_of (String dquote (String backslash "abfnrtv0xu"))) One]);
  ("CHAR", [Atom (none_of (String dquote (String backslash EmptyString))) One]);
  ("CLOSING_QUOTE", [chr dquote])
].

(** An rply lexer: its rules and its ignore rules, both in declared order. *)
Record RplyLexer : Type := {
  rules : list rule;
  ignore_rules : list rule
}.

(** The state of a stream object.  [SRLexerStream] has the first four
    fields; its subclass [QuillLexerStream] adds [_last_token], which the
    class sets to [None]. *)
Record Stream : Type := {
  _filename : string;
  s : string;
  idx : nat;
  _lineno : nat;
  _last_token : option Token
}.

Definition set_idx_lineno (self : Stream) (i l : nat) : Stream :=
  {| _filename := _filename self; s := s self; idx := i; _lineno := l;
     _last_token := _last_token self |}.

Definition set_last_token (self : Stream) (t : Token) : Stream :=
  {| _filename := _filename self; s := s self; idx := idx self;
     _lineno := _lineno self; _last_token := Some t |}.

(** [SRLexerStream.__init__] *)
Definition SRLexerStream (filename s : string) (idx lineno : nat) : Stream :=
  {| _filename := filename; s := s; idx := idx; _lineno := lineno;
     _last_token := None |}.

(** [SRLexerStream._update_pos]: the range of the match and the stream
    moved past it. *)
Definition _update_pos (self : Stream) (match_start match_end : nat)
  : SourceRange * Stream :=
  let lineno := _lineno self in
  let self' :=
    set_idx_lineno self match_end
      (_lineno self + count newline (s self) match_start match_end) in
  let colno :=
    match rfind newline (s self) match_start with
    | None => match_start + 1
    | Some last_nl => match_start - last_nl
    end in
  ({| start := match_start; end_ := match_end; lineno := lineno; colno := colno |},
   self').

(** [SRLexerStream.parse_error]: the exception that [raise
    self.parse_error(msg)] raises; indexing the lines can raise instead. *)
Definition parse_error (self : Stream) (msg : string) : exn :=
  let colno :=
    match rfind newline (s self) (idx self) with
    | None => (Z.of_nat (idx self) - 1)%Z
    | Some last_nl => (Z.of_nat (idx self) - Z.of_nat last_nl - 1)%Z
    end in
  match getitem (splitlines (s self)) (Z.of_nat (_lineno self) - 1) with
  | None => IndexError
  | Some line =>
      LexerParseError
        {| LexerError.msg := msg;
           LexerError.line := line;
           LexerError.filename := _filename self;
           LexerError.lineno := _lineno self;
           LexerError.start_colno := colno;
           LexerError.end_colno := (colno + 1)%Z |}
  end.

(** The first rule, in declared order, that matches at [pos], with the end
    of its match. *)
Fixpoint first_match (rs : list rule) (s : string) (pos : nat) : option (string * nat) :=
  match rs with
  | [] => None
  | (n, r) :: rs' =>
      match matches r s pos with
      | Some e => Some (n, e)
      | None => first_match rs' s pos
      end
  end.

(** [SRLexerStream.next] *)
Fixpoint SRLexerStream_next (lexer : RplyLexer) (fuel : nat) (self : Stream)
  : Stream * result Token :=
  match fuel with
  | 0 => (self, OutOfFuel)
  | S fuel' =>
      if Nat.leb (String.length (s self)) (idx self) then (self, Raise StopIteration)
      else
        match first_match (ignore_rules lexer) (s self) (idx self) with
        | Some (_, e) =>
            SRLexerStream_next lexer fuel' (snd (_update_pos self (idx self) e))
        | None =>
            match first_match (rules lexer) (s self) (idx self) with
            | Some (n, e) =>
                let (source_pos, self') := _update_pos self (idx self) e in
                (self', Return {| name := n;
                                  value := slice (s self) (idx self) e;
                                  source_pos := Some source_pos |})
            | None => (self, Raise (parse_error self "unrecognized token"))
            end
        end
  end.

Definition get_string_lexer : RplyLexer :=
  {| rules := STRING_RULES; ignore_rules := [] |}.

(** [hex_to_utf8] *)
Definition hex_to_utf8 (s : string) : result string :=
  Runicode.encode_code_point (int16 s).

(** The dictionary of the [ESC_SIMPLE] branch. *)
Definition simple_escape (c : ascii) : option ascii :=
  if Ascii.eqb c "a" then Some "007"%char
  else if Ascii.eqb c "b" then Some "008"%char
  else if Ascii.eqb c "f" then Some "012"%char
  else if Ascii.eqb c "n" then Some "010"%char
  else if Ascii.eqb c "r" then Some "013"%char
  else if Ascii.eqb c "t" then Some "009"%char
  else if Ascii.eqb c "v" then Some "011"%char
  else if Ascii.eqb c "0" then Some "000"%char
  else None.

(** The decoded text of one token of the string lexer. *)
Definition decode_part (t : Token) : result string :=
  if name t =? "ESC_QUOTE" then Return (String dquote EmptyString)
  else if name t =? "ESC_ESC" then Return (String backslash EmptyString)
  else if name t =? "ESC_SIMPLE" then
    match String.get 1 (value t) with
    | None => Raise IndexError
    | Some c =>
        match simple_escape c with
        | None => Raise KeyError
        | Some d => Return (String d EmptyString)
        end
    end
  else if (name t =? "ESC_HEX_8") || (name t =? "ESC_HEX_16") then
    hex_to_utf8 (drop 2 (value t))
  else if name t =? "ESC_HEX_ANY" then
    hex_to_utf8 (slice (value t) 3 (String.length (value t) - 1))
  else if (name t =? "ESC_UNRECOGNISED") || (name t =? "CHAR") then
    Return (value t)
  else Raise AssertionError.

(** The loops of one call scan text of the stream, so the length of the
    text, and one more, bounds them. *)
Definition enough (self : Stream) : nat := S (String.length (s self)).

(** The [for] loop of [lex_string] over the stream [sub] of the string
    lexer: the parts decoded so far and the length scanned so far. *)
Fixpoint lex_string_loop (self : Stream) (fuel : nat) (sub : Stream)
    (parts : list string) (length : nat) : result (list string * nat) :=
  match fuel with
  | 0 => OutOfFuel
  | S fuel' =>
      match SRLexerStream_next get_string_lexer fuel sub with
      | (sub', Return t) =>
          let length := length + String.length (value t) in
          if name t =? "CLOSING_QUOTE" then Return (parts, length)
          else
            match decode_part t with
            | Return part => lex_string_loop self fuel' sub' (parts ++ [part])%list length
            | Raise e => Raise e
            | OutOfFuel => OutOfFuel
            end
      | (_, Raise StopIteration) => Raise (parse_error self "unterminated string")
      | (_, Raise e) => Raise e
      | (_, OutOfFuel) => OutOfFuel
      end
  end.

(** [QuillLexerStream.lex_string] *)
Definition lex_string (self : Stream) : Stream * result Token :=
  let sub := SRLexerStream (_filename self) (s self) (idx self + 1) (_lineno self) in
  match lex_string_loop self (enough self) sub [] 1 with
  | Return (parts, length) =>
      let val := String.concat EmptyString parts in
      match Runicode.str_decode_utf_8 val with
      | Return _ =>
          let (source_range, self') :=
            _update_pos self (idx self) (idx self + length) in
          (self', Return {| name := "STRING"; value := val;
                            source_pos := Some source_range |})
      | Raise e => (self, Raise e)
      | OutOfFuel => (self, OutOfFuel)
      end
  | Raise e => (self, Raise e)
  | OutOfFuel => (self, OutOfFuel)
  end.

Definition whitespace : rule := (EmptyString, [Atom space Plus]).

(** [get_lexer]: the main lexer ignores [\s+]. *)
Definition get_lexer : RplyLexer :=
  {| rules := RULES; ignore_rules := [whitespace] |}.

(** The kinds after which a newline ends a statement. *)
Definition terminator_eligible (n : string) : bool :=
  existsb (String.eqb n) ["RIGHT_CURLY_BRACE"; "RIGHT_PAREN"; "IDENTIFIER"; "INTEGER"].

(** The [for rule in self.lexer.rules] loop of [QuillLexerStream.next]. *)
Definition next_rule (self : Stream) : Stream * result Token :=
  match first_match (rules get_lexer) (s self) (idx self) with
  | Some (rule_name, e) =>
      if rule_name =? "STRING" then
        match lex_string self with
        | (self', Return token) => (set_last_token self' token, Return token)
        | other => other
        end
      else
        let (source_range, self') := _update_pos self (idx self) e in
        let val := slice (s self) (idx self) e in
        let name := if KEYWORD_DICT val then upper val else rule_name in
        let token := {| name := name; value := val;
                        source_pos := Some source_range |} in
        (set_last_token self' token, Return token)
  | None => (self, Raise (parse_error self "unrecognized token"))
  end.

(** [QuillLexerStream.next].  Beside the stream and the outcome, the
    function returns the ranges that [_update_pos] computed for the
    whitespace it skipped, which the source drops. *)
Fixpoint next_fuel (fuel : nat) (self : Stream)
  : list SourceRange * (Stream * result Token) :=
  match fuel with
  | 0 => ([], (self, OutOfFuel))
  | S fuel' =>
      if Nat.leb (String.length (s self)) (idx self) then ([], (self, Raise StopIteration))
      else
        match ignore_rules get_lexer with
        | [whitespace_rule] =>
            match matches (snd whitespace_rule) (s self) (idx self) with
            | Some e =>
                let (source_range, self') := _update_pos self (idx self) e in
                if contains newline (slice (s self) (idx self) e) then
                  match _last_token self' with
                  | None => ([], (self', Raise AttributeError))
                  | Some last =>
                      if negb (terminator_eligible (name last)) then
                        let (skipped, r) := next_fuel fuel' self' in
                        (source_range :: skipped, r)
                      else
                        let token := {| name := "SEMICOLON";
                                        value := slice (s self) (idx self) e;
                                        source_pos := Some source_range |} in
                        ([], (set_last_token self' token, Return token))
                  end
                else
                  let (skipped, r) := next_fuel fuel' self' in
                  (source_range :: skipped, r)
            | None => ([], next_rule self)
            end
        | _ => ([], (self, Raise AssertionError))
        end
  end.

Definition next (self : Stream) : list SourceRange * (Stream * result Token) :=
  next_fuel (enough self) self.

(** [QuillLexer.lex] *)
Definition lex (filename s : string) : Stream :=
  {| _filename := filename; s := s; idx := 0; _lineno := 1; _last_token := None |}.

(** What a consumer of the stream observes, in order: the tokens it is
    given and, between them, the whitespace ranges that were skipped. *)
Inductive event : Type :=
| Emitted (t : Token)
| Skipped (r : SourceRange).

(** Draining the stream, as [list(lexer.lex(filename, s))] does. *)
Fixpoint drain (fuel : nat) (self : Stream) : list event * result unit :=
  match fuel with
  | 0 => ([], OutOfFuel)
  | S fuel' =>
      match next self with
      | (skipped, (self', Return t)) =>
          let (evs, r) := drain fuel' self' in
          ((map Skipped skipped ++ Emitted t :: evs)%list, r)
      | (skipped, (_, Raise StopIteration)) => (map Skipped skipped, Return tt)
      | (skipped, (_, Raise e)) => (map Skipped skipped, Raise e)
      | (skipped, (_, OutOfFuel)) => (map Skipped skipped, OutOfFuel)
      end
  end.

Definition lex_all (filename s : string) : list event * result unit :=
  drain (S (String.length s)) (lex filename s).

Fixpoint emitted (evs : list event) : list Token :=
  match evs with
  | [] => []
  | Emitted t :: evs' => t :: emitted evs'
  | Skipped _ :: evs' => emitted evs'
  end.

Definition kinds (evs : list event) : list string := map name (emitted evs).

(** [Token.getsrcpos]; a token without a source position has no [start]. *)
Definition getsrcpos (t : Token) : result (nat * nat) :=
  match source_pos t with
  | Some p => Return (start p, end_ p)
  | None => Raise AttributeError
  end.

End Lexer.


(** ** rply: the parser generator and its parser

    [parser.py] hands its productions and its precedence table to rply's
    [ParserGenerator], whose [build] makes an LALR(1) table, and whose
    parser runs the table over a token iterator.  The grammar is data
    here too, and the table is computed from it.

    A symbol is a rule name when a production defines it, and a token
    kind otherwise. *)

Module Rply.

Inductive assoc : Type := assoc_left | assoc_right | assoc_nonassoc.

(** [rule.split()] *)
Fixpoint split_from (cur : string) (s : string) : list string :=
  match s with
  | EmptyString => match cur with EmptyString => [] | _ => [cur] end
  | String c s' =>
      if Re.space c then
        match cur with
        | EmptyString => split_from EmptyString s'
        | _ => cur :: split_from EmptyString s'
        end
      else split_from (cur ++ String c EmptyString) s'
  end.

Definition split (s : string) : list string := split_from EmptyString s.

(** A production as [ParserGenerator.production] records it: the words of
    ['name : sym ... sym'] with the colon dropped. *)
Definition parse_rule (rule : string) : option (string * list string) :=
  match split rule with
  | name :: ":" :: syms => Some (name, syms)
  | _ => None
  end.

(** *** The grammar with its symbols numbered

    Token kinds come first, from 0, which is the end marker [$end]; rule
    names follow.  A set of token kinds is a bit set. *)

Record grammar : Type := {
  symbols : list string;
  n_term : nat;
  prods : list (nat * list nat);
  (** per token kind, its declared associativity and level, or [None] *)
  token_prec : list (option (assoc * nat));
  (** per production, the precedence of its rightmost token kind *)
  prod_prec : list (assoc * nat)
}.

Definition index_of (x : string) (l : list string) : option nat :=
  (fix go (l : list string) (i : nat) : option nat :=
     match l with
     | [] => None
     | y :: l' => if String.eqb x y then Some i else go l' (S i)
     end) l 0.

Definition add_new (l : list string) (x : string) : list string :=
  if existsb (String.eqb x) l then l else (l ++ [x])%list.

Definition precedence_of (precedence : list (assoc * list string)) (term : string)
  : option (assoc * nat) :=
  (fix go (l : list (assoc * list string)) (level : nat) : option (assoc * nat) :=
     match l with
     | [] => None
     | (a, terms) :: l' =>
         if existsb (String.eqb term) terms then Some (a, level) else go l' (S level)
     end) precedence 1.

Definition default_prec : assoc * nat := (assoc_right, 0).

Definition rightmost_terminal (names : list string) (syms : list string) : option string :=
  find (fun x => negb (existsb (String.eqb x) names)) (rev syms).

(** [Grammar.add_production] for each rule, and [set_start]: production 0
    is [S' : start], with the name of the first rule as [start]. *)
Definition make_grammar (precedence : list (assoc * list string))
    (rules : list (string * list string)) : grammar :=
  let start := match rules with (n, _) :: _ => n | [] => EmptyString end in
  let all := ("S'", [start]) :: rules in
  let names := fold_left add_new (map fst all) [] in
  let used := fold_left add_new (concat (map snd all)) [] in
  let terms := "$end" :: filter (fun x => negb (existsb (String.eqb x) names)) used in
  let syms := (terms ++ names)%list in
  let num x := match index_of x syms with Some i => i | None => 0 end in
  {| symbols := syms;
     n_term := List.length terms;
     prods := map (fun r => (num (fst r), map num (snd r))) all;
     token_prec := map (precedence_of precedence) terms;
     prod_prec :=
       map (fun r =>
              match rightmost_terminal names (snd r) with
              | Some t =>
                  match precedence_of precedence t with
                  | Some p => p
                  | None => default_prec
                  end
              | None => default_prec
              end) all |}.

Definition bit (i : nat) : N := N.shiftl 1 (N.of_nat i).
Definition mem (i : nat) (b : N) : bool := N.testbit b (N.of_nat i).

Definition item : Type := (nat * nat)%type.

Definition item_eqb (a b : item) : bool :=
  Nat.eqb (fst a) (fst b) && Nat.eqb (snd a) (snd b).

Fixpoint items_eqb (a b : list item) : bool :=
  match a, b with
  | [], [] => true
  | x :: a', y :: b' => item_eqb x y && items_eqb a' b'
  | _, _ => false
  end.

Fixpoint update {A : Type} (n : nat) (f : A -> A) (l : list A) : list A :=
  match l, n with
  | [], _ => []
  | x :: l', 0 => f x :: l'
  | x :: l', S n' => x :: update n' f l'
  end.

Fixpoint find_index {A : Type} (f : A -> bool) (l : list A) (i : nat) : option nat :=
  match l with
  | [] => None
  | x :: l' => if f x then Some i else find_index f l' (S i)
  end.

Section Automaton.

Variable g : grammar.

Definition rhs_of (p : nat) : list nat := snd (nth p (prods g) (0, [])).
Definition lhs_of (p : nat) : nat := fst (nth p (prods g) (0, [])).
Definition is_term (x : nat) : bool := Nat.ltb x (n_term g).

Definition next_sym (it : item) : option nat := nth_error (rhs_of (fst it)) (snd it).
Definition advance (it : item) : item := (fst it, S (snd it)).
Definition after (it : item) : list nat := skipn (S (snd it)) (rhs_of (fst it)).

Definition prods_of (A : nat) : list nat :=
  map fst (filter (fun np => Nat.eqb (fst (snd np)) A)
                  (combine (seq 0 (List.length (prods g))) (prods g))).

(** The LR(0) closure: the items, then for each in turn the rules of the
    symbol after its dot that are not there yet. *)
Fixpoint closure_from (fuel : nat) (J : list item) (k : nat) : list item :=
  match fuel with
  | 0 => J
  | S fuel' =>
      match nth_error J k with
      | None => J
      | Some it =>
          let new :=
            match next_sym it with
            | Some B =>
                if is_term B then []
                else filter (fun i => negb (existsb (item_eqb i) J))
                            (map (fun p => (p, 0)) (prods_of B))
            | None => []
            end in
          closure_from fuel' (J ++ new) (S k)
      end
  end.

Definition closure (its : list item) : list item :=
  closure_from (List.length its + List.length (prods g) + 1) its 0.

Definition goto_kernel (its : list item) (x : nat) : list item :=
  map advance
      (filter (fun it => match next_sym it with
                         | Some y => Nat.eqb x y
                         | None => false
                         end) its).

Definition after_dots (its : list item) : list nat :=
  fold_left (fun acc it =>
               match next_sym it with
               | Some x => if existsb (Nat.eqb x) acc then acc else (acc ++ [x])%list
               | None => acc
               end) its [].

(** A state is its kernel and its closure; [trans] lists, per state, the
    symbols it moves on and the states they lead to. *)
Definition lr_state : Type := (list item * list item)%type.

Definition add_goto (its : list item) (acc : list lr_state * list (nat * nat)) (x : nat)
  : list lr_state * list (nat * nat) :=
  let (C, tr) := acc in
  let k := goto_kernel its x in
  match find_index (fun st => items_eqb (fst st) k) C 0 with
  | Some j => (C, (tr ++ [(x, j)])%list)
  | None => ((C ++ [(k, closure k)])%list, (tr ++ [(x, List.length C)])%list)
  end.

Fixpoint lr0_items (fuel : nat) (C : list lr_state) (k : nat)
    (trans : list (list (nat * nat))) : option (list lr_state * list (list (nat * nat))) :=
  match fuel with
  | 0 => None
  | S fuel' =>
      match nth_error C k with
      | None => Some (C, trans)
      | Some (_, its) =>
          let (C', tr) := fold_left (add_goto its) (after_dots its) (C, []) in
          lr0_items fuel' C' (S k) (trans ++ [tr])%list
      end
  end.

(** *** FIRST sets *)

Definition nullable_seq (nullable : list bool) (l : list nat) : bool :=
  forallb (fun x => nth x nullable false) l.

Fixpoint first_seq (nullable : list bool) (first : list N) (l : list nat) : N :=
  match l with
  | [] => 0%N
  | x :: l' =>
      N.lor (nth x first 0%N)
            (if nth x nullable false then first_seq nullable first l' else 0%N)
  end.

Definition first_round (nf : list bool * list N) : list bool * list N :=
  fold_left
    (fun (nf : list bool * list N) (p : nat * list nat) =>
       let (nullable, first) := nf in
       (update (fst p) (fun b => b || nullable_seq nullable (snd p)) nullable,
        update (fst p) (fun s => N.lor s (first_seq nullable first (snd p))) first))
    (prods g) nf.

Fixpoint iterate {A : Type} (n : nat) (f : A -> A) (x : A) : A :=
  match n with
  | 0 => x
  | S n' => iterate n' f (f x)
  end.

Definition compute_first : list bool * list N :=
  let n := List.length (symbols g) in
  iterate (n * n)
          first_round
          (map (fun _ => false) (seq 0 n),
           map (fun x => if is_term x then bit x else 0%N) (seq 0 n)).

(** *** LALR(1) lookaheads

    Each item of each LR(0) state gets the set of token kinds that may
    follow it.  Inside a state, an item [A : u . B v] with lookaheads [l]
    gives the items [B : . w] the set FIRST(v), and [l] too when [v] can
    be empty; along a transition, an item gives its set to the item with
    the dot moved.  The sets are the least ones closed under both. *)

Section Lookaheads.

Variable nullable : list bool.
Variable first : list N.
Variable C : list lr_state.
Variable trans : list (list (nat * nat)).

Definition contribution (its : list item) (la : list N) (B : nat) : N :=
  fold_left
    (fun acc (il : item * N) =>
       match next_sym (fst il) with
       | Some x =>
           if Nat.eqb x B then
             N.lor acc
                   (N.lor (first_seq nullable first (after (fst il)))
                          (if nullable_seq nullable (after (fst il)) then snd il else 0%N))
           else acc
       | None => acc
       end)
    (combine its la) 0%N.

Definition spread (st : lr_state) (la : list N) : list N :=
  map (fun il : item * N =>
         if Nat.eqb (snd (fst il)) 0
         then N.lor (snd il) (contribution (snd st) la (lhs_of (fst (fst il))))
         else snd il)
      (combine (snd st) la).

Fixpoint merge (moved la : list N) : list N :=
  match moved, la with
  | a :: moved', b :: la' => N.lor a b :: merge moved' la'
  | _, _ => la
  end.

Definition pass (p : nat) (LA : list (list N)) (xq : nat * nat) : list (list N) :=
  let moved :=
    map snd
        (filter (fun il : item * N =>
                   match next_sym (fst il) with
                   | Some y => Nat.eqb (fst xq) y
                   | None => false
                   end)
                (combine (snd (nth p C ([], []))) (nth p LA []))) in
  update (snd xq) (merge moved) LA.

Definition la_round (LA : list (list N)) : list (list N) :=
  let LA1 := map (fun sl : lr_state * list N => spread (fst sl) (snd sl)) (combine C LA) in
  fold_left (fun LA (pt : nat * list (nat * nat)) => fold_left (pass (fst pt)) (snd pt) LA)
            (combine (seq 0 (List.length C)) trans) LA1.

Definition la_eqb (a b : list (list N)) : bool :=
  forallb (fun ab : list N * list N =>
             forallb (fun xy : N * N => N.eqb (fst xy) (snd xy)) (combine (fst ab) (snd ab)))
          (combine a b).

Fixpoint la_fix (fuel : nat) (LA : list (list N)) : option (list (list N)) :=
  match fuel with
  | 0 => None
  | S fuel' =>
      let LA' := la_round LA in
      if la_eqb LA LA' then Some LA else la_fix fuel' LA'
  end.

Definition la_init : list (list N) :=
  update 0 (update 0 (fun _ => bit 0))
         (map (fun st : lr_state => map (fun _ => 0%N) (snd st)) C).

End Lookaheads.

(** *** The table

    An action is an integer, as in rply: a positive one shifts and goes to
    that state, a negative one reduces by the production of that number,
    and 0 accepts. *)

Definition actions : Type := list (nat * (Z * nat)).

Fixpoint lookup {A : Type} (a : nat) (l : list (nat * A)) : option A :=
  match l with
  | [] => None
  | (b, v) :: l' => if Nat.eqb a b then Some v else lookup a l'
  end.

Fixpoint set_action {A : Type} (a : nat) (v : A) (l : list (nat * A)) : list (nat * A) :=
  match l with
  | [] => [(a, v)]
  | (b, w) :: l' => if Nat.eqb a b then (b, v) :: l' else (b, w) :: set_action a v l'
  end.

Inductive choice : Type := choose_shift | choose_reduce | choose_neither.

(** yacc's rule for a token kind [a] that can be shifted where production
    [p] can be reduced: the higher level wins, and on a tie the
    associativity decides.  The conflict is reported when no precedence
    was there to settle it. *)
Definition resolve (a p : nat) : choice * bool :=
  let (rprec, rlevel) := nth p (prod_prec g) default_prec in
  let (_, slevel) := match nth a (token_prec g) None with
                     | Some sp => sp
                     | None => default_prec
                     end in
  if Nat.ltb rlevel slevel then (choose_shift, Nat.eqb rlevel 0)
  else if Nat.eqb slevel rlevel then
    match rprec with
    | assoc_right => (choose_shift, Nat.eqb rlevel 0)
    | assoc_nonassoc => (choose_neither, false)
    | assoc_left => (choose_reduce, false)
    end
  else (choose_reduce, false).

Record conflicts : Type := {
  sr : list (nat * nat);
  rr : list (nat * nat)
}.

Definition add_reduce (st p : nat) (acc : actions * conflicts) (a : nat)
  : actions * conflicts :=
  let (acts, cf) := acc in
  match lookup a acts with
  | None => (set_action a ((- Z.of_nat p)%Z, p) acts, cf)
  | Some (r, q) =>
      if (0 <? r)%Z then
        let (c, report) := resolve a p in
        let cf' := if report then {| sr := (sr cf ++ [(st, a)])%list; rr := rr cf |} else cf in
        match c with
        | choose_reduce => (set_action a ((- Z.of_nat p)%Z, p) acts, cf')
        | _ => (acts, cf')
        end
      else if (r <? 0)%Z then
        let cf' := {| sr := sr cf; rr := (rr cf ++ [(st, a)])%list |} in
        if Nat.ltb p q then (set_action a ((- Z.of_nat p)%Z, p) acts, cf')
        else (acts, cf')
      else (acts, cf)
  end.

Definition add_shift (st : nat) (it : item) (a j : nat) (acc : actions * conflicts)
  : actions * conflicts :=
  let (acts, cf) := acc in
  match lookup a acts with
  | None => (set_action a (Z.of_nat j, fst it) acts, cf)
  | Some (r, q) =>
      if (r <? 0)%Z then
        let (c, report) := resolve a q in
        let cf' := if report then {| sr := (sr cf ++ [(st, a)])%list; rr := rr cf |} else cf in
        match c with
        | choose_shift => (set_action a (Z.of_nat j, fst it) acts, cf')
        | _ => (acts, cf')
        end
      else (acts, cf)
  end.

Definition members (n : nat) (b : N) : list nat := filter (fun i => mem i b) (seq 0 n).

Definition add_item (st : nat) (tr : list (nat * nat)) (acc : actions * conflicts)
    (il : item * N) : actions * conflicts :=
  let (it, la) := il in
  match next_sym it with
  | None =>
      if Nat.eqb (fst it) 0 then
        (set_action 0 (0%Z, 0) (fst acc), snd acc)
      else fold_left (add_reduce st (fst it)) (members (n_term g) la) acc
  | Some a =>
      if is_term a then
        match lookup a tr with
        | Some j => add_shift st it a j acc
        | None => acc
        end
      else acc
  end.

Definition state_actions (cf : conflicts) (st : nat) (its : list item) (la : list N)
    (tr : list (nat * nat)) : actions * conflicts :=
  fold_left (add_item st tr) (combine its la) ([], cf).

Definition symbol_name (x : nat) : string := nth x (symbols g) EmptyString.

(** [default_reductions]: the reduction of a state all of whose actions
    are that one reduction, and 0 for the other states. *)
Definition default_reduction (acts : actions) : Z :=
  match acts with
  | [] => 0%Z
  | (_, (r, _)) :: rest =>
      if (r <? 0)%Z && forallb (fun e : nat * (Z * nat) => Z.eqb (fst (snd e)) r) rest
      then r else 0%Z
  end.

Record LRTable : Type := {
  lr_action : list (list (string * Z));
  lr_goto : list (list (string * nat));
  default_reductions : list Z;
  sr_conflicts : list (nat * string);
  rr_conflicts : list (nat * string);
  (** the name and the length of each production *)
  productions : list (string * nat)
}.

Definition from_grammar (fuel : nat) : option LRTable :=
  let (nullable, first) := compute_first in
  let k0 := [(0, 0)] in
  match lr0_items fuel [(k0, closure k0)] 0 [] with
  | None => None
  | Some (C, trans) =>
      match la_fix nullable first C trans fuel (la_init C) with
      | None => None
      | Some LA =>
          let rows :=
            fold_left
              (fun (acc : list actions * conflicts)
                   (e : nat * (lr_state * (list N * list (nat * nat)))) =>
                 let '(st, (cst, (la, tr))) := e in
                 let (acts, cf) := state_actions (snd acc) st (snd cst) la tr in
                 ((fst acc ++ [acts])%list, cf))
              (combine (seq 0 (List.length C)) (combine C (combine LA trans)))
              ([], {| sr := []; rr := [] |}) in
          Some {|
            lr_action :=
              map (map (fun e : nat * (Z * nat) => (symbol_name (fst e), fst (snd e))))
                  (fst rows);
            lr_goto :=
              map (fun tr : list (nat * nat) =>
                     map (fun xq : nat * nat => (symbol_name (fst xq), snd xq))
                         (filter (fun xq : nat * nat => negb (is_term (fst xq))) tr))
                  trans;
            default_reductions := map default_reduction (fst rows);
            sr_conflicts :=
              map (fun e : nat * nat => (fst e, symbol_name (snd e))) (sr (snd rows));
            rr_conflicts :=
              map (fun e : nat * nat => (fst e, symbol_name (snd e))) (rr (snd rows));
            productions :=
              map (fun p : nat * list nat => (symbol_name (fst p), List.length (snd p)))
                  (prods g)
          |}
      end
  end.

End Automaton.

(** *** The parser *)

Fixpoint assoc_get {A : Type} (k : string) (l : list (string * A)) : option A :=
  match l with
  | [] => None
  | (k', v) :: l' => if String.eqb k k' then Some v else assoc_get k l'
  end.

Section Parser.

(** The values on the symbol stack, the state object given to [parse],
    and the state of the token iterator. *)
Variables V St T : Type.

Variable of_token : Lexer.Token -> V.
Variable pull : T -> T * result Lexer.Token.

Variable table : LRTable.
Variable funcs : list (St -> list V -> result V).
Variable error_handler : St -> Lexer.Token -> result unit.

Definition end_token : Lexer.Token :=
  {| Lexer.name := "$end"; Lexer.value := "$end"; Lexer.source_pos := None |}.

(** [LRParser._reduce_production]; the stacks have their tops first. *)
Definition _reduce_production (t : Z) (symstack : list V) (statestack : list nat)
    (state : St) : result (list V * list nat * nat) :=
  match nth_error (productions table) (Z.to_nat (- t)),
        nth_error funcs (Z.to_nat (- t)) with
  | Some (pname, plen), Some func =>
      if Nat.ltb (List.length symstack) (plen + 1) then Raise AssertionError
      else
        let targ := rev (firstn plen symstack) in
        let symstack' := skipn plen symstack in
        let statestack' := skipn plen statestack in
        match func state targ with
        | Return value =>
            match statestack' with
            | top :: _ =>
                match assoc_get pname (nth top (lr_goto table) []) with
                | Some current_state =>
                    Return (value :: symstack', current_state :: statestack', current_state)
                | None => Raise KeyError
                end
            | [] => Raise IndexError
            end
        | Raise e => Raise e
        | OutOfFuel => OutOfFuel
        end
  | _, _ => Raise IndexError
  end.

(** The loop of [LRParser.parse]. *)
Fixpoint parse_loop (fuel : nat) (tokenizer : T) (lookahead : option Lexer.Token)
    (symstack : list V) (statestack : list nat) (current_state : nat) (state : St)
  : result V :=
  match fuel with
  | 0 => OutOfFuel
  | S fuel' =>
      let t := nth current_state (default_reductions table) 0%Z in
      if negb (Z.eqb t 0) then
        match _reduce_production t symstack statestack state with
        | Return (symstack', statestack', current_state') =>
            parse_loop fuel' tokenizer lookahead symstack' statestack' current_state' state
        | Raise e => Raise e
        | OutOfFuel => OutOfFuel
        end
      else
        let fetched : result (T * Lexer.Token) :=
          match lookahead with
          | Some la => Return (tokenizer, la)
          | None =>
              match pull tokenizer with
              | (tokenizer', Return la) => Return (tokenizer', la)
              | (tokenizer', Raise StopIteration) => Return (tokenizer', end_token)
              | (_, Raise e) => Raise e
              | (_, OutOfFuel) => OutOfFuel
              end
          end in
        match fetched with
        | Return (tokenizer', la) =>
            match assoc_get (Lexer.gettokentype la)
                            (nth current_state (lr_action table) []) with
            | Some t =>
                if (0 <? t)%Z then
                  parse_loop fuel' tokenizer' None (of_token la :: symstack)
                             (Z.to_nat t :: statestack) (Z.to_nat t) state
                else if (t <? 0)%Z then
                  match _reduce_production t symstack statestack state with
                  | Return (symstack', statestack', current_state') =>
                      parse_loop fuel' tokenizer' (Some la) symstack' statestack'
                                 current_state' state
                  | Raise e => Raise e
                  | OutOfFuel => OutOfFuel
                  end
                else
                  match symstack with
                  | n :: _ => Return n
                  | [] => Raise IndexError
                  end
            | None =>
                match error_handler state la with
                | Return _ => Raise AssertionError
                | Raise e => Raise e
                | OutOfFuel => OutOfFuel
                end
            end
        | Raise e => Raise e
        | OutOfFuel => OutOfFuel
        end
  end.

(** [LRParser.parse] *)
Definition parse (fuel : nat) (tokenizer : T) (state : St) : result V :=
  parse_loop fuel tokenizer None [of_token end_token] [0] 0 state.

End Parser.

End Rply.

(** ** nolang/astnodes.py *)

Module Ast.

(** Modelled from the spec: the module [nolang/astnodes.py], which
    [parser.py] imports as [ast], is the node set of the data model: the
    expression, statement and top-level forms, each a carrier of the
    arguments its constructor is given. *)
Inductive expr : Type :=
| Number (value : Z)
| String (value : string)
| Identifier (name : string)
| TrueNode
| FalseNode
| BinOp (op : string) (left right : expr)
| Or (left right : expr)
| And (left right : expr)
| Call (callee : expr) (args : list expr)
| Getattr (obj : expr) (attr : string).

Inductive stmt : Type :=
| Statement (e : expr)
| VarDeclaration (names : list string)
| Assignment (name : string) (e : expr)
| Setattr (target : expr) (attr : string) (e : expr)
| Return (e : expr)
| While (cond : expr) (body : list stmt)
| If (cond : expr) (body : list stmt)
| Raise (e : expr)
| TryExcept (body : list stmt) (exception_names : list string)
            (handler : list stmt) (finally : option (list stmt)).

(** The body of a class is the [Program] node of its [body]; the model
    keeps the elements of that node. *)
Inductive element : Type :=
| Function (name : string) (args : list string) (body : list stmt)
| ClassDefinition (name : string) (body : list element) (parent : option string).

(** What a grammar action takes and returns: a token, a finished node, or
    one of the builder nodes [Program], [FunctionBody], [VarDeclPartial],
    [ArgList] and [ExpressionListPartial], which hold a list. *)
Inductive node : Type :=
| Tok (t : Lexer.Token)
| Program (elements : list element)
| Element (e : element)
| FunctionBody (elements : list stmt)
| Stmt (s : stmt)
| VarDeclPartial (names : list string)
| ArgList (names : list string)
| Expr (e : expr)
| ExpressionListPartial (elements : list expr).

End Ast.

(** ** nolang/parser.py *)

Module Parser.

Import Lexer.

Record ParsingState : Type := { input : string }.

(** [errorhandler]: it always raises. *)
Definition errorhandler (state : ParsingState) (lookahead : Token) : result unit :=
  let lines := Py.splitlines (input state) in
  match getsourcepos lookahead with
  | None => Raise AttributeError
  | Some sourcepos =>
      match Py.getitem lines (Z.of_nat (lineno sourcepos) - 1) with
      | None => Raise IndexError
      | Some line =>
          Raise (ParserParseError
                   {| ParserError.line := line;
                      ParserError.filename := "<input>";
                      ParserError.lineno := lineno sourcepos;
                      ParserError.start_colno := (Z.of_nat (colno sourcepos) - 1)%Z;
                      ParserError.end_colno :=
                        (Z.of_nat (String.length (value lookahead))
                         + Z.of_nat (colno sourcepos) - 1)%Z |})
      end
  end.

Definition action : Type := ParsingState -> list Ast.node -> result Ast.node.

(** The grammar actions.  [p] is the list of the values of the symbols of
    the production; a value of the wrong class has no such method. *)

Definition program_body : action := fun state p =>
  match p with
  | [p0] => Return p0
  | _ => Raise IndexError
  end.

Definition body_empty : action := fun state p => Return (Ast.Program []).

Definition body_body_element : action := fun state p =>
  match p with
  | [Ast.Program elements; Ast.Element e] => Return (Ast.Program (elements ++ [e]))
  | _ => Raise AttributeError
  end.

Definition body_function : action := program_body.

Definition body_element_class_definition : action := program_body.

Definition class_definition : action := fun state p =>
  match p with
  | [_; Ast.Tok p1; _; Ast.Program body; _] =>
      Return (Ast.Element (Ast.ClassDefinition (getstr p1) body None))
  | _ => Raise AttributeError
  end.

Definition class_definition_inheritance : action := fun state p =>
  match p with
  | [_; Ast.Tok p1; _; Ast.Tok p3; _; _; Ast.Program body; _] =>
      Return (Ast.Element (Ast.ClassDefinition (getstr p1) body (Some (getstr p3))))
  | _ => Raise AttributeError
  end.

Definition function_function_body : action := fun state p =>
  match p with
  | [_; Ast.Tok p1; Ast.ArgList names; _; Ast.FunctionBody elements; _] =>
      Return (Ast.Element (Ast.Function (getstr p1) names elements))
  | _ => Raise AttributeError
  end.

Definition function_function_body_implicit_return : action := fun state p =>
  match p with
  | [_; Ast.Tok p1; Ast.ArgList names; _; Ast.FunctionBody elements; Ast.Expr p5; _] =>
      let statements := (elements ++ [Ast.Return p5])%list in
      Return (Ast.Element (Ast.Function (getstr p1) names statements))
  | _ => Raise AttributeError
  end.

Definition function_body_empty : action := fun state p => Return (Ast.FunctionBody []).

Definition function_body_statement : action := fun state p =>
  match p with
  | [Ast.FunctionBody elements; Ast.Stmt s] => Return (Ast.FunctionBody (elements ++ [s]))
  | _ => Raise AttributeError
  end.

Definition statement_expression : action := fun state p =>
  match p with
  | [Ast.Expr p0; _] => Return (Ast.Stmt (Ast.Statement p0))
  | _ => Raise AttributeError
  end.

Definition statement_var_decl : action := fun state p =>
  match p with
  | [_; Ast.Tok p1; Ast.VarDeclPartial names; _] =>
      Return (Ast.Stmt (Ast.VarDeclaration ([getstr p1] ++ names)))
  | _ => Raise AttributeError
  end.

Definition var_decl_empty : action := fun state p => Return (Ast.VarDeclPartial []).

Definition var_decl_identifier : action := fun state p =>
  match p with
  | [_; Ast.Tok p1; Ast.VarDeclPartial names] =>
      Return (Ast.VarDeclPartial ([getstr p1] ++ names))
  | _ => Raise AttributeError
  end.

Definition statement_identifier_assign_expr : action := fun state p =>
  match p with
  | [Ast.Tok p0; _; Ast.Expr p2; _] => Return (Ast.Stmt (Ast.Assignment (getstr p0) p2))
  | _ => Raise AttributeError
  end.

Definition statement_setattr : action := fun state p =>
  match p with
  | [Ast.Expr p0; _; Ast.Tok p2; _; Ast.Expr p4; _] =>
      Return (Ast.Stmt (Ast.Setattr p0 (getstr p2) p4))
  | _ => Raise AttributeError
  end.

Definition statement_return : action := fun state p =>
  match p with
  | [_; Ast.Expr p1; _] => Return (Ast.Stmt (Ast.Return p1))
  | _ => Raise AttributeError
  end.

Definition statement_while_loop : action := fun state p =>
  match p with
  | [_; Ast.Expr p1; _; Ast.FunctionBody elements; _] =>
      Return (Ast.Stmt (Ast.While p1 elements))
  | _ => Raise AttributeError
  end.

Definition statement_if_block : action := fun state p =>
  match p with
  | [_; Ast.Expr p1; _; Ast.FunctionBody elements; _] =>
      Return (Ast.Stmt (Ast.If p1 elements))
  | _ => Raise AttributeError
  end.

Definition statement_raise : action := fun state p =>
  match p with
  | [_; Ast.Expr p1; _] => Return (Ast.Stmt (Ast.Raise p1))
  | _ => Raise AttributeError
  end.

Definition statement_try_except : action := fun state p =>
  match p with
  | [_; _; Ast.FunctionBody body; _; _; Ast.Tok p5; _; Ast.FunctionBody handler; _] =>
      Return (Ast.Stmt (Ast.TryExcept body [getstr p5] handler None))
  | _ => Raise AttributeError
  end.

Definition arglist : action := fun state p => Return (Ast.ArgList []).

Definition arglist_non_empty : action := fun state p =>
  match p with
  | [_; Ast.Tok p1; Ast.VarDeclPartial names; _] =>
      Return (Ast.ArgList ([getstr p1] ++ names))
  | _ => Raise AttributeError
  end.

Definition expression_number : action := fun state p =>
  match p with
  | [Ast.Tok p0] => Return (Ast.Expr (Ast.Number (Py.int10 (getstr p0))))
  | _ => Raise AttributeError
  end.

Definition expression_string : action := fun state p =>
  match p with
  | [Ast.Tok p0] =>
      let s := getstr p0 in
      let end_ := (Z.of_nat (String.length s) - 1)%Z in
      if (end_ <? 0)%Z then Raise AssertionError
      else Return (Ast.Expr (Ast.String (Py.slice s 1 (Z.to_nat end_))))
  | _ => Raise AttributeError
  end.

Definition expression_atom : action := program_body.

Definition expression_or_expression : action := fun state p =>
  match p with
  | [Ast.Expr p0; _; Ast.Expr p2] => Return (Ast.Expr (Ast.Or p0 p2))
  | _ => Raise AttributeError
  end.

Definition expression_and_expression : action := fun state p =>
  match p with
  | [Ast.Expr p0; _; Ast.Expr p2] => Return (Ast.Expr (Ast.And p0 p2))
  | _ => Raise AttributeError
  end.

Definition atom_true : action := fun state p => Return (Ast.Expr Ast.TrueNode).

Definition atom_identifier : action := fun state p =>
  match p with
  | [Ast.Tok p0] => Return (Ast.Expr (Ast.Identifier (getstr p0)))
  | _ => Raise AttributeError
  end.

Definition atom_false : action := fun state p => Return (Ast.Expr Ast.FalseNode).

Definition atom_call : action := fun state p =>
  match p with
  | [Ast.Expr p0; _; Ast.ExpressionListPartial elements; _] =>
      Return (Ast.Expr (Ast.Call p0 elements))
  | _ => Raise AttributeError
  end.

Definition atom_paren_expression_paren : action := fun state p =>
  match p with
  | [_; p1; _] => Return p1
  | _ => Raise IndexError
  end.

Definition atom_dot_identifier : action := fun state p =>
  match p with
  | [Ast.Expr p0; _; Ast.Tok p2] => Return (Ast.Expr (Ast.Getattr p0 (getstr p2)))
  | _ => Raise AttributeError
  end.

Definition expression_lt_expression : action := fun state p =>
  match p with
  | [Ast.Expr p0; Ast.Tok p1; Ast.Expr p2] =>
      Return (Ast.Expr (Ast.BinOp (getstr p1) p0 p2))
  | _ => Raise AttributeError
  end.

Definition expression_list_empty : action :=
  fun state p => Return (Ast.ExpressionListPartial []).

Definition expression_list_expression : action := fun state p =>
  match p with
  | [Ast.Expr p0; Ast.ExpressionListPartial elements] =>
      Return (Ast.ExpressionListPartial ([p0] ++ elements))
  | _ => Raise AttributeError
  end.

Definition expression_sublist_empty : action :=
  fun state p => Return (Ast.ExpressionListPartial []).

Definition expression_sublist_expression : action := fun state p =>
  match p with
  | [_; Ast.Expr p1; Ast.ExpressionListPartial elements] =>
      Return (Ast.ExpressionListPartial ([p1] ++ elements))
  | _ => Raise AttributeError
  end.

(** The precedence table of [get_parser], lowest level first. *)
Definition precedence : list (Rply.assoc * list string) := [
  (Rply.assoc_left, ["AND"]);
  (Rply.assoc_left, ["OR"]);
  (Rply.assoc_left, ["EQ"; "LT"]);
  (Rply.assoc_left, ["PLUS"; "MINUS"]);
  (Rply.assoc_left, ["TRUEDIV"; "STAR"]);
  (Rply.assoc_left, ["DOT"]);
  (Rply.assoc_left, ["LEFT_PAREN"])
].

(** The productions in the order in which the decorators register them;
    of the six decorators stacked on [expression_lt_expression] the
    innermost, for [EQ], runs first. *)
Definition productions : list (string * action) := [
  ("program : body", program_body);
  ("body :", body_empty);
  ("body : body body_element", body_body_element);
  ("body_element : function", body_function);
  ("body_element : class_definition", body_element_class_definition);
  ("class_definition : CLASS IDENTIFIER LEFT_CURLY_BRACE body RIGHT_CURLY_BRACE",
   class_definition);
  ("class_definition : CLASS IDENTIFIER LEFT_PAREN IDENTIFIER RIGHT_PAREN LEFT_CURLY_BRACE body RIGHT_CURLY_BRACE",
   class_definition_inheritance);
  ("function : FUNCTION IDENTIFIER arglist LEFT_CURLY_BRACE function_body RIGHT_CURLY_BRACE",
   function_function_body);
  ("function : FUNCTION IDENTIFIER arglist LEFT_CURLY_BRACE function_body expression RIGHT_CURLY_BRACE",
   function_function_body_implicit_return);
  ("function_body :", function_body_empty);
  ("function_body : function_body statement", function_body_statement);
  ("statement : expression SEMICOLON", statement_expression);
  ("statement : VAR IDENTIFIER var_decl SEMICOLON", statement_var_decl);
  ("var_decl : ", var_decl_empty);
  ("var_decl : COMMA IDENTIFIER var_decl", var_decl_identifier);
  ("statement : IDENTIFIER ASSIGN expression SEMICOLON", statement_identifier_assign_expr);
  ("statement : atom DOT IDENTIFIER ASSIGN expression SEMICOLON", statement_setattr);
  ("statement : RETURN expression SEMICOLON", statement_return);
  ("statement : WHILE expression LEFT_CURLY_BRACE function_body RIGHT_CURLY_BRACE",
   statement_while_loop);
  ("statement : IF expression LEFT_CURLY_BRACE function_body RIGHT_CURLY_BRACE",
   statement_if_block);
  ("statement : RAISE expression SEMICOLON", statement_raise);
  ("statement : TRY LEFT_CURLY_BRACE function_body RIGHT_CURLY_BRACE EXCEPT IDENTIFIER LEFT_CURLY_BRACE function_body RIGHT_CURLY_BRACE",
   statement_try_except);
  ("arglist : LEFT_PAREN RIGHT_PAREN", arglist);
  ("arglist : LEFT_PAREN IDENTIFIER var_decl RIGHT_PAREN", arglist_non_empty);
  ("expression : INTEGER", expression_number);
  ("expression : STRING", expression_string);
  ("expression : atom", expression_atom);
  ("expression : expression OR expression", expression_or_expression);
  ("expression : expression AND expression", expression_and_expression);
  ("atom : TRUE", atom_true);
  ("atom : IDENTIFIER", atom_identifier);
  ("atom : FALSE", atom_false);
  ("atom : atom LEFT_PAREN expression_list RIGHT_PAREN", atom_call);
  ("atom : LEFT_PAREN expression RIGHT_PAREN", atom_paren_expression_paren);
  ("atom : atom DOT IDENTIFIER", atom_dot_identifier);
  ("expression : expression EQ expression", expression_lt_expression);
  ("expression : expression LT expression", expression_lt_expression);
  ("expression : expression TRUEDIV expression", expression_lt_expression);
  ("expression : expression STAR expression", expression_lt_expression);
  ("expression : expression MINUS expression", expression_lt_expression);
  ("expression : expression PLUS expression", expression_lt_expression);
  ("expression_list : ", expression_list_empty);
  ("expression_list : expression expression_sublist", expression_list_expression);
  ("expression_sublist : ", expression_sublist_empty);
  ("expression_sublist : COMMA expression expression_sublist", expression_sublist_expression)
].

Definition rules : list (string * list string) :=
  flat_map (fun pa : string * action =>
              match Rply.parse_rule (fst pa) with
              | Some r => [r]
              | None => []
              end) productions.

Definition grammar : Rply.grammar := Rply.make_grammar precedence rules.

(** [pg.build()]: the table of the grammar. *)
Definition lr_table : option Rply.LRTable :=
  Eval vm_compute in Rply.from_grammar grammar 500.

(** [get_parser] *)
Definition get_parser : result Rply.LRTable :=
  match lr_table with
  | Some res =>
      match Rply.sr_conflicts res with
      | [] => Return res
      | _ => Raise (Exception "shift reduce conflicts")
      end
  | None => OutOfFuel
  end.

(** Production 0 is rply's own [S' : program], which has no action. *)
Definition funcs : list action :=
  (fun _ _ => Raise TypeError) :: map snd productions.

(** [get_parser().parse(tokenizer, state)] for a token iterator of any
    kind. *)
Definition parse_with {T : Type} (pull : T -> T * result Token) (fuel : nat)
    (tokenizer : T) (state : ParsingState) : result Ast.node :=
  match get_parser with
  | Return table =>
      Rply.parse Ast.node ParsingState T Ast.Tok pull table funcs errorhandler
                 fuel tokenizer state
  | Raise e => Raise e
  | OutOfFuel => OutOfFuel
  end.

(** [iter(tokens)] *)
Definition list_next (tokens : list Token) : list Token * result Token :=
  match tokens with
  | [] => ([], Raise StopIteration)
  | t :: tokens' => (tokens', Return t)
  end.

Definition parse_tokens (fuel : nat) (tokens : list Token) (state : ParsingState)
  : result Ast.node :=
  parse_with list_next fuel tokens state.

(** The lexer and the parser put together,
    [get_parser().parse(get_lexer().lex(filename, source_text),
    ParsingState(source_text))], which is what the entry point
    [parse(source_text, filename)] of the front end comes to. *)
Definition parse (fuel : nat) (source_text filename : string) : result Ast.node :=
  parse_with (fun stream => snd (Lexer.next stream)) fuel
             (Lexer.lex filename source_text) {| input := source_text |}.

End Parser.


(** * Vocabulary of the properties *)

Module ReSpec.

Import Py Re.

Definition bounded (k : string -> option nat) : Prop :=
  forall s n, k s = Some n -> n <= String.length s.

(** A pattern whose first class is taken at least once matches at least
    one character. *)
Definition consumes (r : regex) : bool :=
  match r with
  | a :: _ =>
      match rep a with
      | One | Plus => true
      | Times n => Nat.ltb 0 n
      | Star => false
      end
  | [] => false
  end.

End ReSpec.

Module LexerSpec.

Import Py Re Lexer.

Definition nl : string := String.String newline EmptyString.
Definition dq : string := String.String dquote EmptyString.

(** Ranges that follow one another from offset [from] to offset [to]. *)
Fixpoint chain (from : nat) (rs : list SourceRange) (to : nat) : Prop :=
  match rs with
  | [] => from = to
  | r :: rs' => start r = from /\ start r <= end_ r /\ chain (end_ r) rs' to
  end.

Definition text (s : string) (r : SourceRange) : string := slice s (start r) (end_ r).

(** The line counter of a stream is the line of its offset: one more
    than the newlines before it. *)
Definition lineno_ok (self : Stream) : Prop :=
  _lineno self = S (count newline (s self) 0 (idx self)).

(** What one call of [next] does to the offset: the skipped ranges and
    the range of the token follow one another from the old offset to the
    new one, and the stream ends only at or past the end of the text. *)
Definition advances (self : Stream) (out : list SourceRange * (Stream * result Token))
  : Prop :=
  s (fst (snd out)) = s self /\
  match snd (snd out) with
  | Return t =>
      exists rg, source_pos t = Some rg /\
                 chain (idx self) (fst out ++ [rg]) (idx (fst (snd out))) /\
                 (idx self <= String.length (s self) ->
                  idx (fst (snd out)) <= String.length (s self)) /\
                 (lineno_ok self -> lineno_ok (fst (snd out)))
  | Raise StopIteration =>
      chain (idx self) (fst out) (idx (fst (snd out))) /\
      String.length (s self) <= idx (fst (snd out)) /\
      (idx self <= String.length (s self) ->
       idx (fst (snd out)) <= String.length (s self))
  | _ => True
  end.

Definition event_range (ev : event) : option SourceRange :=
  match ev with
  | Emitted t => source_pos t
  | Skipped r => Some r
  end.

(** The text of the source that an event stands for. *)
Definition event_text (s : string) (ev : event) : string :=
  match event_range ev with
  | Some r => text s r
  | None => EmptyString
  end.

Fixpoint token_ranges (evs : list event) : list SourceRange :=
  match evs with
  | [] => []
  | Emitted t :: evs' =>
      match source_pos t with
      | Some r => r :: token_ranges evs'
      | None => token_ranges evs'
      end
  | Skipped _ :: evs' => token_ranges evs'
  end.

(** A STRING token lies over the text from an opening double quote to a
    later, closing one; the value of a token of another kind is the text
    of its range. *)
Definition covers (s : string) (t : Token) : Prop :=
  match source_pos t with
  | None => False
  | Some rg =>
      if name t =? "STRING" then
        String.get (start rg) s = Some dquote /\
        exists q, end_ rg = S q /\ start rg < q /\ String.get q s = Some dquote
      else value t = slice s (start rg) (end_ rg)
  end.

(** The line and the column of a token are those of its first
    character, counted from 1: one more than the newlines before it, and
    its distance from the last newline before it, or from the character
    before the text. *)
Definition placed (s : string) (t : Token) : Prop :=
  match source_pos t with
  | None => False
  | Some rg =>
      lineno rg = S (count newline s 0 (start rg)) /\
      colno rg = match rfind newline s (start rg) with
                 | None => start rg + 1
                 | Some last_nl => start rg - last_nl
                 end
  end.

(** The first rule that matches the text [t], with the length of its
    match. *)
Fixpoint first_len (rs : list rule) (t : string) : option (string * nat) :=
  match rs with
  | [] => None
  | (n, r) :: rs' =>
      match rmatch r t with
      | Some k => Some (n, k)
      | None => first_len rs' t
      end
  end.

Definition two (c : ascii) : string :=
  String.String backslash (String.String c EmptyString).

Definition token_of (n v : string) (r : SourceRange) : Token :=
  {| name := n; value := v; source_pos := Some r |}.

Inductive reachable (filename text : string) : Stream -> Prop :=
| reachable_lex : reachable filename text (lex filename text)
| reachable_next (self self' : Stream) (skipped : list SourceRange) (t : Token) :
    reachable filename text self ->
    next self = (skipped, (self', Return t)) ->
    reachable filename text self'.

(** Text in which every backslash starts a two-character escape and no
    double quote stands unescaped.  The hex escapes, which [x] and [u]
    start, are left out. *)
Inductive unclosed : string -> Prop :=
| unclosed_end : unclosed EmptyString
| unclosed_char (c : ascii) (r : string) :
    c <> dquote -> c <> backslash -> unclosed r -> unclosed (String.String c r)
| unclosed_escape (c : ascii) (r : string) :
    c <> "x"%char -> c <> "u"%char -> unclosed r ->
    unclosed (String.String backslash (String.String c r)).

Definition sample : string := "x = f(1," ++ nl ++ "  " ++ dq ++ "a\nb" ++ dq ++ ")" ++ nl ++ "y".

(** The general rule at the stream that has just emitted [a] in the text
    [a], newline, [b]. *)
Definition after_a : Stream :=
  {| _filename := "f"; s := "a" ++ nl ++ "b"; idx := 1; _lineno := 1;
     _last_token :=
       Some {| name := "IDENTIFIER"; value := "a";
               source_pos := Some {| start := 0; end_ := 1; lineno := 1; colno := 1 |} |} |}.

(** The characters after which a backslash is passed through. *)
Definition unrecognised : ascii -> bool :=
  none_of (String.String dquote (String.String backslash "abfnrtv0xu")).

Definition starts_with_two_hex (t : string) : bool :=
  match t with
  | String.String h1 (String.String h2 _) => is_hex h1 && is_hex h2
  | _ => false
  end.

Definition starts_with_hex_or_brace (t : string) : bool :=
  match t with
  | String.String h _ => is_hex h || Ascii.eqb "{" h
  | _ => false
  end.

(** The text [t] starts with a character of the class [c]. *)
Definition starts_with (c : ascii -> bool) (t : string) : bool :=
  match t with
  | String.String x _ => c x
  | EmptyString => false
  end.

Fixpoint all (c : ascii -> bool) (t : string) : bool :=
  match t with
  | String.String x r => c x && all c r
  | EmptyString => true
  end.

(** A word: a letter or an underscore, then letters, digits and
    underscores. *)
Definition word (w : string) : bool :=
  match w with
  | String.String c r => ident_start c && all ident_char r
  | EmptyString => false
  end.

(** A number: one decimal digit or more. *)
Definition number (w : string) : bool :=
  match w with
  | String.String c r => is_digit c && all is_digit r
  | EmptyString => false
  end.

(** What the kind of a token says of its text.  A STRING token is left
    out: its value is decoded text. *)
Definition shaped (t : Token) : Prop :=
  name t = "STRING" \/
  (name t = "SEMICOLON" /\ all space (value t) = true /\
   contains newline (value t) = true) \/
  (name t = "INTEGER" /\ number (value t) = true) \/
  (name t = "IDENTIFIER" /\ word (value t) = true /\ KEYWORD_DICT (value t) = false) \/
  (KEYWORD_DICT (value t) = true /\ name t = upper (value t)) \/
  In (name t, lit (value t)) RULES.

(** The token that [next] makes at the offset of [self] for a match of
    the length [n] whose rule has the name [rule_name], and the stream
    after it. *)
Definition token_at (self : Stream) (rule_name : string) (n : nat) : Token :=
  let val := slice (s self) (idx self) (idx self + n) in
  {| name := if KEYWORD_DICT val then upper val else rule_name;
     value := val;
     source_pos := Some (fst (_update_pos self (idx self) (idx self + n))) |}.

Definition emits (self : Stream) (t : Token) (n : nat)
  : list SourceRange * (Stream * result Token) :=
  ([], (set_last_token (snd (_update_pos self (idx self) (idx self + n))) t, Return t)).

(** [''.join(parts)] *)
Definition join (parts : list string) : string :=
  fold_right String.append EmptyString parts.

(** The pieces of the body of a string literal: a character, or one of
    the escapes. *)
Inductive piece : Type :=
| char (c : ascii)
| esc_quote
| esc_esc
| esc_simple (c : ascii)
| esc_hex_8 (h1 h2 : ascii)
| esc_hex_16 (h1 h2 h3 h4 : ascii)
| esc_hex_any (h : ascii) (hs : string)
| esc_unrecognised (c : ascii).

(** How a piece is written in the text. *)
Definition written (p : piece) : string :=
  match p with
  | char c => String.String c EmptyString
  | esc_quote => two dquote
  | esc_esc => two backslash
  | esc_simple c => two c
  | esc_hex_8 h1 h2 =>
      String.String backslash (String.String "x" (String.String h1 (String.String h2 EmptyString)))
  | esc_hex_16 h1 h2 h3 h4 =>
      String.String backslash
        (String.String "u"
           (String.String h1 (String.String h2 (String.String h3 (String.String h4 EmptyString)))))
  | esc_hex_any h hs =>
      String.String backslash
        (String.String "u" (String.String "{" (String.String h (hs ++ "}"))))
  | esc_unrecognised c => two c
  end.

(** The characters that a piece may be made of. *)
Definition well_written (p : piece) : bool :=
  match p with
  | char c => negb (Ascii.eqb dquote c) && negb (Ascii.eqb backslash c)
  | esc_quote | esc_esc => true
  | esc_simple c => one_of "abfnrtv0" c
  | esc_hex_8 h1 h2 => is_hex h1 && is_hex h2
  | esc_hex_16 h1 h2 h3 h4 => is_hex h1 && is_hex h2 && is_hex h3 && is_hex h4
  | esc_hex_any h hs => is_hex h && all is_hex hs
  | esc_unrecognised c => unrecognised c
  end.

(** The rule of [STRING_RULES] that takes a piece. *)
Definition rule_of (p : piece) : string :=
  match p with
  | char _ => "CHAR"
  | esc_quote => "ESC_QUOTE"
  | esc_esc => "ESC_ESC"
  | esc_simple _ => "ESC_SIMPLE"
  | esc_hex_8 _ _ => "ESC_HEX_8"
  | esc_hex_16 _ _ _ _ => "ESC_HEX_16"
  | esc_hex_any _ _ => "ESC_HEX_ANY"
  | esc_unrecognised _ => "ESC_UNRECOGNISED"
  end.

(** What a piece stands for in the value of the literal. *)
Definition meant (p : piece) : result string :=
  match p with
  | char c => Return (String.String c EmptyString)
  | esc_quote => Return (String.String dquote EmptyString)
  | esc_esc => Return (String.String backslash EmptyString)
  | esc_simple c =>
      match simple_escape c with
      | Some d => Return (String.String d EmptyString)
      | None => Raise KeyError
      end
  | esc_hex_8 h1 h2 => hex_to_utf8 (String.String h1 (String.String h2 EmptyString))
  | esc_hex_16 h1 h2 h3 h4 =>
      hex_to_utf8
        (String.String h1 (String.String h2 (String.String h3 (String.String h4 EmptyString))))
  | esc_hex_any h hs => hex_to_utf8 (String.String h hs)
  | esc_unrecognised c => Return (two c)
  end.

(** The pieces in turn, up to the first that raises. *)
Fixpoint decode_all (ps : list piece) : result (list string) :=
  match ps with
  | [] => Return []
  | p :: ps' =>
      match meant p with
      | Return v =>
          match decode_all ps' with
          | Return vs => Return (v :: vs)
          | other => other
          end
      | Raise e => Raise e
      | OutOfFuel => OutOfFuel
      end
  end.

(** The outcome of [next] at the opening quote of a literal whose body
    is the pieces [ps]. *)
Definition literal_outcome (self : Stream) (ps : list piece)
  : list SourceRange * (Stream * result Token) :=
  match decode_all ps with
  | Return vs =>
      if Runicode.well_formed (join vs) then
        let n := String.length (join (map written ps)) + 2 in
        emits self
              {| name := "STRING"; value := join vs;
                 source_pos := Some (fst (_update_pos self (idx self) (idx self + n))) |}
              n
      else ([], (self, Raise UnicodeError))
  | Raise e => ([], (self, Raise e))
  | OutOfFuel => ([], (self, OutOfFuel))
  end.

(** A character of a literal that is written as itself and is one byte
    of UTF-8. *)
Definition plain (c : ascii) : bool :=
  negb (Ascii.eqb dquote c) && negb (Ascii.eqb backslash c) && (N_of_ascii c <? 128)%N.

(** The exceptions of the rules: a [ParseError] of the lexer that names
    the file, points at an offset [i] of the text, on the line of [i] and
    over one column, and the two errors of a hex escape that is no
    character. *)
Definition rule_exception (filename text : string) (e : exn) : Prop :=
  match e with
  | LexerParseError pe =>
      (LexerError.msg pe = "unrecognized token" \/
       LexerError.msg pe = "unterminated string") /\
      LexerError.filename pe = filename /\
      (exists i, i < String.length text /\
                 LexerError.lineno pe = S (count newline text 0 i) /\
                 LexerError.start_colno pe =
                   match rfind newline text i with
                   | None => (Z.of_nat i - 1)%Z
                   | Some last_nl => (Z.of_nat i - Z.of_nat last_nl - 1)%Z
                   end) /\
      getitem (splitlines text) (Z.of_nat (LexerError.lineno pe) - 1)
      = Some (LexerError.line pe) /\
      LexerError.end_colno pe = (LexerError.start_colno pe + 1)%Z
  | ValueError | UnicodeError => True
  | _ => False
  end.

(** The exceptions of the lexer: those of the rules, and the
    [AttributeError] of a last token that is not there. *)
Definition lexer_exception (filename text : string) (e : exn) : Prop :=
  e = AttributeError \/ rule_exception filename text e.

(** The text starts with whitespace that holds a newline. *)
Definition starts_with_blank_line (text : string) : Prop :=
  exists e, matches (snd whitespace) text 0 = Some e /\
            contains newline (slice text 0 e) = true.

(** The kinds of the rules whose pattern is one text, with that text. *)
Definition PUNCTUATION : list (string * string) := [
  ("PLUS", "+"); ("MINUS", "-"); ("LT", "<"); ("STAR", "*"); ("DOT", ".");
  ("TRUEDIV", "//"); ("EQ", "=="); ("ASSIGN", "="); ("LEFT_CURLY_BRACE", "{");
  ("LEFT_PAREN", "("); ("RIGHT_PAREN", ")"); ("RIGHT_CURLY_BRACE", "}");
  ("COMMA", ","); ("SEMICOLON", ";")
].

(** A kind with a text of that kind: a keyword with its upper-case form,
    another word as an IDENTIFIER, a number as an INTEGER, or a
    punctuation. *)
Definition lexable (kv : string * string) : bool :=
  let (k, v) := kv in
  if KEYWORD_DICT v then String.eqb k (upper v)
  else (String.eqb k "IDENTIFIER" && word v)
       || (String.eqb k "INTEGER" && number v)
       || existsb (fun p => String.eqb k (fst p) && String.eqb v (snd p)) PUNCTUATION.

(** The texts written one after another, a blank before each. *)
Definition spaced (kvs : list (string * string)) : string :=
  join (map (fun kv => " " ++ snd kv) kvs).

(** The kinds and the texts of tokens. *)
Definition spelled (tokens : list Token) : list (string * string) :=
  map (fun t => (name t, value t)) tokens.

(** The text ends, or goes on with a blank. *)
Definition blank_or_end (t : string) : Prop :=
  t = EmptyString \/ exists r, t = String.String " " r.

End LexerSpec.

Module ParserSpec.

Import Lexer Parser LexerSpec.

(** A token of kind [n] with text [v], at any position or none. *)
Definition tok (n v : string) (pos : option SourceRange) : Token :=
  {| name := n; value := v; source_pos := pos |}.

(** The tokens of a function [f] without parameters whose body is the
    tokens [body]; [pos] places the tokens. *)
Definition function_of (pos : option SourceRange) (f : string) (body : list Token)
  : list Token :=
  [tok "FUNCTION" "def" pos; tok "IDENTIFIER" f pos; tok "LEFT_PAREN" "(" pos;
   tok "RIGHT_PAREN" ")" pos; tok "LEFT_CURLY_BRACE" "{" pos]
  ++ body ++ [tok "RIGHT_CURLY_BRACE" "}" pos].

Definition return_of (pos : option SourceRange) (e : list Token) : list Token :=
  [tok "RETURN" "return" pos] ++ e ++ [tok "SEMICOLON" ";" pos].

Definition kinds_and_texts (r : list event * result unit) : list (string * string) :=
  map (fun t => (name t, value t)) (emitted (fst r)).

Inductive operator : Type := AND | OR | EQ | LT | PLUS | MINUS | TRUEDIV | STAR.

Definition kind (o : operator) : string :=
  match o with
  | AND => "AND" | OR => "OR" | EQ => "EQ" | LT => "LT"
  | PLUS => "PLUS" | MINUS => "MINUS" | TRUEDIV => "TRUEDIV" | STAR => "STAR"
  end.

Definition symbol (o : operator) : string :=
  match o with
  | AND => "and" | OR => "or" | EQ => "==" | LT => "<"
  | PLUS => "+" | MINUS => "-" | TRUEDIV => "//" | STAR => "*"
  end.

(** The node that the action of the operator's production builds. *)
Definition node (o : operator) (l r : Ast.expr) : Ast.expr :=
  match o with
  | AND => Ast.And l r
  | OR => Ast.Or l r
  | _ => Ast.BinOp (symbol o) l r
  end.

(** The level of a kind in the precedence table of [get_parser]. *)
Definition level (k : string) : nat :=
  match Rply.precedence_of precedence k with
  | Some (_, l) => l
  | None => 0
  end.

(** An operand of one token. *)
Inductive operand : Type :=
| identifier (name : string)
| integer (digits : string)
| true_literal
| false_literal.

Definition operand_token (pos : option SourceRange) (x : operand) : Token :=
  match x with
  | identifier n => tok "IDENTIFIER" n pos
  | integer d => tok "INTEGER" d pos
  | true_literal => tok "TRUE" "true" pos
  | false_literal => tok "FALSE" "false" pos
  end.

Definition operand_node (x : operand) : Ast.expr :=
  match x with
  | identifier n => Ast.Identifier n
  | integer d => Ast.Number (Py.int10 d)
  | true_literal => Ast.TrueNode
  | false_literal => Ast.FalseNode
  end.

Definition op_token (pos : option SourceRange) (o : operator) : Token :=
  tok (kind o) (symbol o) pos.

(** The program of the function [f] that returns [e]. *)
Definition returns (e : Ast.expr) : result Ast.node :=
  Return (Ast.Program [Ast.Function "f" [] [Ast.Return e]]).

(** The [ParseError] that [errorhandler] makes for a token at [pos] on
    the line [line]. *)
Definition report (line : string) (lookahead : Token) (pos : SourceRange)
  : ParserError.ParseError :=
  {| ParserError.line := line;
     ParserError.filename := "<input>";
     ParserError.lineno := lineno pos;
     ParserError.start_colno := (Z.of_nat (colno pos) - 1)%Z;
     ParserError.end_colno :=
       (Z.of_nat (String.length (value lookahead)) + Z.of_nat (colno pos) - 1)%Z |}.

Section Loop.

Variable T : Type.
Variable pull : T -> T * result Token.
Variable table : Rply.LRTable.

(** The loop of the parser of [parser.py] over a token iterator of any
    kind, with any table. *)
Definition loop : nat -> T -> option Token -> list Ast.node -> list nat -> nat ->
                  ParsingState -> result Ast.node :=
  Rply.parse_loop Ast.node ParsingState T Ast.Tok pull table funcs errorhandler.

End Loop.

(** The parser that [get_parser] returns. *)
Definition the_table : Rply.LRTable :=
  match lr_table with
  | Some res => res
  | None =>
      {| Rply.lr_action := []; Rply.lr_goto := []; Rply.default_reductions := [];
         Rply.sr_conflicts := []; Rply.rr_conflicts := []; Rply.productions := [] |}
  end.

(** The loop over a list of tokens, with the table of [get_parser]. *)
Definition run : nat -> list Token -> option Token -> list Ast.node -> list nat -> nat ->
                 ParsingState -> result Ast.node :=
  loop (list Token) list_next the_table.

Section Positions.

Variable pos : option SourceRange.

Definition ident (x : string) : Token := tok "IDENTIFIER" x pos.
Definition comma : Token := tok "COMMA" "," pos.
Definition lparen : Token := tok "LEFT_PAREN" "(" pos.
Definition rparen : Token := tok "RIGHT_PAREN" ")" pos.

(** The tokens of the parameters after the first. *)
Definition more (xs : list string) : list Token :=
  flat_map (fun x => [comma; ident x]) xs.

(** The tokens of a function [f] with the parameters [x0], [xs] and an
    empty body. *)
Definition with_parameters (f x0 : string) (xs : list string) : list Token :=
  [tok "FUNCTION" "def" pos; ident f; lparen; ident x0]
  ++ more xs
  ++ [rparen; tok "LEFT_CURLY_BRACE" "{" pos; tok "RIGHT_CURLY_BRACE" "}" pos].

(** The stacks of the parser once it has shifted the first parameter and
    then the parameters [rxs], the last of them first: above the state 16
    that follows the first parameter, each further parameter adds the
    state 21 of its comma and the state 41 of its identifier. *)
Fixpoint syms_of (rxs : list string) (sym : list Ast.node) : list Ast.node :=
  match rxs with
  | [] => sym
  | x :: r => Ast.Tok (ident x) :: Ast.Tok comma :: syms_of r sym
  end.

End Positions.

Fixpoint states_of (rxs : list string) (sst : list nat) : list nat :=
  match rxs with
  | [] => 16 :: sst
  | _ :: r => 41 :: 21 :: states_of r sst
  end.

Definition top_of (rxs : list string) : nat :=
  match rxs with [] => 16 | _ => 41 end.

(** The state that follows a [var_decl] above those stacks. *)
Definition goto_of (rxs : list string) : nat :=
  match rxs with [] => 20 | _ => 65 end.

(** The iterator of the lexer, as the parser pulls from it. *)
Definition pull_stream (stream : Stream) : Stream * result Token := snd (next stream).

(** The stream will give the tokens, and then end. *)
Definition feeds (stream : Stream) (tokens : list Token) : Prop :=
  exists (fuel : nat) (evs : list event),
    drain fuel stream = (evs, Return tt) /\ emitted evs = tokens.

(** The tokens of a function [f] whose body starts with [return g(a]
    and the token [assign], and goes on with the tokens [rest]. *)
Definition named_argument (pos : option SourceRange) (assign : Token) (f g a : string)
    (rest : list Token) : list Token :=
  [tok "FUNCTION" "def" pos; tok "IDENTIFIER" f pos; tok "LEFT_PAREN" "(" pos;
   tok "RIGHT_PAREN" ")" pos; tok "LEFT_CURLY_BRACE" "{" pos;
   tok "RETURN" "return" pos; tok "IDENTIFIER" g pos; tok "LEFT_PAREN" "(" pos;
   tok "IDENTIFIER" a pos; assign] ++ rest.

(** A class, with its parent if it has one and the classes of its
    body. *)
Inductive class_tree : Type :=
| class_of (name : string) (parent : option string) (members : list class_tree).

(** The kinds and the texts of the tokens of a class. *)
Fixpoint class_written (c : class_tree) : list (string * string) :=
  match c with
  | class_of n p ms =>
      [("CLASS", "class"); ("IDENTIFIER", n)]
      ++ match p with
         | Some q => [("LEFT_PAREN", "("); ("IDENTIFIER", q); ("RIGHT_PAREN", ")")]
         | None => []
         end
      ++ [("LEFT_CURLY_BRACE", "{")]
      ++ flat_map class_written ms
      ++ [("RIGHT_CURLY_BRACE", "}")]
  end.

(** The node of a class. *)
Fixpoint class_node (c : class_tree) : Ast.element :=
  match c with
  | class_of n p ms => Ast.ClassDefinition n (map class_node ms) p
  end.

(** The turns of the loop that the parser takes over a class. *)
Fixpoint class_turns (c : class_tree) : nat :=
  match c with
  | class_of n p ms =>
      8 + match p with Some _ => 3 | None => 0 end + list_sum (map class_turns ms)
  end.

(** Where a body stands: at the top of the program, in a class, or in a
    class that has a parent; with the state before the body and the state
    in which the elements of the body are read. *)
Inductive body_context : Type := at_top | in_class | in_subclass.

Definition base_state (ctx : body_context) : nat :=
  match ctx with at_top => 0 | in_class => 12 | in_subclass => 42 end.

Definition body_state (ctx : body_context) : nat :=
  match ctx with at_top => 2 | in_class => 17 | in_subclass => 66 end.

(** The parser, in a body, reads the tokens of the classes [cs] and adds
    their nodes to the body. *)
Definition classes_run (state : ParsingState) (cs : list class_tree) : Prop :=
  forall (ctx : body_context) (ts rest : list Token) (fuel : nat)
         (acc : list Ast.element) (v : Ast.node) (sym : list Ast.node) (sst : list nat),
    spelled ts = flat_map class_written cs ->
    run (list_sum (map class_turns cs) + fuel) (ts ++ rest) None
        (Ast.Program acc :: v :: sym)
        (body_state ctx :: base_state ctx :: sst) (body_state ctx) state
    = run fuel rest None
          (Ast.Program (acc ++ map class_node cs) :: v :: sym)
          (body_state ctx :: base_state ctx :: sst) (body_state ctx) state.

(** A statement whose expressions are operands of one token, or a call
    of a name with such operands. *)
Inductive statement : Type :=
| expression_statement (x : operand)
| call_statement (f : string) (args : list operand)
| var_statement (x0 : string) (xs : list string)
| assignment (n : string) (x : operand)
| attribute_assignment (o a : string) (x : operand)
| return_statement (x : operand)
| raise_statement (x : operand)
| while_loop (c : operand) (body : list statement)
| if_block (c : operand) (body : list statement)
| try_except (body : list statement) (e : string) (handler : list statement).

(** The turns of the loop that the parser takes over an operand: to
    shift it and to reduce it to an expression. *)
Definition operand_turns (x : operand) : nat :=
  match x with
  | integer _ => 2
  | _ => 3
  end.

Section Written.

Variable pos : option SourceRange.

Definition semicolon : Token := tok "SEMICOLON" ";" pos.
Definition lbrace : Token := tok "LEFT_CURLY_BRACE" "{" pos.
Definition rbrace : Token := tok "RIGHT_CURLY_BRACE" "}" pos.

(** The tokens of the arguments of a call, without the parentheses. *)
Definition arguments (args : list operand) : list Token :=
  match args with
  | [] => []
  | a :: bs => operand_token pos a :: flat_map (fun b => [comma pos; operand_token pos b]) bs
  end.

(** The tokens of a statement. *)
Fixpoint statement_tokens (s : statement) : list Token :=
  match s with
  | expression_statement x => [operand_token pos x; semicolon]
  | call_statement f args =>
      [ident pos f; lparen pos] ++ arguments args ++ [rparen pos; semicolon]
  | var_statement x0 xs =>
      [tok "VAR" "var" pos; ident pos x0] ++ more pos xs ++ [semicolon]
  | assignment n x => [ident pos n; tok "ASSIGN" "=" pos; operand_token pos x; semicolon]
  | attribute_assignment o a x =>
      [ident pos o; tok "DOT" "." pos; ident pos a; tok "ASSIGN" "=" pos;
       operand_token pos x; semicolon]
  | return_statement x => [tok "RETURN" "return" pos; operand_token pos x; semicolon]
  | raise_statement x => [tok "RAISE" "raise" pos; operand_token pos x; semicolon]
  | while_loop c body =>
      [tok "WHILE" "while" pos; operand_token pos c; lbrace]
      ++ flat_map statement_tokens body ++ [rbrace]
  | if_block c body =>
      [tok "IF" "if" pos; operand_token pos c; lbrace]
      ++ flat_map statement_tokens body ++ [rbrace]
  | try_except body e handler =>
      [tok "TRY" "try" pos; lbrace] ++ flat_map statement_tokens body
      ++ [rbrace; tok "EXCEPT" "except" pos; ident pos e; lbrace]
      ++ flat_map statement_tokens handler ++ [rbrace]
  end.

End Written.

(** The node of a statement. *)
Fixpoint statement_node (s : statement) : Ast.stmt :=
  match s with
  | expression_statement x => Ast.Statement (operand_node x)
  | call_statement f args =>
      Ast.Statement (Ast.Call (Ast.Identifier f) (map operand_node args))
  | var_statement x0 xs => Ast.VarDeclaration (x0 :: xs)
  | assignment n x => Ast.Assignment n (operand_node x)
  | attribute_assignment o a x => Ast.Setattr (Ast.Identifier o) a (operand_node x)
  | return_statement x => Ast.Return (operand_node x)
  | raise_statement x => Ast.Raise (operand_node x)
  | while_loop c body => Ast.While (operand_node c) (map statement_node body)
  | if_block c body => Ast.If (operand_node c) (map statement_node body)
  | try_except body e handler =>
      Ast.TryExcept (map statement_node body) [e] (map statement_node handler) None
  end.

(** The turns of the loop over the arguments of a call and its closing
    parenthesis. *)
Definition arguments_turns (args : list operand) : nat :=
  match args with
  | [] => 2
  | a :: bs =>
      operand_turns a + list_sum (map (fun b => 2 + operand_turns b) bs) + 3
  end.

(** The turns of the loop over a statement. *)
Fixpoint statement_turns (s : statement) : nat :=
  match s with
  | expression_statement x => operand_turns x + 3
  | call_statement f args => arguments_turns args + 8
  | var_statement x0 xs => 3 * List.length xs + 6
  | assignment n x => operand_turns x + 5
  | attribute_assignment o a x => operand_turns x + 8
  | return_statement x => operand_turns x + 4
  | raise_statement x => operand_turns x + 4
  | while_loop c body => operand_turns c + 6 + list_sum (map statement_turns body)
  | if_block c body => operand_turns c + 6 + list_sum (map statement_turns body)
  | try_except body e handler =>
      11 + list_sum (map statement_turns body) + list_sum (map statement_turns handler)
  end.

(** Where a block of statements stands: in a function, or in the braces
    of [try], [while], [if] or [except]; with the state before the block
    and the state in which its statements are read. *)
Inductive block_context : Type := in_function | in_try | in_while | in_if | in_except.

Definition block_base (ctx : block_context) : nat :=
  match ctx with
  | in_function => 14 | in_try => 63 | in_while => 82 | in_if => 83 | in_except => 108
  end.

Definition block_state (ctx : block_context) : nat :=
  match ctx with
  | in_function => 19 | in_try => 85 | in_while => 95 | in_if => 96 | in_except => 109
  end.

(** The parser, in a block, reads the tokens of the statements [body]
    and adds their nodes to the block. *)
Definition statements_run (pos : option SourceRange) (state : ParsingState)
    (body : list statement) : Prop :=
  forall (ctx : block_context) (rest : list Token) (fuel : nat)
         (acc : list Ast.stmt) (v : Ast.node) (sym : list Ast.node) (sst : list nat),
    run (list_sum (map statement_turns body) + fuel)
        (flat_map (statement_tokens pos) body ++ rest) None
        (Ast.FunctionBody acc :: v :: sym)
        (block_state ctx :: block_base ctx :: sst) (block_state ctx) state
    = run fuel rest None
          (Ast.FunctionBody (acc ++ map statement_node body) :: v :: sym)
          (block_state ctx :: block_base ctx :: sst) (block_state ctx) state.

(** The stacks of the parser while it reads names after [var] and a
    first name: above the state 55 of the first name, each further name
    adds the state 21 of its comma and the state 41 of its identifier. *)
Fixpoint var_states (rxs : list string) (sst : list nat) : list nat :=
  match rxs with
  | [] => 55 :: sst
  | _ :: r => 41 :: 21 :: var_states r sst
  end.

Definition var_top (rxs : list string) : nat :=
  match rxs with [] => 55 | _ => 41 end.

Definition var_goto (rxs : list string) : nat :=
  match rxs with [] => 78 | _ => 65 end.

(** The stacks of the parser while it reads the arguments of a call,
    after the arguments [rbs], the last of them first, and the comma of
    each: above the state 54 of the opening parenthesis, the first
    argument adds the state 77 of its expression and the state 91 of its
    comma, and each further argument the states 101 and 91. *)
Fixpoint argument_syms (pos : option SourceRange) (rbs : list operand)
    (sym : list Ast.node) : list Ast.node :=
  match rbs with
  | [] => sym
  | b :: r => Ast.Tok (comma pos) :: Ast.Expr (operand_node b) :: argument_syms pos r sym
  end.

Definition expression_state (rbs : list operand) : nat :=
  match rbs with [] => 77 | _ => 101 end.

Fixpoint argument_states (rbs : list operand) (sst : list nat) : list nat :=
  match rbs with
  | [] => 54 :: sst
  | _ :: r => 91 :: expression_state r :: argument_states r sst
  end.

Definition argument_top (rbs : list operand) : nat :=
  match rbs with [] => 54 | _ => 91 end.

(** The state that follows the rest of an argument list above those
    stacks and the expression of one more argument. *)
Definition sublist_state (rbs : list operand) : nat :=
  match rbs with [] => 90 | _ => 106 end.

(** The last of the arguments [b], [bs], and the others, the last of
    them first, before [rbs]. *)
Fixpoint last_argument (b : operand) (bs : list operand) : operand :=
  match bs with
  | [] => b
  | c :: bs' => last_argument c bs'
  end.

Fixpoint arguments_before (b : operand) (bs rbs : list operand) : list operand :=
  match bs with
  | [] => rbs
  | c :: bs' => arguments_before c bs' (b :: rbs)
  end.

(** The state of an atom at the start of a statement. *)
Definition atom_state (ctx : block_context) : nat :=
  match ctx with in_function => 29 | _ => 99 end.

(** An element of a body: a class with the elements of its body, or a
    function with its parameters, the statements of its body and the
    expression that may end the body. *)
Inductive element : Type :=
| class_element (name : string) (parent : option string) (members : list element)
| function_element (name : string) (parameters : list string) (body : list statement)
                   (result : option operand).

Section Elements.

Variable pos : option SourceRange.

(** The tokens of the parameters of a function, without the
    parentheses. *)
Definition parameter_tokens (ps : list string) : list Token :=
  match ps with
  | [] => []
  | x0 :: xs => ident pos x0 :: more pos xs
  end.

(** The tokens of an element. *)
Fixpoint element_tokens (e : element) : list Token :=
  match e with
  | class_element n p ms =>
      [tok "CLASS" "class" pos; ident pos n]
      ++ match p with
         | Some q => [lparen pos; ident pos q; rparen pos]
         | None => []
         end
      ++ [lbrace pos] ++ flat_map element_tokens ms ++ [rbrace pos]
  | function_element f ps body r =>
      [tok "FUNCTION" "def" pos; ident pos f; lparen pos] ++ parameter_tokens ps
      ++ [rparen pos; lbrace pos] ++ flat_map (statement_tokens pos) body
      ++ match r with
         | Some x => [operand_token pos x]
         | None => []
         end
      ++ [rbrace pos]
  end.

End Elements.

(** The node of an element. *)
Fixpoint element_node (e : element) : Ast.element :=
  match e with
  | class_element n p ms => Ast.ClassDefinition n (map element_node ms) p
  | function_element f ps body r =>
      Ast.Function f ps
        (map statement_node body
         ++ match r with
            | Some x => [Ast.Return (operand_node x)]
            | None => []
            end)
  end.

(** The turns of the loop over the parameters of a function, after the
    opening parenthesis and before the closing one. *)
Definition parameter_turns (ps : list string) : nat :=
  match ps with
  | [] => 0
  | _ :: xs => 3 * List.length xs + 2
  end.

(** The turns of the loop over an element. *)
Fixpoint element_turns (e : element) : nat :=
  match e with
  | class_element n p ms =>
      8 + match p with Some _ => 3 | None => 0 end + list_sum (map element_turns ms)
  | function_element f ps body r =>
      11 + parameter_turns ps + list_sum (map statement_turns body)
      + match r with Some x => operand_turns x | None => 0 end
  end.

(** The parser, in a body, reads the tokens of the elements [es] and adds
    their nodes to the body. *)
Definition elements_run (pos : option SourceRange) (state : ParsingState)
    (es : list element) : Prop :=
  forall (ctx : body_context) (rest : list Token) (fuel : nat)
         (acc : list Ast.element) (v : Ast.node) (sym : list Ast.node) (sst : list nat),
    run (list_sum (map element_turns es) + fuel)
        (flat_map (element_tokens pos) es ++ rest) None
        (Ast.Program acc :: v :: sym)
        (body_state ctx :: base_state ctx :: sst) (body_state ctx) state
    = run fuel rest None
          (Ast.Program (acc ++ map element_node es) :: v :: sym)
          (body_state ctx :: base_state ctx :: sst) (body_state ctx) state.

(** The symbols and the states of the parser in the body of a function
    [f] with the parameters [ps], above the stacks of the body in which
    the function stands. *)
Definition function_syms (pos : option SourceRange) (f : string) (ps : list string)
    (sym : list Ast.node) : list Ast.node :=
  Ast.Tok (lbrace pos) :: Ast.ArgList ps :: Ast.Tok (ident pos f)
  :: Ast.Tok (tok "FUNCTION" "def" pos) :: sym.

Definition function_states (sst : list nat) : list nat :=
  block_state in_function :: block_base in_function :: 10 :: 8 :: 6 :: sst.

(** *** What the parser comes to

    The vocabulary of the properties of the loop of the parser over
    any tokens. *)

(** The classes of the values on the symbol stack. *)
Inductive node_class : Type :=
| a_token | a_program | an_element | a_function_body | a_statement
| a_var_decl | an_arglist | an_expression | an_expression_list.

(** The class of the value that the actions of a symbol return; a symbol
    that is not listed is a token kind. *)
Definition symbol_classes : list (string * node_class) := [
  ("program", a_program); ("body", a_program);
  ("body_element", an_element); ("function", an_element);
  ("class_definition", an_element);
  ("function_body", a_function_body); ("statement", a_statement);
  ("var_decl", a_var_decl); ("arglist", an_arglist);
  ("expression", an_expression); ("atom", an_expression);
  ("expression_list", an_expression_list); ("expression_sublist", an_expression_list)
].

Definition class_of_symbol (k : string) : node_class :=
  match Rply.assoc_get k symbol_classes with
  | Some c => c
  | None => a_token
  end.

(** The value [n] is one that the symbol [k] stands for: a token of the
    kind [k], or a node of the class of [k]. *)
Definition fits (n : Ast.node) (k : string) : bool :=
  match n, class_of_symbol k with
  | Ast.Tok t, a_token => String.eqb (name t) k
  | Ast.Program _, a_program => true
  | Ast.Element _, an_element => true
  | Ast.FunctionBody _, a_function_body => true
  | Ast.Stmt _, a_statement => true
  | Ast.VarDeclPartial _, a_var_decl => true
  | Ast.ArgList _, an_arglist => true
  | Ast.Expr _, an_expression => true
  | Ast.ExpressionListPartial _, an_expression_list => true
  | _, _ => false
  end.

(** The state that follows the state [p] over the token kind [k], and
    over the symbol [k] of a production. *)
Definition shift_target (p : nat) (k : string) : option nat :=
  match Rply.assoc_get k (nth p (Rply.lr_action the_table) []) with
  | Some t => if (0 <? t)%Z then Some (Z.to_nat t) else None
  | None => None
  end.

Definition goto_target (p : nat) (k : string) : option nat :=
  Rply.assoc_get k (nth p (Rply.lr_goto the_table) []).

Definition n_states : nat := Eval vm_compute in List.length (Rply.lr_action the_table).

(** The states that the table leads to, each with the symbol over which
    it is entered. *)
Definition targets : list (nat * string) :=
  Eval vm_compute in
  flat_map (fun row =>
              flat_map (fun kt : string * Z =>
                          if (0 <? snd kt)%Z then [(Z.to_nat (snd kt), fst kt)] else [])
                       row)
           (Rply.lr_action the_table)
  ++ flat_map (fun row => map (fun kt : string * nat => (snd kt, fst kt)) row)
              (Rply.lr_goto the_table).

(** The symbol over which the state [s] is entered; the first state is
    entered over the end marker that the parser puts on its stack. *)
Definition accessing_symbols : list string :=
  Eval vm_compute in
  map (fun s => match find (fun tk : nat * string => Nat.eqb (fst tk) s) targets with
                | Some (_, k) => k
                | None => "$end"
                end)
      (seq 0 n_states).

Definition accessing (s : nat) : string := nth s accessing_symbols "$end".

(** The table leads from the state [p] to the state [s]. *)
Definition edge (p s : nat) : bool :=
  Nat.ltb p n_states && Nat.ltb s n_states
  && (match shift_target p (accessing s) with
      | Some t => Nat.eqb t s
      | None => false
      end
      || match goto_target p (accessing s) with
         | Some t => Nat.eqb t s
         | None => false
         end).

(** The states that lead to each state. *)
Definition predecessors : list (list nat) :=
  Eval vm_compute in
  map (fun s => filter (fun p => edge p s) (seq 0 n_states))
      (seq 0 n_states).

Definition preds (s : nat) : list nat := nth s predecessors [].

Definition is_program_class (c : node_class) : bool :=
  match c with a_program => true | _ => false end.

Definition is_token_class (c : node_class) : bool :=
  match c with a_token => true | _ => false end.

(** A rank of the states that every reduction lowers: a reduction of
    [k] symbols in a state of rank [r] leads to a state of a rank below
    [r + k - 1], or below [r - 1] when the production is empty. *)
Definition ranks : list nat := [
  4; 1; 2; 3; 4; 4; 4; 4; 4; 4; 4; 4; 4; 4; 4; 4; 4; 2; 4; 2; 2; 4; 4; 4; 4; 2;
  4; 4; 4; 3; 4; 4; 4; 4; 4; 4; 4; 4; 4; 4; 4; 4; 4; 4; 4; 4; 4; 4; 4; 4; 4; 4;
  4; 4; 4; 4; 4; 2; 3; 4; 2; 2; 2; 4; 2; 2; 2; 2; 2; 2; 2; 2; 2; 2; 2; 4; 0; 2;
  2; 2; 4; 4; 4; 4; 4; 2; 4; 4; 4; 4; 0; 4; 4; 4; 4; 2; 2; 4; 2; 3; 2; 2; 4; 4;
  4; 4; 0; 4; 4; 2; 4
].

Definition rank (s : nat) : nat := nth s ranks 0.

(** Every way back from the state [s] over the symbols [rhs_rev], the
    last of them first, ends in a state that goes on over [lhs], to a
    state of a rank below [limit]. *)
Fixpoint walk (rhs_rev : list string) (lhs : string) (limit : nat) (s : nat) : bool :=
  match rhs_rev with
  | [] =>
      match goto_target s lhs with
      | Some t =>
          Nat.ltb t n_states && String.eqb (accessing t) lhs
          && negb (is_token_class (class_of_symbol lhs))
          && Nat.ltb (rank t) limit
      | None => false
      end
  | k :: r =>
      negb (Nat.eqb s 0) && String.eqb (accessing s) k
      && forallb (walk r lhs limit) (preds s)
  end.

(** The production [i] can be reduced in the state [s]. *)
Definition reduce_ok (i s : nat) : bool :=
  match i with
  | 0 => false
  | S j =>
      match nth_error (Rply.productions the_table) i, nth_error rules j with
      | Some (lhs, plen), Some (lhs', rhs) =>
          String.eqb lhs lhs' && Nat.eqb plen (List.length rhs)
          && walk (rev rhs) lhs (rank s + List.length rhs - 1) s
      | _, _ => false
      end
  end.

(** What the row of the state [s] does is sound. *)
Definition state_ok (s : nat) : bool :=
  let d := nth s (Rply.default_reductions the_table) 0%Z in
  (if Z.eqb d 0 then true else (d <? 0)%Z && reduce_ok (Z.to_nat (- d)) s)
  && forallb (fun kt : string * Z =>
                if (0 <? snd kt)%Z then
                  negb (String.eqb (fst kt) "$end")
                  && Nat.ltb (Z.to_nat (snd kt)) n_states
                  && String.eqb (accessing (Z.to_nat (snd kt))) (fst kt)
                  && is_token_class (class_of_symbol (fst kt))
                else if (snd kt <? 0)%Z then reduce_ok (Z.to_nat (- snd kt)) s
                else is_program_class (class_of_symbol (accessing s)))
             (nth s (Rply.lr_action the_table) []).

Section Outcomes.

(** The tokens that the iterator gives, the exceptions that it raises, a
    property of the values that the actions keep, and the state object of
    the parser. *)
Variable given : Token -> Prop.
Variable raised : exn -> Prop.
Variable clean : Ast.node -> Prop.
Variable state : ParsingState.

(** A token that the parser reads: one of the iterator, or the end
    marker. *)
Definition read (t : Token) : Prop := given t \/ t = Rply.end_token.

Definition node_ok (n : Ast.node) (k : string) : Prop :=
  fits n k = true /\ clean n /\ match n with Ast.Tok t => read t | _ => True end.

(** The stacks of the parser follow the table: each state is entered
    from the state below it, over a symbol that the value beside it
    fits. *)
Inductive stacks : list Ast.node -> list nat -> Prop :=
| stacks_bottom (n : Ast.node) : node_ok n (accessing 0) -> stacks [n] [0]
| stacks_push (n : Ast.node) (s p : nat) (syms : list Ast.node) (sts : list nat) :
    stacks syms (p :: sts) -> edge p s = true -> node_ok n (accessing s) ->
    stacks (n :: syms) (s :: p :: sts).

(** What parsing comes to: a program; an exception of the iterator; what
    the error handler raises for a token that was read; or the failed
    assertion of [expression_string] on a STRING token without text. *)
Definition outcome (r : result Ast.node) : Prop :=
  match r with
  | Return n => (exists es, n = Ast.Program es) /\ clean n
  | Raise e =>
      raised e \/
      (exists la, read la /\ errorhandler state la = Raise e) \/
      (e = AssertionError /\
       exists t, given t /\ name t = "STRING" /\ value t = EmptyString)
  | OutOfFuel => False
  end.

End Outcomes.

(** The element is a class whose body holds classes only, to any depth;
    and the value holds no function. *)
Fixpoint class_only (e : Ast.element) : bool :=
  match e with
  | Ast.Function _ _ _ => false
  | Ast.ClassDefinition _ body _ => forallb class_only body
  end.

Definition function_free (n : Ast.node) : Prop :=
  match n with
  | Ast.Program es => forallb class_only es = true
  | Ast.Element e => class_only e = true
  | _ => True
  end.

(** A bound of the turns that the loop still takes: six for each token
    that is still to be shifted, and the rank of the state on top of the
    stack with the height of the stack below it. *)
Definition reading (la : option Token) (n : nat) : nat :=
  match la with
  | None => 6 * n
  | Some t => if String.eqb (name t) "$end" then 0 else 6 * n + 6
  end.

Definition height (sts : list nat) : nat :=
  match sts with
  | [] => 0
  | s :: rest => rank s + List.length rest
  end.

(** The stream of the lexer over the text, while it gives tokens and
    after it has ended. *)
Definition lexing (filename text : string) (self : Stream) : Prop :=
  reachable filename text self \/ String.length (s self) <= idx self.

(** The characters that the stream has not read. *)
Definition unread (self : Stream) : nat := String.length (s self) - idx self.

(** A token that the lexer gives for the text. *)
Definition lexed (filename text : string) (t : Token) : Prop :=
  exists (self self' : Stream) (skipped : list SourceRange),
    reachable filename text self /\ next self = (skipped, (self', Return t)).

(** *** Tokens without their positions *)

(** The token without its position, and the value of a symbol without
    the position of its token. *)
Definition erase (t : Token) : Token :=
  {| name := name t; value := value t; source_pos := None |}.

Definition erase_node (n : Ast.node) : Ast.node :=
  match n with
  | Ast.Tok t => Ast.Tok (erase t)
  | _ => n
  end.

(** The outcome [r'] is the outcome [r] but for the positions: the same
    value, or an exception where [r] is one. *)
Definition alike (r r' : result Ast.node) : Prop :=
  match r with
  | Return n => r' = Return (erase_node n)
  | Raise _ => exists e', r' = Raise e'
  | OutOfFuel => r' = OutOfFuel
  end.

End ParserSpec.

(** * Properties *)

(** ** Byte strings *)

Module PyFacts.

Import Py.

Lemma length_drop (n : nat) (s : string) :
  String.length (drop n s) = String.length s - n.
Proof.
  revert s; induction n as [|n IH]; intros [|c s]; simpl; auto.
Qed.

Lemma take_drop (n : nat) (s : string) : take n s ++ drop n s = s.
Proof.
  revert s; induction n as [|n IH]; intros [|c s]; simpl; auto.
  now rewrite IH.
Qed.

Lemma drop_drop (n m : nat) (s : string) : drop m (drop n s) = drop (n + m) s.
Proof.
  revert s; induction n as [|n IH]; intros s; simpl; auto.
  destruct s as [|c s]; simpl; auto.
  now destruct m.
Qed.

Lemma take_all (n : nat) (s : string) : String.length s <= n -> take n s = s.
Proof.
  revert s; induction n as [|n IH]; intros [|c s]; simpl; intros H; auto.
  - lia.
  - rewrite IH; auto; lia.
Qed.

Lemma drop_all (n : nat) (s : string) : String.length s <= n -> drop n s = EmptyString.
Proof.
  revert s; induction n as [|n IH]; intros [|c s]; simpl; intros H; auto.
  - lia.
  - apply IH; lia.
Qed.

Lemma take_add (m k : nat) (s : string) :
  take m s ++ take k (drop m s) = take (m + k) s.
Proof.
  revert s; induction m as [|m IH]; intros s; simpl.
  - now destruct s.
  - destruct s as [|c s]; simpl.
    + now destruct k.
    + now rewrite IH.
Qed.

Lemma slice_empty (s : string) (a : nat) : slice s a a = EmptyString.
Proof.
  unfold slice; rewrite Nat.sub_diag; now destruct (drop a s).
Qed.

Lemma slice_app (s : string) (a b c : nat) :
  a <= b -> b <= c -> slice s a b ++ slice s b c = slice s a c.
Proof.
  intros Hab Hbc; unfold slice.
  replace (drop b s) with (drop (b - a) (drop a s))
    by (rewrite drop_drop; f_equal; lia).
  rewrite take_add; f_equal; lia.
Qed.

Lemma slice_to_end (s : string) (a b : nat) :
  String.length s <= b -> slice s a b = drop a s.
Proof.
  intros H; unfold slice; apply take_all; rewrite length_drop; lia.
Qed.

Lemma length_take (n : nat) (s : string) :
  String.length (take n s) = Nat.min n (String.length s).
Proof.
  revert s; induction n as [|n IH]; intros [|c s]; simpl; auto.
Qed.

Lemma drop_cons (n : nat) (s : string) (c : ascii) (r : string) :
  drop n s = String.String c r -> drop (S n) s = r /\ n < String.length s.
Proof.
  revert s; induction n as [|n IH]; intros s H; simpl in *.
  - subst; simpl; split; auto; lia.
  - destruct s as [|x s]; [discriminate|].
    destruct (IH _ H) as [H1 H2]; split; [exact H1 | simpl; lia].
Qed.

Lemma drop_nil (n : nat) (s : string) :
  drop n s = EmptyString -> String.length s <= n.
Proof.
  revert s; induction n as [|n IH]; intros s H; simpl in *.
  - subst; simpl; lia.
  - destruct s as [|x s]; simpl; [lia|]. apply IH in H; lia.
Qed.

Lemma count_char_app (c : ascii) (s t : string) :
  count_char c (s ++ t) = count_char c s + count_char c t.
Proof.
  induction s as [|x s IH]; simpl; auto. rewrite IH; lia.
Qed.

Lemma count_adjacent (c : ascii) (s : string) (a b : nat) :
  a <= b -> count c s 0 a + count c s a b = count c s 0 b.
Proof.
  intros H; unfold count. rewrite <- count_char_app, slice_app; auto; lia.
Qed.

End PyFacts.

(** ** The regular expressions *)

Module ReFacts.

Import Py Re ReSpec.

Lemma many_bounded (c : ascii -> bool) (k : string -> option nat) :
  bounded k -> bounded (many c k).
Proof.
  intros Hk s; induction s as [|a s IH]; simpl; intros n H.
  - now apply Hk in H.
  - destruct (c a).
    + destruct (many c k s) as [m|] eqn:E.
      * inversion H; subst. specialize (IH _ eq_refl). lia.
      * now apply Hk in H.
    + now apply Hk in H.
Qed.

Lemma exactly_bounded (c : ascii -> bool) (m : nat) (k : string -> option nat) :
  bounded k -> bounded (exactly c m k).
Proof.
  intros Hk; induction m as [|m IH]; intros s n H; simpl in H.
  - now apply Hk.
  - destruct s as [|a s]; [discriminate|].
    destruct (c a); [|discriminate].
    destruct (exactly c m k s) as [j|] eqn:E; [|discriminate].
    inversion H; subst. apply IH in E. simpl; lia.
Qed.

Lemma rmatch_bounded (r : regex) : bounded (rmatch r).
Proof.
  induction r as [|a r IH]; intros s n H; simpl in H.
  - inversion H; lia.
  - destruct (rep a).
    + now apply (exactly_bounded (cls a) 1 _ IH) in H.
    + destruct s as [|x s]; [discriminate|].
      destruct (cls a x); [|discriminate].
      destruct (many (cls a) (rmatch r) s) as [j|] eqn:E; [|discriminate].
      inversion H; subst. apply (many_bounded _ _ IH) in E. simpl; lia.
    + now apply (many_bounded _ _ IH) in H.
    + now apply (exactly_bounded (cls a) n0 _ IH) in H.
Qed.

(** A match starts where it is asked to and ends inside the text. *)
Lemma matches_range (r : regex) (s : string) (pos e : nat) :
  matches r s pos = Some e -> pos <= e /\ e <= pos + (String.length s - pos).
Proof.
  unfold matches; intros H.
  destruct (rmatch r (drop pos s)) as [n|] eqn:E; [|discriminate].
  inversion H; subst. apply rmatch_bounded in E.
  rewrite PyFacts.length_drop in E. lia.
Qed.

Lemma rmatch_positive (r : regex) (s : string) (n : nat) :
  consumes r = true -> rmatch r s = Some n -> 1 <= n.
Proof.
  destruct r as [|a r]; [discriminate|]. unfold consumes; simpl.
  destruct (rep a) as [| | |m]; try discriminate.
  - intros _. destruct s as [|x s]; [discriminate|]. destruct (cls a x); [|discriminate].
    destruct (rmatch r s); simpl; intros H; inversion H; lia.
  - intros _. destruct s as [|x s]; [discriminate|]. destruct (cls a x); [|discriminate].
    destruct (many (cls a) (rmatch r) s); simpl; intros H; inversion H; lia.
  - destruct m as [|m]; [discriminate|]. intros _; simpl.
    destruct s as [|x s]; [discriminate|]. destruct (cls a x); [|discriminate].
    destruct (exactly (cls a) m (rmatch r) s); simpl; intros H; inversion H; lia.
Qed.

End ReFacts.

(** ** The lexer *)

Module LexerFacts.

Import Py Re Lexer LexerSpec.

Lemma chain_le (rs : list SourceRange) (a b : nat) : chain a rs b -> a <= b.
Proof.
  revert a; induction rs as [|r rs IH]; simpl; intros a H.
  - lia.
  - destruct H as (H1 & H2 & H3). apply IH in H3. lia.
Qed.

Lemma chain_app (rs1 rs2 : list SourceRange) (a b c : nat) :
  chain a rs1 b -> chain b rs2 c -> chain a (rs1 ++ rs2) c.
Proof.
  revert a; induction rs1 as [|r rs IH]; simpl; intros a H1 H2.
  - now subst.
  - destruct H1 as (? & ? & ?); repeat split; auto.
Qed.

Lemma chain_text (s : string) (rs : list SourceRange) (a b : nat) :
  chain a rs b -> String.concat EmptyString (map (text s) rs) = slice s a b.
Proof.
  revert a; induction rs as [|r rs IH]; simpl; intros a H.
  - subst. now rewrite PyFacts.slice_empty.
  - destruct H as (H1 & H2 & H3).
    assert (Hle := chain_le _ _ _ H3).
    assert (E : String.concat EmptyString (text s r :: map (text s) rs)
                = text s r ++ String.concat EmptyString (map (text s) rs)).
    { destruct (map (text s) rs) eqn:Em; simpl.
      - clear; induction (text s r); simpl; congruence.
      - reflexivity. }
    change (String.concat EmptyString (text s r :: map (text s) rs) = slice s a b).
    rewrite E, (IH _ H3). unfold text. subst a.
    apply PyFacts.slice_app; auto.
Qed.

Lemma update_pos_lineno_ok (self : Stream) (e : nat) :
  idx self <= e -> lineno_ok self -> lineno_ok (snd (_update_pos self (idx self) e)).
Proof.
  unfold lineno_ok; simpl; intros Hle H.
  rewrite H, <- (PyFacts.count_adjacent newline (s self) (idx self) e Hle). lia.
Qed.

Lemma parse_error_not_stop (self : Stream) (msg : string) :
  parse_error self msg <> StopIteration.
Proof.
  unfold parse_error.
  destruct (getitem _ _); discriminate.
Qed.

Lemma decode_part_not_stop (t : Token) : decode_part t <> Raise StopIteration.
Proof.
  unfold decode_part, hex_to_utf8, Runicode.encode_code_point.
  repeat match goal with
         | |- context [if ?b then _ else _] => destruct b
         | |- context [match ?x with _ => _ end] => destruct x
         end; discriminate.
Qed.

Lemma lex_string_loop_not_stop (self : Stream) (fuel : nat) (sub : Stream)
    (parts : list string) (length : nat) :
  lex_string_loop self fuel sub parts length <> Raise StopIteration.
Proof.
  revert sub parts length; induction fuel as [|fuel IH]; intros sub parts length;
    cbn [lex_string_loop].
  - discriminate.
  - destruct (SRLexerStream_next get_string_lexer (S fuel) sub) as [sub' [t|e|]].
    + destruct (name t =? "CLOSING_QUOTE"); [discriminate|].
      pose proof (decode_part_not_stop t) as Hd.
      destruct (decode_part t) as [part|e|].
      * apply IH.
      * intros E; apply Hd; inversion E; reflexivity.
      * discriminate.
    + pose proof (parse_error_not_stop self "unterminated string").
      destruct e; try discriminate; congruence.
    + discriminate.
Qed.

Lemma first_match_range (rs : list rule) (s : string) (pos : nat) (n : string) (e : nat) :
  first_match rs s pos = Some (n, e) ->
  pos <= e /\ e <= pos + (String.length s - pos).
Proof.
  induction rs as [|[n' r] rs IH]; simpl; [discriminate|].
  destruct (matches r s pos) eqn:M.
  - intros H; inversion H; subst. now apply ReFacts.matches_range in M.
  - apply IH.
Qed.

Lemma first_match_in (rs : list rule) (s : string) (pos : nat) (n : string) (e : nat) :
  first_match rs s pos = Some (n, e) ->
  exists r, In (n, r) rs /\ matches r s pos = Some e.
Proof.
  induction rs as [|[n' r] rs IH]; simpl; [discriminate|].
  destruct (matches r s pos) eqn:M.
  - intros H; inversion H; subst. exists r; auto.
  - intros H; destruct (IH H) as (r' & ? & ?). exists r'; auto.
Qed.

Lemma slice_length (s : string) (a b : nat) :
  a <= b -> b <= String.length s -> String.length (slice s a b) = b - a.
Proof.
  intros; unfold slice. rewrite PyFacts.length_take, PyFacts.length_drop. lia.
Qed.

Lemma get_drop (i : nat) (s : string) (c : ascii) (r : string) :
  drop i s = String.String c r -> String.get i s = Some c.
Proof.
  revert s; induction i as [|i IH]; intros [|x s] H; simpl in *; try discriminate.
  - now inversion H.
  - now apply IH.
Qed.

(** A pattern that starts with the character [c] matches only text that
    starts with [c]. *)
Lemma matches_chr (c : ascii) (r : regex) (s : string) (pos e : nat) :
  matches (chr c :: r) s pos = Some e -> String.get pos s = Some c.
Proof.
  unfold matches; simpl. destruct (drop pos s) as [|x rest] eqn:D; [discriminate|].
  destruct (Ascii.eqb c x) eqn:E; [|discriminate].
  apply Ascii.eqb_eq in E; subst. intros _. eapply get_drop; eauto.
Qed.

Lemma matches_one_chr (c : ascii) (s : string) (pos e : nat) :
  matches [chr c] s pos = Some e -> e = pos + 1.
Proof.
  unfold matches; simpl. destruct (drop pos s) as [|x rest]; [discriminate|].
  destruct (Ascii.eqb c x); [|discriminate].
  simpl. intros H; now inversion H.
Qed.

(** The string lexer has no ignore rules, so its [next] is one pass over
    [STRING_RULES]. *)
Lemma string_next (fuel : nat) (sub : Stream) :
  SRLexerStream_next get_string_lexer (S fuel) sub =
  if Nat.leb (String.length (s sub)) (idx sub) then (sub, Raise StopIteration)
  else
    match first_match STRING_RULES (s sub) (idx sub) with
    | Some (n, e) =>
        (snd (_update_pos sub (idx sub) e),
         Return {| name := n; value := slice (s sub) (idx sub) e;
                   source_pos := Some (fst (_update_pos sub (idx sub) e)) |})
    | None => (sub, Raise (parse_error sub "unrecognized token"))
    end.
Proof.
  cbn [SRLexerStream_next get_string_lexer ignore_rules rules first_match].
  destruct (Nat.leb _ _); [reflexivity|].
  destruct (first_match STRING_RULES (s sub) (idx sub)) as [[n e]|]; reflexivity.
Qed.

Lemma closing_quote_match (s : string) (i e : nat) :
  first_match STRING_RULES s i = Some ("CLOSING_QUOTE", e) ->
  e = i + 1 /\ String.get i s = Some dquote.
Proof.
  intros H. apply first_match_in in H. destruct H as (r & Hin & M).
  simpl in Hin.
  repeat (destruct Hin as [Hin|Hin]; [inversion Hin; subst|]); try contradiction.
  split; [eapply matches_one_chr | eapply matches_chr]; eauto.
Qed.

(** When the loop of [lex_string] ends at a closing quote, the length it
    has counted reaches from the opening quote to just past the closing
    one. *)
Lemma lex_string_loop_end (self : Stream) (fuel : nat) (sub : Stream)
    (parts : list string) (len0 : nat) (parts' : list string) (len' : nat) :
  s sub = s self ->
  idx sub <= String.length (s self) ->
  idx self + len0 = idx sub ->
  lex_string_loop self fuel sub parts len0 = Return (parts', len') ->
  idx self + len' <= String.length (s self) /\
  exists q, idx self + len' = S q /\ idx self + len0 <= q /\
            String.get q (s self) = Some dquote.
Proof.
  revert sub parts len0; induction fuel as [|fuel IH]; intros sub parts len0 Hs Hb Hl;
    cbn [lex_string_loop]; [discriminate|].
  rewrite string_next.
  destruct (Nat.leb _ _).
  { intros H; exfalso. revert H.
    pose proof (parse_error_not_stop self "unterminated string").
    destruct (parse_error self "unterminated string"); discriminate. }
  destruct (first_match STRING_RULES (s sub) (idx sub)) as [[n e]|] eqn:F.
  - cbn [name value _update_pos snd fst].
    destruct (first_match_range _ _ _ _ _ F) as [F1 F2].
    rewrite Hs in *.
    assert (He : e <= String.length (s self)) by lia.
    rewrite (slice_length _ _ _ F1 He).
    destruct (n =? "CLOSING_QUOTE") eqn:En.
    + apply String.eqb_eq in En; subst n.
      apply closing_quote_match in F. destruct F as [F3 F4].
      intros H; inversion H; subst. split; [lia|].
      exists (idx sub); repeat split; [lia | lia | exact F4].
    + destruct (decode_part _) as [part|ex|]; try discriminate.
      intros H. apply IH in H; simpl; auto; try lia.
      destruct H as (H1 & q & H2 & H3 & H4). split; auto.
      exists q; repeat split; auto; lia.
  - pose proof (parse_error_not_stop sub "unrecognized token").
    destruct (parse_error sub "unrecognized token"); discriminate.
Qed.

Lemma lex_string_advances (self : Stream) :
  idx self < String.length (s self) -> advances self ([], lex_string self).
Proof.
  intros Hlt. unfold advances, lex_string.
  pose proof (lex_string_loop_not_stop self (enough self)
                (SRLexerStream (_filename self) (s self) (idx self + 1) (_lineno self))
                [] 1) as Hn.
  pose proof (lex_string_loop_end self (enough self)
                (SRLexerStream (_filename self) (s self) (idx self + 1) (_lineno self))
                [] 1) as He.
  destruct (lex_string_loop _ _ _ _ _) as [[parts length]|e|]; simpl.
  - destruct (Runicode.str_decode_utf_8 _) as [u|e|] eqn:E; simpl; auto.
    + destruct (He parts length) as [Hb _]; simpl; auto; try lia.
      split; auto. eexists; split; [reflexivity|]. simpl.
      repeat split; auto; try lia.
      apply (update_pos_lineno_ok self (idx self + length)); lia.
    + split; auto. unfold Runicode.str_decode_utf_8 in E.
      destruct (Runicode.well_formed _); inversion E; subst; auto.
  - split; auto. destruct e; auto; congruence.
  - auto.
Qed.

Lemma next_rule_advances (self : Stream) :
  idx self < String.length (s self) -> advances self ([], next_rule self).
Proof.
  intros Hlt. unfold next_rule.
  destruct (first_match (rules get_lexer) (s self) (idx self)) as [[rule_name e]|] eqn:E.
  - destruct (rule_name =? "STRING").
    + pose proof (lex_string_advances self Hlt) as H. unfold advances in *; simpl in *.
      destruct (lex_string self) as [self' [t|e'|]]; simpl in *; auto.
    + destruct (first_match_range _ _ _ _ _ E) as [E1 E2].
      unfold advances; simpl. split; auto.
      eexists; split; [reflexivity|]. simpl. repeat split; auto; try lia.
      apply (update_pos_lineno_ok self e); lia.
  - unfold advances; simpl. split; auto.
    pose proof (parse_error_not_stop self "unrecognized token").
    destruct (parse_error self "unrecognized token"); auto; congruence.
Qed.

Lemma next_fuel_advances (fuel : nat) (self : Stream) :
  advances self (next_fuel fuel self).
Proof.
  revert self; induction fuel as [|fuel IH]; intros self.
  - unfold advances; simpl; auto.
  - cbn [next_fuel].
    destruct (Nat.leb (String.length (s self)) (idx self)) eqn:L.
    + unfold advances; simpl. apply Nat.leb_le in L. auto.
    + apply Nat.leb_gt in L.
      cbn [ignore_rules get_lexer whitespace snd].
      destruct (matches _ (s self) (idx self)) as [e|] eqn:M.
      * apply ReFacts.matches_range in M. destruct M as [M1 M2].
        cbn [_update_pos].
        assert (Hskip :
          forall out, advances (set_idx_lineno self e
                                 (_lineno self + count newline (s self) (idx self) e)) out ->
                 advances self
                   ({| start := idx self; end_ := e; lineno := _lineno self;
                       colno := match rfind newline (s self) (idx self) with
                                | Some last_nl => idx self - last_nl
                                | None => idx self + 1
                                end |} :: fst out, snd out)).
        { intros [sk [self' r]] [H1 H2]; unfold advances in *; simpl in *.
          split; auto.
          destruct r as [t|ex|]; auto.
          - destruct H2 as (rg & Hr & Hc & Hb & Hn). exists rg; repeat split; auto.
            + intros; apply Hb; lia.
            + intros Hok; apply Hn.
              apply (update_pos_lineno_ok self e); auto.
          - destruct ex; auto. destruct H2 as (? & ? & Hb); repeat split; auto.
            intros; apply Hb; lia. }
        destruct (contains newline _).
        -- cbn [_last_token set_idx_lineno].
           destruct (_last_token self) as [last|].
           ++ destruct (negb (terminator_eligible (name last))).
              ** specialize (Hskip _ (IH (set_idx_lineno self e
                     (_lineno self + count newline (s self) (idx self) e)))).
                 destruct (next_fuel fuel _) as [sk r]; exact Hskip.
              ** unfold advances; simpl. split; auto.
                 eexists; split; [reflexivity|]. simpl; repeat split; auto; try lia.
                 apply (update_pos_lineno_ok self e); lia.
           ++ unfold advances; simpl; auto.
        -- specialize (Hskip _ (IH (set_idx_lineno self e
                     (_lineno self + count newline (s self) (idx self) e)))).
           destruct (next_fuel fuel _) as [sk r]; exact Hskip.
      * apply next_rule_advances; auto.
Qed.

Lemma drain_advances (fuel : nat) (self : Stream) (evs : list event) :
  idx self <= String.length (s self) ->
  drain fuel self = (evs, Return tt) ->
  exists rs, map event_range evs = map Some rs /\
             chain (idx self) rs (String.length (s self)).
Proof.
  revert self evs; induction fuel as [|fuel IH]; intros self evs Hb; cbn [drain].
  - discriminate.
  - unfold next. pose proof (next_fuel_advances (enough self) self) as Ha.
    destruct (next_fuel (enough self) self) as [sk [self' r]].
    unfold advances in Ha; simpl in Ha. destruct Ha as [Hs Ha].
    destruct r as [t|ex|].
    + destruct Ha as (rg & Hrg & Hc & Hb' & _).
      destruct (drain fuel self') as [evs' r'] eqn:D.
      intros H; inversion H; subst.
      destruct (IH self' evs') as (rs & Hm & Hch); auto.
      { rewrite Hs; auto. }
      exists (sk ++ rg :: rs)%list. split.
      * rewrite !map_app, map_map; simpl. rewrite Hrg, Hm. reflexivity.
      * rewrite Hs in Hch.
        replace (sk ++ rg :: rs)%list with ((sk ++ [rg]) ++ rs)%list
          by (rewrite <- app_assoc; reflexivity).
        eapply chain_app; eauto.
    + destruct ex; try discriminate.
      destruct Ha as (Hc & Hl & Hb'). intros H; inversion H; subst.
      exists sk; split.
      * rewrite map_map; reflexivity.
      * specialize (Hb' Hb).
        replace (String.length (s self)) with (idx self') by lia. exact Hc.
    + discriminate.
Qed.

(** *** What a token covers *)

Lemma keyword_kind (val : string) :
  KEYWORD_DICT val = true -> (upper val =? "STRING") = false.
Proof.
  unfold KEYWORD_DICT. rewrite existsb_exists. intros (k & Hin & E).
  apply String.eqb_eq in E; subst k.
  simpl in Hin.
  repeat (destruct Hin as [Hin|Hin]; [subst val; reflexivity|]).
  contradiction.
Qed.

Lemma string_rule_match (s : string) (pos e : nat) :
  first_match RULES s pos = Some ("STRING", e) -> String.get pos s = Some dquote.
Proof.
  intros H. apply first_match_in in H. destruct H as (r & Hin & M).
  simpl in Hin.
  repeat (destruct Hin as [Hin|Hin]; [inversion Hin; subst|]); try contradiction.
  eapply matches_chr; eauto.
Qed.

Lemma next_rule_covers (self self' : Stream) (t : Token) :
  idx self < String.length (s self) ->
  next_rule self = (self', Return t) -> covers (s self) t.
Proof.
  intros Hlt. unfold next_rule.
  destruct (first_match (rules get_lexer) (s self) (idx self)) as [[rule_name e]|] eqn:E;
    [|discriminate].
  destruct (rule_name =? "STRING") eqn:En.
  - apply String.eqb_eq in En; subst rule_name.
    apply string_rule_match in E.
    unfold lex_string.
    pose proof (lex_string_loop_end self (enough self)
                  (SRLexerStream (_filename self) (s self) (idx self + 1) (_lineno self))
                  [] 1) as He.
    destruct (lex_string_loop _ _ _ _ _) as [[parts length]|ex|]; try discriminate.
    destruct (Runicode.str_decode_utf_8 _); try discriminate.
    cbn [_update_pos]. intros H; inversion H; subst.
    destruct (He parts length) as (_ & q & H1 & H2 & H3); simpl; auto; try lia.
    unfold covers; simpl. split; auto.
    exists q; repeat split; auto; lia.
  - cbn [_update_pos]. intros H; inversion H; subst.
    unfold covers; cbn [source_pos name value start end_].
    destruct (KEYWORD_DICT _) eqn:K.
    + rewrite (keyword_kind _ K). reflexivity.
    + rewrite En. reflexivity.
Qed.

Lemma next_fuel_covers (fuel : nat) :
  forall (self self' : Stream) (sk : list SourceRange) (t : Token),
    next_fuel fuel self = (sk, (self', Return t)) -> covers (s self) t.
Proof.
  induction fuel as [|fuel IH]; intros self self' sk t; cbn [next_fuel]; [discriminate|].
  destruct (Nat.leb (String.length (s self)) (idx self)) eqn:L; [discriminate|].
  apply Nat.leb_gt in L.
  cbn [ignore_rules get_lexer whitespace snd].
  destruct (matches _ (s self) (idx self)) as [e|].
  - cbn [_update_pos].
    pose proof (IH (set_idx_lineno self e
                      (_lineno self + count newline (s self) (idx self) e))) as IH'.
    destruct (contains newline _).
    + cbn [_last_token set_idx_lineno]. destruct (_last_token self) as [last|];
        [|discriminate].
      destruct (negb _).
      * destruct (next_fuel fuel _) as [sk' [self1 r]].
        intros H; inversion H; subst. eapply IH'; eauto.
      * intros H; inversion H; subst. reflexivity.
    + destruct (next_fuel fuel _) as [sk' [self1 r]].
      intros H; inversion H; subst. eapply IH'; eauto.
  - intros H; inversion H; subst. eapply next_rule_covers; eauto.
Qed.

Lemma drain_covers (fuel : nat) :
  forall (self : Stream) (evs : list event) (r : result unit),
    drain fuel self = (evs, r) -> Forall (covers (s self)) (emitted evs).
Proof.
  induction fuel as [|fuel IH]; intros self evs r; cbn [drain].
  - intros H; inversion H; constructor.
  - unfold next.
    pose proof (next_fuel_advances (enough self) self) as Ha.
    pose proof (next_fuel_covers (enough self) self) as Hc.
    destruct (next_fuel (enough self) self) as [sk [self' [t|ex|]]].
    + destruct Ha as [Hs _]. simpl in Hs.
      destruct (drain fuel self') as [evs' r'] eqn:D.
      intros H; inversion H; subst.
      assert (E : emitted (map Skipped sk ++ Emitted t :: evs') = t :: emitted evs').
      { clear. induction sk; simpl; auto. }
      rewrite E. constructor; [eapply Hc; eauto|].
      rewrite <- Hs. eapply IH; eauto.
    + assert (E : emitted (map Skipped sk) = []) by (clear; induction sk; simpl; auto).
      destruct ex; intros H; inversion H; subst; rewrite E; constructor.
    + assert (E : emitted (map Skipped sk) = []) by (clear; induction sk; simpl; auto).
      intros H; inversion H; subst; rewrite E; constructor.
Qed.

Lemma chain_sorted (rs : list SourceRange) (a b : nat) :
  chain a rs b ->
  StronglySorted (fun r1 r2 => end_ r1 <= start r2) rs /\
  Forall (fun r => a <= start r /\ start r <= end_ r /\ end_ r <= b) rs.
Proof.
  revert a; induction rs as [|r rs IH]; simpl; intros a H.
  - split; constructor.
  - destruct H as (H1 & H2 & H3).
    assert (Hle := chain_le _ _ _ H3).
    destruct (IH _ H3) as [S1 F1]. split.
    + constructor; auto.
      eapply Forall_impl; [|exact F1]. simpl; intros; lia.
    + constructor; [lia|].
      eapply Forall_impl; [|exact F1]. simpl; intros; lia.
Qed.

Lemma token_ranges_in (evs : list event) (rs : list SourceRange) (x : SourceRange) :
  map event_range evs = map Some rs -> In x (token_ranges evs) -> In x rs.
Proof.
  revert rs; induction evs as [|ev evs IH]; intros [|r rs] H; simpl in *;
    try discriminate; auto.
  inversion H as [[H1 H2]]. destruct ev as [t|r']; simpl in *.
  - rewrite H1. intros [Hx|Hx]; [inversion H1; subst; auto | right; eauto].
  - right; eauto.
Qed.

Lemma token_ranges_sorted (R : SourceRange -> SourceRange -> Prop)
    (evs : list event) (rs : list SourceRange) :
  map event_range evs = map Some rs ->
  StronglySorted R rs -> StronglySorted R (token_ranges evs).
Proof.
  revert rs; induction evs as [|ev evs IH]; intros [|r rs] H S; simpl in *;
    try discriminate; try constructor.
  inversion H as [[H1 H2]]. inversion S as [|? ? S' F]; subst.
  destruct ev as [t|r']; simpl in *; eauto.
  rewrite H1. constructor; eauto.
  apply Forall_forall; intros x Hx.
  eapply Forall_forall in F; eauto. eapply token_ranges_in; eauto.
Qed.

Lemma token_ranges_all (evs : list event) (rs : list SourceRange) :
  map event_range evs = map Some rs ->
  map source_pos (emitted evs) = map Some (token_ranges evs).
Proof.
  revert rs; induction evs as [|ev evs IH]; intros [|r rs] H; simpl in *;
    try discriminate; auto.
  inversion H as [[H1 H2]]. destruct ev as [t|r']; simpl in *; eauto.
  rewrite H1; simpl. f_equal; eauto.
Qed.

Lemma many_total (c : ascii -> bool) (s : string) :
  many c (fun _ => Some 0) s <> None.
Proof.
  induction s as [|a s IH]; simpl; [discriminate|].
  destruct (c a); [|discriminate].
  destruct (many c (fun _ => Some 0) s); [discriminate | contradiction].
Qed.

(** After a match of [\s+] no whitespace is left at its end. *)
Lemma many_maximal (c : ascii -> bool) (s : string) (n : nat) :
  many c (fun _ => Some 0) s = Some n ->
  match drop n s with
  | EmptyString => True
  | String.String y _ => c y = false
  end.
Proof.
  revert n; induction s as [|a s IH]; simpl; intros n H.
  - inversion H; subst; simpl; auto.
  - destruct (c a) eqn:Ca.
    + destruct (many c (fun _ => Some 0) s) as [m|] eqn:E.
      * inversion H; subst; simpl. now apply IH.
      * now apply many_total in E.
    + inversion H; subst; simpl; auto.
Qed.

Lemma whitespace_maximal (s : string) (pos e : nat) :
  matches (snd whitespace) s pos = Some e ->
  String.length s <= e \/ matches (snd whitespace) s e = None.
Proof.
  unfold matches, whitespace; cbn [snd rmatch rep cls].
  destruct (drop pos s) as [|x rest] eqn:D; [discriminate|].
  destruct (space x); [|discriminate].
  change (rmatch []) with (fun _ : string => Some 0).
  destruct (many space (fun _ => Some 0) rest) as [m|] eqn:M; [|discriminate].
  simpl. intros H; inversion H; subst.
  apply many_maximal in M.
  destruct (PyFacts.drop_cons _ _ _ _ D) as [D1 _].
  assert (D2 : drop (pos + S m) s = drop m rest).
  { replace (pos + S m) with (S pos + m) by lia.
    rewrite <- PyFacts.drop_drop, D1. reflexivity. }
  rewrite D2. destruct (drop m rest) as [|y r'] eqn:D3.
  - left. apply PyFacts.drop_nil. exact D2.
  - right. rewrite M. reflexivity.
Qed.

(** *** The rules seen from the text at the offset *)

Lemma first_match_drop (rs : list rule) (s : string) (pos : nat) :
  first_match rs s pos =
  option_map (fun nk : string * nat => (fst nk, pos + snd nk)) (first_len rs (drop pos s)).
Proof.
  induction rs as [|[n r] rs IH]; simpl; auto.
  unfold matches. destruct (rmatch r (drop pos s)); simpl; auto.
Qed.

Lemma contains_false (c : ascii) (x : ascii) (s : string) :
  contains c (String.String x s) = false ->
  Ascii.eqb x c = false /\ contains c s = false.
Proof. simpl; intros H; now apply orb_false_elim in H. Qed.

(** An ordinary character of a literal is a [CHAR] token. *)
Lemma first_len_char (c : ascii) (r : string) :
  c <> dquote -> c <> backslash ->
  first_len STRING_RULES (String.String c r) = Some ("CHAR", 1).
Proof.
  intros Hq Hb.
  assert (Eq : Ascii.eqb dquote c = false) by (apply Ascii.eqb_neq; congruence).
  assert (Eb : Ascii.eqb backslash c = false) by (apply Ascii.eqb_neq; congruence).
  cbn [first_len STRING_RULES rmatch rep cls chr exactly].
  unfold none_of; cbn [contains]. rewrite !Eb, !Eq. reflexivity.
Qed.

(** A backslash and a character that the class of [ESC_UNRECOGNISED]
    admits are an [ESC_UNRECOGNISED] token, which decodes to itself. *)
Lemma first_len_unrecognised (c : ascii) (r : string) :
  none_of (String.String dquote (String.String backslash "abfnrtv0xu")) c = true ->
  first_len STRING_RULES (String.String backslash (String.String c r))
  = Some ("ESC_UNRECOGNISED", 2).
Proof.
  intros H0. assert (H := H0). unfold none_of in H. apply negb_true_iff in H.
  repeat (apply contains_false in H; let E := fresh "E" in destruct H as [E H]).
  cbn [first_len STRING_RULES rmatch rep cls chr exactly].
  unfold one_of; cbn [contains].
  rewrite (Ascii.eqb_refl backslash), H0.
  repeat match goal with
         | E : Ascii.eqb _ c = false |- _ => rewrite E; clear E
         end.
  reflexivity.
Qed.

(** A backslash and a character other than [x] and [u] are one
    two-character token that decodes. *)
Lemma first_len_escape (c : ascii) (r : string) :
  c <> "x"%char -> c <> "u"%char ->
  exists n part,
    first_len STRING_RULES (String.String backslash (String.String c r)) = Some (n, 2) /\
    (n =? "CLOSING_QUOTE") = false /\
    forall rg, decode_part (token_of n (two c) rg) = Return part.
Proof.
  intros Hx Hu.
  assert (Ex : Ascii.eqb "x" c = false) by (apply Ascii.eqb_neq; congruence).
  assert (Eu : Ascii.eqb "u" c = false) by (apply Ascii.eqb_neq; congruence).
  cbn [first_len STRING_RULES rmatch rep cls chr exactly].
  rewrite (Ascii.eqb_refl backslash). cbn [option_map].
  destruct (Ascii.eqb dquote c) eqn:Eq.
  { do 2 eexists; split; [reflexivity|]; split; reflexivity. }
  destruct (Ascii.eqb backslash c) eqn:Eb.
  { do 2 eexists; split; [reflexivity|]; split; reflexivity. }
  destruct (one_of "abfnrtv0" c) eqn:Es.
  { assert (Hs : exists d, simple_escape c = Some d).
    { unfold one_of in Es; cbn [contains] in Es. unfold simple_escape.
      repeat match goal with
             | |- context [if Ascii.eqb c ?a then _ else _] =>
                 let E := fresh "E" in
                 destruct (Ascii.eqb c a) eqn:E;
                 [eexists; reflexivity
                 | rewrite (Ascii.eqb_sym a c), E in Es; cbn [orb] in Es]
             end.
      discriminate. }
    destruct Hs as [d Hd].
    do 2 eexists; split; [reflexivity|]; split; [reflexivity|].
    intros rg. unfold decode_part, token_of, two. cbn [name value].
    change ("ESC_SIMPLE" =? "ESC_QUOTE") with false.
    change ("ESC_SIMPLE" =? "ESC_ESC") with false.
    change ("ESC_SIMPLE" =? "ESC_SIMPLE") with true.
    cbn [String.get]. rewrite Hd. reflexivity. }
  rewrite Ex, Eu.
  assert (En : none_of (String.String dquote (String.String backslash "abfnrtv0xu")) c = true).
  { unfold none_of, one_of in *. cbn [contains] in *. rewrite Eq, Eb. cbn [orb].
    repeat (apply orb_false_elim in Es; let E := fresh "E" in destruct Es as [E Es];
            rewrite E; cbn [orb]).
    rewrite Ex, Eu. reflexivity. }
  rewrite En.
  exists "ESC_UNRECOGNISED", (two c); split; [reflexivity|]; split; reflexivity.
Qed.

(** *** The lines of the text *)

Lemma splitlines_from_cur (cur s : string) :
  cur <> EmptyString -> 0 < List.length (splitlines_from cur s).
Proof.
  revert cur; induction s as [|c s IH]; intros cur H; simpl.
  - destruct cur; [contradiction | simpl; lia].
  - destruct (Ascii.eqb c newline); [simpl; lia|].
    destruct (Ascii.eqb c "013").
    + destruct s as [|c' s']; [simpl; lia|].
      destruct (Ascii.eqb c' newline); simpl; lia.
    + apply IH. destruct cur; discriminate.
Qed.

(** A text has more lines than it has newlines before any of its
    characters. *)
Lemma lines_enough (n : nat) :
  forall (s cur : string) (i : nat),
    String.length s <= n -> i < String.length s ->
    count_char newline (take i s) < List.length (splitlines_from cur s).
Proof.
  induction n as [|n IH]; intros s cur i Hn Hi.
  - destruct s; simpl in *; lia.
  - destruct s as [|c s]; [simpl in Hi; lia|].
    simpl in Hn, Hi.
    destruct i as [|i].
    + cbn [take count_char splitlines_from].
      destruct (Ascii.eqb c newline); [simpl; lia|].
      destruct (Ascii.eqb c "013").
      * destruct s as [|c' s']; [simpl; lia|].
        destruct (Ascii.eqb c' newline); simpl; lia.
      * apply splitlines_from_cur. destruct cur; discriminate.
    + cbn [take count_char splitlines_from].
      assert (Hi' : i < String.length s) by lia.
      destruct (Ascii.eqb c newline) eqn:E1.
      * specialize (IH s EmptyString i). cbn [List.length]. lia.
      * destruct (Ascii.eqb c "013") eqn:E2.
        -- destruct s as [|c' s'] eqn:Es; [simpl in Hi'; lia|].
           destruct (Ascii.eqb c' newline) eqn:E3.
           ++ destruct i as [|i'].
              ** simpl; lia.
              ** cbn [take count_char]. rewrite E3.
                 simpl in Hi', Hn.
                 specialize (IH s' EmptyString i'). cbn [List.length]. lia.
           ++ cbn [List.length plus]. apply Nat.lt_lt_succ_r. apply IH; lia.
        -- specialize (IH s (cur ++ String.String c EmptyString) i). lia.
Qed.

Lemma getitem_nat {A : Type} (l : list A) (k : nat) :
  k < List.length l -> exists x, getitem l (Z.of_nat (S k) - 1) = Some x.
Proof.
  intros H. unfold getitem.
  replace (Z.of_nat (S k) - 1)%Z with (Z.of_nat k) by lia.
  destruct (Z.ltb_spec (Z.of_nat k) (- Z.of_nat (List.length l))); [lia|].
  destruct (Z.leb_spec (Z.of_nat (List.length l)) (Z.of_nat k)); [lia|].
  destruct (Z.ltb_spec (Z.of_nat k) 0); [lia|].
  cbn [orb]. rewrite Nat2Z.id.
  destruct (nth_error l k) eqn:E; [eauto|].
  apply nth_error_None in E. lia.
Qed.

(** At a character of the text, on its own line, [parse_error] finds the
    line and makes a [ParseError]. *)
Lemma parse_error_line (self : Stream) (msg : string) :
  lineno_ok self -> idx self < String.length (s self) ->
  exists line,
    parse_error self msg =
    LexerParseError
      {| LexerError.msg := msg;
         LexerError.line := line;
         LexerError.filename := _filename self;
         LexerError.lineno := S (count newline (s self) 0 (idx self));
         LexerError.start_colno :=
           match rfind newline (s self) (idx self) with
           | None => (Z.of_nat (idx self) - 1)%Z
           | Some last_nl => (Z.of_nat (idx self) - Z.of_nat last_nl - 1)%Z
           end;
         LexerError.end_colno :=
           (match rfind newline (s self) (idx self) with
            | None => (Z.of_nat (idx self) - 1)%Z
            | Some last_nl => (Z.of_nat (idx self) - Z.of_nat last_nl - 1)%Z
            end + 1)%Z |}.
Proof.
  intros Hok Hlt. unfold parse_error. rewrite Hok.
  destruct (getitem_nat (splitlines (s self)) (count newline (s self) 0 (idx self)))
    as [line Hl].
  - unfold count, slice, splitlines. rewrite Nat.sub_0_r.
    replace (drop 0 (s self)) with (s self) by (now destruct (s self)).
    eapply lines_enough; eauto.
  - rewrite Hl. eauto.
Qed.

(** *** The streams that the lexer reaches *)

Lemma reachable_ok (filename text : string) (self : Stream) :
  reachable filename text self ->
  s self = text /\ lineno_ok self /\ idx self <= String.length text.
Proof.
  induction 1 as [|self self' sk t _ IH E].
  - repeat split; simpl; lia.
  - destruct IH as (Hs & Hok & Hb).
    pose proof (next_fuel_advances (enough self) self) as Ha.
    unfold next in E. rewrite E in Ha. unfold advances in Ha; simpl in Ha.
    destruct Ha as (Hs' & rg & _ & _ & Hb' & Hok').
    rewrite Hs in *. repeat split; auto.
Qed.

(** *** A literal that does not close *)

Lemma slice_take (s : string) (i k : nat) :
  slice s i (i + k) = take k (drop i s).
Proof. unfold slice. f_equal. lia. Qed.

Lemma lex_string_loop_unclosed (self : Stream) (body : string) :
  unclosed body ->
  forall (fuel : nat) (sub : Stream) (parts : list string) (len : nat),
    drop (idx sub) (s sub) = body ->
    String.length body < fuel ->
    lex_string_loop self fuel sub parts len
    = Raise (parse_error self "unterminated string").
Proof.
  induction 1 as [|c r Hq Hb Hr IH|c r Hx Hu Hr IH]; intros fuel sub parts len D Hf;
    (destruct fuel as [|fuel]; [simpl in Hf; lia|]);
    cbn [lex_string_loop]; rewrite string_next.
  - apply PyFacts.drop_nil in D. apply Nat.leb_le in D. rewrite D. reflexivity.
  - destruct (PyFacts.drop_cons _ _ _ _ D) as [D1 D2].
    apply Nat.leb_gt in D2. rewrite D2.
    rewrite first_match_drop, D, (first_len_char c r Hq Hb).
    cbn [option_map fst snd name value _update_pos].
    change ("CHAR" =? "CLOSING_QUOTE") with false. cbv iota.
    change (decode_part _) with
      (@Return string (slice (s sub) (idx sub) (idx sub + 1))).
    cbv iota. apply IH.
    + simpl. replace (idx sub + 1) with (S (idx sub)) by lia. exact D1.
    + simpl in Hf; lia.
  - destruct (PyFacts.drop_cons _ _ _ _ D) as [D1 D2].
    destruct (PyFacts.drop_cons _ _ _ _ D1) as [D3 _].
    apply Nat.leb_gt in D2. rewrite D2.
    destruct (first_len_escape c r Hx Hu) as (n & part & F & Hn & Hd).
    rewrite first_match_drop, D, F.
    cbn [option_map fst snd name value _update_pos].
    rewrite Hn. rewrite slice_take, D.
    change (take 2 (String.String backslash (String.String c r))) with (two c).
    match goal with
    | |- context [decode_part ?t] =>
        match t with
        | {| name := _; value := _; source_pos := Some ?rg |} =>
            change t with (token_of n (two c) rg); rewrite (Hd rg)
        end
    end.
    apply IH.
    + simpl. replace (idx sub + 2) with (S (S (idx sub))) by lia. exact D3.
    + simpl in Hf; lia.
Qed.

Lemma next_fuel_filename (fuel : nat) (self : Stream) :
  _filename (fst (snd (next_fuel fuel self))) = _filename self.
Proof.
  revert self; induction fuel as [|fuel IH]; intros self; cbn [next_fuel]; auto.
  destruct (Nat.leb _ _); auto.
  cbn [ignore_rules get_lexer whitespace snd].
  destruct (matches _ (s self) (idx self)) as [e|].
  - cbn [_update_pos].
    pose proof (IH (set_idx_lineno self e
                      (_lineno self + count newline (s self) (idx self) e))) as IH'.
    destruct (contains newline _).
    + cbn [_last_token set_idx_lineno]. destruct (_last_token self) as [last|]; auto.
      destruct (negb _); auto.
      destruct (next_fuel fuel _) as [sk r]; exact IH'.
    + destruct (next_fuel fuel _) as [sk r]; exact IH'.
  - unfold next_rule.
    destruct (first_match _ _ _) as [[rule_name e]|]; auto.
    destruct (rule_name =? "STRING"); auto.
    unfold lex_string.
    destruct (lex_string_loop _ _ _ _ _) as [[parts length]|e'|]; auto.
    destruct (Runicode.str_decode_utf_8 _); auto.
Qed.

Lemma reachable_filename (filename text : string) (self : Stream) :
  reachable filename text self -> _filename self = filename.
Proof.
  induction 1 as [|self self' sk t _ IH E]; auto.
  pose proof (next_fuel_filename (enough self) self) as H.
  unfold next in E. rewrite E in H. simpl in H. congruence.
Qed.

(** *** The fuel is enough *)

Lemma first_match_positive (rs : list rule) (s : string) (pos : nat) (n : string) (e : nat) :
  forallb (fun r : rule => ReSpec.consumes (snd r)) rs = true ->
  first_match rs s pos = Some (n, e) -> pos < e.
Proof.
  induction rs as [|[n' r] rs IH]; simpl; [discriminate|].
  intros H. apply andb_true_iff in H. destruct H as [H1 H2].
  unfold matches at 1.
  destruct (rmatch r (drop pos s)) as [k|] eqn:M; simpl.
  - intros E; inversion E; subst. apply ReFacts.rmatch_positive in M; auto. lia.
  - auto.
Qed.

Lemma lex_string_loop_fuel (self : Stream) (fuel : nat) :
  forall (sub : Stream) (parts : list string) (len : nat),
    String.length (s sub) - idx sub < fuel ->
    lex_string_loop self fuel sub parts len <> OutOfFuel.
Proof.
  induction fuel as [|fuel IH]; intros sub parts len Hf; [lia|].
  cbn [lex_string_loop]. rewrite string_next.
  destruct (Nat.leb _ _) eqn:L.
  { destruct (parse_error self "unterminated string"); discriminate. }
  apply Nat.leb_gt in L.
  destruct (first_match STRING_RULES (s sub) (idx sub)) as [[n e]|] eqn:F.
  - cbn [name value _update_pos snd fst].
    destruct (n =? "CLOSING_QUOTE"); [discriminate|].
    destruct (decode_part _) as [part|ex|] eqn:D; try discriminate.
    + apply IH. simpl.
      apply first_match_positive in F; [lia | reflexivity].
    + exfalso. revert D. unfold decode_part, hex_to_utf8, Runicode.encode_code_point.
      repeat match goal with
             | |- context [if ?b then _ else _] => destruct b
             | |- context [match ?x with _ => _ end] => destruct x
             end; discriminate.
  - destruct (parse_error sub "unrecognized token"); discriminate.
Qed.

Lemma next_rule_fuel (self : Stream) : snd (next_rule self) <> OutOfFuel.
Proof.
  unfold next_rule.
  destruct (first_match _ _ _) as [[rule_name e]|]; simpl.
  - destruct (rule_name =? "STRING"); [|simpl; discriminate].
    unfold lex_string.
    pose proof (lex_string_loop_fuel self (enough self)
                  (SRLexerStream (_filename self) (s self) (idx self + 1) (_lineno self))
                  [] 1) as H.
    destruct (lex_string_loop _ _ _ _ _) as [[parts length]|ex|]; simpl.
    + unfold Runicode.str_decode_utf_8.
      destruct (Runicode.well_formed _); simpl; discriminate.
    + discriminate.
    + exfalso; apply H; auto. unfold enough; simpl. lia.
  - destruct (parse_error self "unrecognized token"); discriminate.
Qed.

Lemma next_fuel_enough (fuel : nat) :
  forall self : Stream,
    String.length (s self) - idx self < fuel ->
    snd (snd (next_fuel fuel self)) <> OutOfFuel.
Proof.
  induction fuel as [|fuel IH]; intros self Hf; [lia|].
  cbn [next_fuel].
  destruct (Nat.leb (String.length (s self)) (idx self)) eqn:L; [simpl; discriminate|].
  apply Nat.leb_gt in L.
  cbn [ignore_rules get_lexer whitespace snd].
  destruct (matches _ (s self) (idx self)) as [e|] eqn:M.
  - assert (He : idx self < e).
    { unfold matches in M.
      destruct (rmatch _ (drop (idx self) (s self))) as [k|] eqn:R; [|discriminate].
      inversion M; subst. apply ReFacts.rmatch_positive in R; [lia | reflexivity]. }
    cbn [_update_pos].
    pose proof (IH (set_idx_lineno self e
                      (_lineno self + count newline (s self) (idx self) e))) as IH'.
    simpl in IH'.
    destruct (contains newline _).
    + cbn [_last_token set_idx_lineno]. destruct (_last_token self) as [last|];
        [|simpl; discriminate].
      destruct (negb _); [|simpl; discriminate].
      destruct (next_fuel fuel _) as [sk r]; simpl in *. apply IH'; lia.
    + destruct (next_fuel fuel _) as [sk r]; simpl in *. apply IH'; lia.
  - simpl. apply next_rule_fuel.
Qed.

(** A call that returns a token has moved the offset forward. *)
Lemma next_fuel_progress (fuel : nat) :
  forall (self self' : Stream) (sk : list SourceRange) (t : Token),
    next_fuel fuel self = (sk, (self', Return t)) -> idx self < idx self'.
Proof.
  induction fuel as [|fuel IH]; intros self self' sk t; cbn [next_fuel]; [discriminate|].
  destruct (Nat.leb (String.length (s self)) (idx self)) eqn:L; [discriminate|].
  apply Nat.leb_gt in L.
  cbn [ignore_rules get_lexer whitespace snd].
  destruct (matches _ (s self) (idx self)) as [e|] eqn:M.
  - assert (He : idx self < e).
    { unfold matches in M.
      destruct (rmatch _ (drop (idx self) (s self))) as [k|] eqn:R; [|discriminate].
      inversion M; subst. apply ReFacts.rmatch_positive in R; [lia | reflexivity]. }
    cbn [_update_pos].
    pose proof (IH (set_idx_lineno self e
                      (_lineno self + count newline (s self) (idx self) e))) as IH'.
    simpl in IH'.
    destruct (contains newline _).
    + cbn [_last_token set_idx_lineno]. destruct (_last_token self) as [last|];
        [|discriminate].
      destruct (negb _).
      * destruct (next_fuel fuel _) as [sk' [self1 r]].
        intros H; inversion H; subst. specialize (IH' _ _ _ eq_refl). lia.
      * intros H; inversion H; subst. simpl. exact He.
    + destruct (next_fuel fuel _) as [sk' [self1 r]].
      intros H; inversion H; subst. specialize (IH' _ _ _ eq_refl). lia.
  - unfold next_rule.
    destruct (first_match (rules get_lexer) (s self) (idx self)) as [[rule_name e]|] eqn:E;
      [|discriminate].
    destruct (rule_name =? "STRING").
    + unfold lex_string.
      pose proof (lex_string_loop_end self (enough self)
                    (SRLexerStream (_filename self) (s self) (idx self + 1) (_lineno self))
                    [] 1) as He.
      destruct (lex_string_loop _ _ _ _ _) as [[parts length]|ex|]; try discriminate.
      destruct (Runicode.str_decode_utf_8 _); try discriminate.
      cbn [_update_pos]. intros H; inversion H; subst.
      destruct (He parts length) as (_ & q & H1 & H2 & H3); simpl; auto; try lia.
    + cbn [_update_pos]. intros H; inversion H; subst. simpl.
      eapply first_match_positive; eauto. reflexivity.
Qed.

Lemma drain_enough (fuel : nat) :
  forall self : Stream,
    idx self <= String.length (s self) ->
    String.length (s self) - idx self < fuel ->
    snd (drain fuel self) <> OutOfFuel.
Proof.
  induction fuel as [|fuel IH]; intros self Hb Hf; [lia|].
  cbn [drain]. unfold next.
  pose proof (next_fuel_advances (enough self) self) as Ha.
  pose proof (next_fuel_progress (enough self) self) as Hp.
  pose proof (next_fuel_enough (enough self) self) as He.
  destruct (next_fuel (enough self) self) as [sk [self' [t|ex|]]].
  - destruct Ha as (Hs & rg & _ & _ & Hb' & _). simpl in Hs, Hb'.
    specialize (Hp self' sk t eq_refl). specialize (Hb' Hb).
    specialize (IH self').
    destruct (drain fuel self') as [evs' r']. simpl in *.
    apply IH; rewrite Hs; lia.
  - destruct ex; simpl; discriminate.
  - exfalso. apply He; [unfold enough; lia | reflexivity].
Qed.

(** *** Where a token is *)

Lemma next_fuel_placed (fuel : nat) :
  forall (self self' : Stream) (sk : list SourceRange) (t : Token),
    lineno_ok self ->
    next_fuel fuel self = (sk, (self', Return t)) -> placed (s self) t.
Proof.
  induction fuel as [|fuel IH]; intros self self' sk t Hok; cbn [next_fuel];
    [discriminate|].
  destruct (Nat.leb (String.length (s self)) (idx self)) eqn:L; [discriminate|].
  cbn [ignore_rules get_lexer whitespace snd].
  destruct (matches _ (s self) (idx self)) as [e|] eqn:M.
  - apply ReFacts.matches_range in M. destruct M as [M1 _].
    pose proof (update_pos_lineno_ok self e M1 Hok) as Hok'.
    cbn [_update_pos] in *.
    pose proof (IH (set_idx_lineno self e
                      (_lineno self + count newline (s self) (idx self) e))) as IH'.
    simpl in IH'.
    destruct (contains newline _).
    + cbn [_last_token set_idx_lineno]. destruct (_last_token self) as [last|];
        [|discriminate].
      destruct (negb _).
      * destruct (next_fuel fuel _) as [sk' [self1 r]].
        intros H; inversion H; subst. eapply IH'; eauto.
      * intros H; inversion H; subst. split; [exact Hok | reflexivity].
    + destruct (next_fuel fuel _) as [sk' [self1 r]].
      intros H; inversion H; subst. eapply IH'; eauto.
  - unfold next_rule.
    destruct (first_match (rules get_lexer) (s self) (idx self)) as [[rule_name e]|];
      [|discriminate].
    destruct (rule_name =? "STRING").
    + unfold lex_string.
      destruct (lex_string_loop _ _ _ _ _) as [[parts length]|ex|]; try discriminate.
      destruct (Runicode.str_decode_utf_8 _); try discriminate.
      cbn [_update_pos]. intros H; inversion H; subst.
      split; [exact Hok | reflexivity].
    + cbn [_update_pos]. intros H; inversion H; subst.
      split; [exact Hok | reflexivity].
Qed.

Lemma drain_placed (fuel : nat) :
  forall (self : Stream) (evs : list event) (r : result unit),
    lineno_ok self ->
    drain fuel self = (evs, r) -> Forall (placed (s self)) (emitted evs).
Proof.
  induction fuel as [|fuel IH]; intros self evs r Hok; cbn [drain].
  - intros H; inversion H; constructor.
  - unfold next.
    pose proof (next_fuel_advances (enough self) self) as Ha.
    pose proof (next_fuel_placed (enough self) self) as Hc.
    destruct (next_fuel (enough self) self) as [sk [self' [t|ex|]]].
    + destruct Ha as (Hs & rg & _ & _ & _ & Hok'). simpl in Hs, Hok'.
      destruct (drain fuel self') as [evs' r'] eqn:D.
      intros H; inversion H; subst.
      assert (E : emitted (map Skipped sk ++ Emitted t :: evs') = t :: emitted evs').
      { clear. induction sk; simpl; auto. }
      rewrite E. constructor; [eapply Hc; eauto|].
      rewrite <- Hs. eapply IH; eauto.
    + assert (E : emitted (map Skipped sk) = []) by (clear; induction sk; simpl; auto).
      destruct ex; intros H; inversion H; subst; rewrite E; constructor.
    + assert (E : emitted (map Skipped sk) = []) by (clear; induction sk; simpl; auto).
      intros H; inversion H; subst; rewrite E; constructor.
Qed.

(** *** One call of [next], without its loop

    The loop of [next] runs at most twice: after the whitespace that it
    skips there is no whitespace. *)

Lemma next_unfold (self : Stream) :
  next self =
  if Nat.leb (String.length (s self)) (idx self) then ([], (self, Raise StopIteration))
  else
    match matches (snd whitespace) (s self) (idx self) with
    | Some e =>
        let range := fst (_update_pos self (idx self) e) in
        let self' := snd (_update_pos self (idx self) e) in
        let skip :=
          ([range],
           if Nat.leb (String.length (s self)) e then (self', Raise StopIteration)
           else next_rule self') in
        if contains newline (slice (s self) (idx self) e) then
          match _last_token self with
          | None => ([], (self', Raise AttributeError))
          | Some last =>
              if terminator_eligible (name last) then
                let token := {| name := "SEMICOLON"; value := slice (s self) (idx self) e;
                                source_pos := Some range |} in
                ([], (set_last_token self' token, Return token))
              else skip
          end
        else skip
    | None => ([], next_rule self)
    end.
Proof.
  unfold next, enough.
  remember (String.length (s self)) as f eqn:Hf.
  cbn [next_fuel]. rewrite <- Hf.
  destruct (Nat.leb f (idx self)) eqn:L; [reflexivity|].
  apply Nat.leb_gt in L.
  cbn [ignore_rules get_lexer].
  destruct (matches (snd whitespace) (s self) (idx self)) as [e|] eqn:M; [|reflexivity].
  cbn [_update_pos fst snd _last_token set_idx_lineno]. cbv zeta.
  assert (Hskip :
    next_fuel f (set_idx_lineno self e
                   (_lineno self + count newline (s self) (idx self) e))
    = ([], if Nat.leb f e
           then (set_idx_lineno self e
                   (_lineno self + count newline (s self) (idx self) e),
                 Raise StopIteration)
           else next_rule (set_idx_lineno self e
                             (_lineno self + count newline (s self) (idx self) e)))).
  { destruct f as [|n]; [lia|].
    cbn [next_fuel s idx set_idx_lineno]. rewrite <- Hf.
    destruct (Nat.leb (S n) e) eqn:Le; [reflexivity|].
    cbn [ignore_rules get_lexer].
    destruct (whitespace_maximal _ _ _ M) as [W|W].
    - apply Nat.leb_gt in Le. lia.
    - rewrite W. reflexivity. }
  destruct (contains newline _).
  - destruct (_last_token self) as [last|]; [|reflexivity].
    destruct (terminator_eligible (name last)); cbn [negb]; [reflexivity|].
    rewrite Hskip. reflexivity.
  - rewrite Hskip. reflexivity.
Qed.

(** A stream that the lexer reaches holds the token it emitted last, and
    holds none only before the first call. *)
Lemma next_rule_last (self self' : Stream) (t : Token) :
  next_rule self = (self', Return t) -> _last_token self' = Some t.
Proof.
  unfold next_rule.
  destruct (first_match _ _ _) as [[rule_name e]|]; [|discriminate].
  destruct (rule_name =? "STRING").
  - destruct (lex_string self) as [self1 [t1|e1|]]; try discriminate.
    intros H; inversion H; subst. reflexivity.
  - cbn [_update_pos]. intros H; inversion H; subst. reflexivity.
Qed.

Lemma next_last (self self' : Stream) (sk : list SourceRange) (t : Token) :
  next self = (sk, (self', Return t)) -> _last_token self' = Some t.
Proof.
  rewrite next_unfold.
  destruct (Nat.leb _ _); [discriminate|].
  destruct (matches _ _ _) as [e|]; cbv zeta.
  - assert (Hskip :
      ([fst (_update_pos self (idx self) e)],
       if Nat.leb (String.length (s self)) e
       then (snd (_update_pos self (idx self) e), Raise StopIteration)
       else next_rule (snd (_update_pos self (idx self) e)))
      = (sk, (self', Return t)) -> _last_token self' = Some t).
    { destruct (Nat.leb _ e); [discriminate|].
      intros H; inversion H as [[H1 H2]]. eapply next_rule_last; eauto. }
    destruct (contains newline _); auto.
    destruct (_last_token self) as [last|]; [|discriminate].
    destruct (terminator_eligible _); auto.
    intros H; inversion H; subst. reflexivity.
  - intros H; inversion H as [[H1 H2]]. eapply next_rule_last; eauto.
Qed.

Lemma reachable_last (filename text : string) (self : Stream) :
  reachable filename text self ->
  self = lex filename text \/ exists t, _last_token self = Some t.
Proof.
  destruct 1 as [|self self' sk t _ E]; [left; reflexivity|].
  right; exists t. eapply next_last; eauto.
Qed.

(** *** The tokens and the outcome of a drained stream *)

Lemma emitted_skipped (sk : list SourceRange) (evs : list event) :
  emitted (map Skipped sk ++ evs) = emitted evs.
Proof. induction sk; simpl; auto. Qed.

Lemma drain_reachable (filename text : string) (P : Token -> Prop) :
  (forall (self self' : Stream) (sk : list SourceRange) (t : Token),
     reachable filename text self -> next self = (sk, (self', Return t)) -> P t) ->
  forall (fuel : nat) (self : Stream) (evs : list event) (r : result unit),
    reachable filename text self ->
    drain fuel self = (evs, r) -> Forall P (emitted evs).
Proof.
  intros HP. induction fuel as [|fuel IH]; intros self evs r Hr; cbn [drain].
  - intros H; inversion H; constructor.
  - destruct (next self) as [sk [self' [t|ex|]]] eqn:E.
    + destruct (drain fuel self') as [evs' r'] eqn:D.
      intros H; inversion H; subst.
      rewrite emitted_skipped. cbn [emitted]. constructor.
      * eapply HP; eauto.
      * eapply IH; [|exact D]. econstructor; eauto.
    + pose proof (emitted_skipped sk []) as E0. rewrite app_nil_r in E0.
      destruct ex; intros H; inversion H; subst; rewrite E0; constructor.
    + pose proof (emitted_skipped sk []) as E0. rewrite app_nil_r in E0.
      intros H; inversion H; subst; rewrite E0; constructor.
Qed.

(** An exception that ends the draining is one that a call of [next]
    raised, at a stream that holds no last token only if no token was
    emitted. *)
Lemma drain_raise (filename text : string) :
  forall (fuel : nat) (self : Stream) (evs : list event) (e : exn),
    reachable filename text self ->
    drain fuel self = (evs, Raise e) ->
    exists (cur cur' : Stream) (sk : list SourceRange),
      reachable filename text cur /\ next cur = (sk, (cur', Raise e)) /\
      e <> StopIteration /\
      (emitted evs = [] -> cur = self).
Proof.
  induction fuel as [|fuel IH]; intros self evs e Hr; cbn [drain]; [discriminate|].
  destruct (next self) as [sk [self' [t|ex|]]] eqn:E.
  - destruct (drain fuel self') as [evs' r'] eqn:D.
    intros H; inversion H; subst.
    destruct (IH self' evs' e) as (cur & cur' & sk' & H1 & H2 & H3 & _); auto.
    { econstructor; eauto. }
    exists cur, cur', sk'; repeat split; auto.
    rewrite emitted_skipped. discriminate.
  - intros H. assert (ex = e /\ ex <> StopIteration) as [? Hne].
    { destruct ex; inversion H; split; auto; discriminate. }
    subst ex. exists self, self', sk; repeat split; auto.
  - discriminate.
Qed.

(** *** What the rules match *)

Lemma many_sound (c : ascii -> bool) (t : string) (n : nat) :
  many c (fun _ => Some 0) t = Some n -> all c (take n t) = true.
Proof.
  revert n; induction t as [|a t IH]; intros n; simpl.
  - intros H; inversion H; reflexivity.
  - destruct (c a) eqn:Ca.
    + destruct (many c (fun _ => Some 0) t) as [m|] eqn:E.
      * intros H; inversion H; subst; simpl. rewrite Ca. now apply IH.
      * now apply many_total in E.
    + intros H; inversion H; reflexivity.
Qed.

(** A repetition takes all the characters of its class that it finds,
    when what follows them matches where they end. *)
Lemma many_all (c : ascii -> bool) (k : string -> option nat) (r rest : string) (n : nat) :
  all c r = true -> starts_with c rest = false -> k rest = Some n ->
  many c k (r ++ rest) = Some (String.length r + n).
Proof.
  intros Hr Hs Hk. induction r as [|a r IH]; simpl in *.
  - destruct rest as [|y rest']; simpl in *; [exact Hk|]. rewrite Hs. exact Hk.
  - apply andb_true_iff in Hr. destruct Hr as [Ca Hr]. rewrite Ca, (IH Hr). reflexivity.
Qed.

Lemma lit_match (l t : string) (n : nat) :
  rmatch (lit l) t = Some n -> n = String.length l /\ take n t = l.
Proof.
  revert t n; induction l as [|c l IH]; intros t n.
  - simpl. intros H; inversion H; subst. split; [reflexivity | now destruct t].
  - change (lit (String.String c l)) with (chr c :: lit l).
    cbn [rmatch rep cls chr exactly].
    destruct t as [|a t]; [discriminate|].
    destruct (Ascii.eqb c a) eqn:E; [|discriminate].
    apply Ascii.eqb_eq in E; subst a.
    destruct (rmatch (lit l) t) as [m|] eqn:M; [|discriminate].
    simpl. intros H; inversion H; subst.
    destruct (IH _ _ M) as [H1 H2]. split; simpl; congruence.
Qed.

Lemma lit_matches (l s : string) (pos e : nat) :
  matches (lit l) s pos = Some e -> e = pos + String.length l /\ slice s pos e = l.
Proof.
  unfold matches. destruct (rmatch (lit l) (drop pos s)) as [n|] eqn:M; [|discriminate].
  simpl. intros H; inversion H; subst.
  destruct (lit_match _ _ _ M) as [H1 H2]. rewrite slice_take. split; congruence.
Qed.

Lemma integer_matches (s : string) (pos e : nat) :
  matches [Atom digit Plus] s pos = Some e -> number (slice s pos e) = true.
Proof.
  unfold matches; cbn [rmatch rep cls]. change digit with is_digit.
  destruct (drop pos s) as [|x rest] eqn:D; [discriminate|].
  destruct (is_digit x) eqn:Dx; [|discriminate].
  change (rmatch []) with (fun _ : string => Some 0).
  destruct (many is_digit (fun _ => Some 0) rest) as [m|] eqn:M; [|discriminate].
  simpl. intros H; inversion H; subst.
  rewrite slice_take, D. cbn [take number]. rewrite (many_sound _ _ _ M), Dx. reflexivity.
Qed.

Lemma identifier_matches (s : string) (pos e : nat) :
  matches [Atom ident_start One; Atom ident_char Star] s pos = Some e ->
  word (slice s pos e) = true.
Proof.
  unfold matches; cbn [rmatch rep cls exactly].
  destruct (drop pos s) as [|x rest] eqn:D; [discriminate|].
  destruct (ident_start x) eqn:Dx; [|discriminate].
  change (rmatch []) with (fun _ : string => Some 0).
  destruct (many ident_char (fun _ => Some 0) rest) as [m|] eqn:M; [|discriminate].
  simpl. intros H; inversion H; subst.
  rewrite slice_take, D. cbn [take word]. rewrite (many_sound _ _ _ M), Dx. reflexivity.
Qed.

Lemma keyword_in (val : string) : KEYWORD_DICT val = true -> In val KEYWORDS.
Proof.
  unfold KEYWORD_DICT. rewrite existsb_exists. intros (k & Hin & E).
  apply String.eqb_eq in E; now subst k.
Qed.

Lemma in_tokens (x : string) : existsb (String.eqb x) TOKENS = true -> In x TOKENS.
Proof.
  rewrite existsb_exists. intros (k & Hin & E).
  apply String.eqb_eq in E; now subst k.
Qed.

(** A keyword is a word and no number, and its kind, its upper-case
    form, is one of [TOKENS]. *)
Lemma keyword_facts (val : string) :
  KEYWORD_DICT val = true ->
  number val = false /\ word val = true /\ In (upper val) TOKENS.
Proof.
  intros H. apply keyword_in in H. unfold KEYWORDS in H. cbn [In] in H.
  repeat (destruct H as [H|H];
          [subst val; split; [reflexivity|split; [reflexivity|]];
           apply in_tokens; vm_compute; reflexivity|]).
  contradiction.
Qed.

Lemma lex_string_name (self self' : Stream) (t : Token) :
  lex_string self = (self', Return t) -> name t = "STRING".
Proof.
  unfold lex_string.
  destruct (lex_string_loop _ _ _ _ _) as [[parts length]|ex|]; try discriminate.
  destruct (Runicode.str_decode_utf_8 _); try discriminate.
  cbn [_update_pos]. intros H; inversion H; subst. reflexivity.
Qed.

Lemma next_rule_shaped (self self' : Stream) (t : Token) :
  next_rule self = (self', Return t) -> In (name t) TOKENS /\ shaped t.
Proof.
  unfold next_rule.
  destruct (first_match (rules get_lexer) (s self) (idx self)) as [[rule_name e]|] eqn:E;
    [|discriminate].
  destruct (rule_name =? "STRING") eqn:En.
  { destruct (lex_string self) as [self1 [t1|e1|]] eqn:L; try discriminate.
    intros H; inversion H; subst. apply lex_string_name in L.
    split; [rewrite L; apply in_tokens; vm_compute; reflexivity | left; exact L]. }
  cbn [_update_pos]. intros H; inversion H; subst; clear H.
  unfold shaped; cbn [name value].
  apply first_match_in in E. destruct E as (r & Hin & M).
  destruct (KEYWORD_DICT (slice (s self) (idx self) e)) eqn:K.
  { destruct (keyword_facts _ K) as (_ & _ & Ht). split; [exact Ht|].
    right; right; right; right; left. split; reflexivity. }
  cbn [rules get_lexer] in Hin. unfold RULES in Hin. cbn [In] in Hin.
  repeat (destruct Hin as [Hin|Hin];
          [inversion Hin; subst; (split; [apply in_tokens; vm_compute; reflexivity|]);
           first [ discriminate En
                 | apply lit_matches in M; destruct M as [_ M]; rewrite M;
                   do 5 right; unfold RULES; cbn [In];
                   repeat (first [left; reflexivity | right])
                 | right; right; left; split; [reflexivity|]; now apply integer_matches
                 | right; right; right; left;
                   split; [reflexivity|split; [now apply identifier_matches|reflexivity]] ]
          |]).
  contradiction.
Qed.

Lemma whitespace_matches (s : string) (pos e : nat) :
  matches (snd whitespace) s pos = Some e ->
  pos < e /\ all space (slice s pos e) = true.
Proof.
  unfold matches, whitespace; cbn [snd rmatch rep cls].
  destruct (drop pos s) as [|x rest] eqn:D; [discriminate|].
  destruct (space x) eqn:Dx; [|discriminate].
  change (rmatch []) with (fun _ : string => Some 0).
  destruct (many space (fun _ => Some 0) rest) as [m|] eqn:M; [|discriminate].
  simpl. intros H; inversion H; subst. split; [lia|].
  rewrite slice_take, D. simpl. rewrite (many_sound _ _ _ M), Dx. reflexivity.
Qed.

(** The outcome of [next], looked at where the rules are tried: a token
    is a SEMICOLON over whitespace, or the token of the rules at a stream
    [cur] that [next] came to. *)
Lemma next_return (self self' : Stream) (sk : list SourceRange) (t : Token) :
  next self = (sk, (self', Return t)) ->
  (exists e, matches (snd whitespace) (s self) (idx self) = Some e /\
             contains newline (slice (s self) (idx self) e) = true /\
             t = {| name := "SEMICOLON"; value := slice (s self) (idx self) e;
                    source_pos := Some (fst (_update_pos self (idx self) e)) |} /\
             idx self' = e)
  \/
  (exists cur, s cur = s self /\ _filename cur = _filename self /\
               idx self <= idx cur /\ idx cur < String.length (s self) /\
               (lineno_ok self -> lineno_ok cur) /\
               next_rule cur = (self', Return t)).
Proof.
  rewrite next_unfold.
  destruct (Nat.leb _ _) eqn:L; [discriminate|]. apply Nat.leb_gt in L.
  destruct (matches _ _ _) as [e|] eqn:M; cbv zeta.
  - assert (Hskip :
      ([fst (_update_pos self (idx self) e)],
       if Nat.leb (String.length (s self)) e
       then (snd (_update_pos self (idx self) e), Raise StopIteration)
       else next_rule (snd (_update_pos self (idx self) e)))
      = (sk, (self', Return t)) ->
      exists cur, s cur = s self /\ _filename cur = _filename self /\
                  idx self <= idx cur /\ idx cur < String.length (s self) /\
                  (lineno_ok self -> lineno_ok cur) /\
                  next_rule cur = (self', Return t)).
    { destruct (Nat.leb _ e) eqn:Le; [discriminate|]. apply Nat.leb_gt in Le.
      intros H; inversion H as [[H1 H2]].
      exists (snd (_update_pos self (idx self) e)).
      apply ReFacts.matches_range in M.
      repeat split; simpl; auto; try lia.
      apply (update_pos_lineno_ok self e); lia. }
    destruct (contains newline _) eqn:C; auto.
    destruct (_last_token self) as [last|]; [|discriminate].
    destruct (terminator_eligible _); auto.
    intros H; inversion H; subst. left; exists e; auto.
  - intros H; inversion H as [[H1 H2]]. right; exists self; repeat split; auto.
Qed.

Lemma next_shaped (self self' : Stream) (sk : list SourceRange) (t : Token) :
  next self = (sk, (self', Return t)) -> In (name t) TOKENS /\ shaped t.
Proof.
  intros H. apply next_return in H. destruct H as [(e & M & C & Ht & _)|(cur & H)].
  - subst t. split; [simpl; tauto|].
    right; left. cbn [name value]. split; [reflexivity|].
    split; [now apply whitespace_matches in M | exact C].
  - eapply next_rule_shaped. apply H.
Qed.

(** *** The range of a token is not empty *)

Lemma next_rule_range (self self' : Stream) (t : Token) :
  idx self < String.length (s self) ->
  next_rule self = (self', Return t) ->
  exists rg, source_pos t = Some rg /\ start rg = idx self /\ start rg < end_ rg /\
             end_ rg = idx self'.
Proof.
  intros Hlt. unfold next_rule.
  destruct (first_match (rules get_lexer) (s self) (idx self)) as [[rule_name e]|] eqn:E;
    [|discriminate].
  destruct (rule_name =? "STRING").
  - unfold lex_string.
    pose proof (lex_string_loop_end self (enough self)
                  (SRLexerStream (_filename self) (s self) (idx self + 1) (_lineno self))
                  [] 1) as He.
    destruct (lex_string_loop _ _ _ _ _) as [[parts length]|ex|]; try discriminate.
    destruct (Runicode.str_decode_utf_8 _); try discriminate.
    cbn [_update_pos]. intros H; inversion H; subst.
    destruct (He parts length) as (_ & q & H1 & H2 & H3); simpl; auto; try lia.
    eexists; split; [reflexivity|]. simpl. repeat split; lia.
  - cbn [_update_pos]. intros H; inversion H; subst.
    eexists; split; [reflexivity|]. simpl. repeat split; auto.
    eapply first_match_positive; eauto. reflexivity.
Qed.

Lemma next_range (filename text : string) (self self' : Stream)
    (sk : list SourceRange) (t : Token) :
  reachable filename text self ->
  next self = (sk, (self', Return t)) ->
  exists rg, source_pos t = Some rg /\ idx self <= start rg /\ start rg < end_ rg /\
             end_ rg <= String.length text.
Proof.
  intros Hr E.
  assert (Hr' : reachable filename text self') by (econstructor; eauto).
  destruct (reachable_ok _ _ _ Hr') as (_ & _ & Hb').
  destruct (reachable_ok _ _ _ Hr) as (Hs & _ & _).
  apply next_return in E. destruct E as [(e & M & C & Ht & He)|(cur & H1 & _ & H2 & H3 & _ & H4)].
  - subst t. apply whitespace_matches in M. destruct M as [M _].
    eexists; split; [reflexivity|]. simpl. repeat split; auto; lia.
  - apply next_rule_range in H4; [|rewrite H1; exact H3].
    destruct H4 as (rg & R1 & R2 & R3 & R4). exists rg; repeat split; auto; lia.
Qed.

(** *** Words and numbers at the offset *)

Lemma class_ne (f : ascii -> bool) (x c : ascii) :
  f c = true -> f x = false -> Ascii.eqb x c = false.
Proof.
  intros Hc Hx. destruct (Ascii.eqb x c) eqn:E; auto.
  apply Ascii.eqb_eq in E; subst. congruence.
Qed.

Lemma ident_start_classes (c : ascii) :
  ident_start c = true -> is_digit c = false /\ space c = false.
Proof.
  destruct c as [b0 b1 b2 b3 b4 b5 b6 b7].
  destruct b0, b1, b2, b3, b4, b5, b6, b7; vm_compute; intros H;
    first [discriminate H | split; reflexivity].
Qed.

Lemma is_digit_classes (c : ascii) :
  is_digit c = true -> ident_start c = false /\ space c = false.
Proof.
  destruct c as [b0 b1 b2 b3 b4 b5 b6 b7].
  destruct b0, b1, b2, b3, b4, b5, b6, b7; vm_compute; intros H;
    first [discriminate H | split; reflexivity].
Qed.

Lemma length_append (a b : string) :
  String.length (a ++ b) = String.length a + String.length b.
Proof. induction a; simpl; auto. Qed.

Lemma take_append (a b : string) : take (String.length a) (a ++ b) = a.
Proof. induction a; simpl; [now destruct b | congruence]. Qed.

Lemma drop_append (a b : string) : drop (String.length a) (a ++ b) = b.
Proof. induction a; simpl; auto. Qed.

Lemma append_assoc (a b c : string) : (a ++ b) ++ c = a ++ (b ++ c).
Proof. induction a; simpl; congruence. Qed.

Lemma word_first_len (c : ascii) (r rest : string) :
  ident_start c = true -> all ident_char r = true ->
  starts_with ident_char rest = false ->
  first_len RULES (String.String c (r ++ rest)) = Some ("IDENTIFIER", S (String.length r)).
Proof.
  intros Hc Hr Hrest.
  destruct (ident_start_classes c Hc) as [Hd _].
  assert (Hne : forall x, ident_start x = false -> Ascii.eqb x c = false)
    by (intros x; apply class_ne; exact Hc).
  unfold RULES.
  cbn [first_len rmatch rep cls lit chr exactly map list_ascii_of_string].
  change digit with is_digit. rewrite Hd.
  rewrite (Hne "+"%char eq_refl), (Hne "-"%char eq_refl), (Hne "<"%char eq_refl),
    (Hne "*"%char eq_refl), (Hne "."%char eq_refl), (Hne "/"%char eq_refl),
    (Hne "="%char eq_refl), Hc.
  change (rmatch []) with (fun _ : string => Some 0).
  rewrite (many_all ident_char (fun _ => Some 0) r rest 0 Hr Hrest eq_refl).
  cbn [option_map]. rewrite Nat.add_0_r. reflexivity.
Qed.

Lemma number_first_len (c : ascii) (r rest : string) :
  is_digit c = true -> all is_digit r = true ->
  starts_with is_digit rest = false ->
  first_len RULES (String.String c (r ++ rest)) = Some ("INTEGER", S (String.length r)).
Proof.
  intros Hc Hr Hrest.
  unfold RULES. cbn [first_len rmatch rep cls].
  change digit with is_digit. rewrite Hc.
  change (rmatch []) with (fun _ : string => Some 0).
  rewrite (many_all is_digit (fun _ => Some 0) r rest 0 Hr Hrest eq_refl).
  cbn [option_map]. rewrite Nat.add_0_r. reflexivity.
Qed.

(** Where no whitespace stands, [next] is the pass over the rules. *)
Lemma next_at_char (self : Stream) (c : ascii) (t : string) :
  drop (idx self) (s self) = String.String c t -> space c = false ->
  next self = ([], next_rule self).
Proof.
  intros D Hc. rewrite next_unfold.
  destruct (PyFacts.drop_cons _ _ _ _ D) as [_ D2].
  apply Nat.leb_gt in D2. rewrite D2.
  unfold matches, whitespace; cbn [snd rmatch rep cls]. rewrite D, Hc. reflexivity.
Qed.

Lemma next_at_rule (self : Stream) (c : ascii) (t rule_name : string) (n : nat) :
  drop (idx self) (s self) = String.String c t -> space c = false ->
  first_len RULES (String.String c t) = Some (rule_name, n) ->
  (rule_name =? "STRING") = false ->
  next self = emits self (token_at self rule_name n) n.
Proof.
  intros D Hc F En. rewrite (next_at_char self c t D Hc).
  unfold next_rule. cbn [rules get_lexer].
  rewrite first_match_drop, D, F. cbn [option_map fst snd]. rewrite En.
  reflexivity.
Qed.

(** *** The pieces of a literal *)

Lemma piece_first_len (p : piece) (rest : string) :
  well_written p = true ->
  first_len STRING_RULES (written p ++ rest) = Some (rule_of p, String.length (written p)).
Proof.
  destruct p as [c| | |c|h1 h2|h1 h2 h3 h4|h hs|c]; cbn [well_written written rule_of two];
    intros H.
  - apply andb_true_iff in H. destruct H as [H1 H2].
    apply negb_true_iff in H1, H2.
    apply first_len_char; intros E; subst c; vm_compute in H1, H2; discriminate.
  - reflexivity.
  - reflexivity.
  - assert (Hq : Ascii.eqb dquote c = false) by (eapply class_ne; eauto).
    assert (Hb : Ascii.eqb backslash c = false) by (eapply class_ne; eauto).
    cbn [two append first_len STRING_RULES rmatch rep cls chr exactly].
    rewrite (Ascii.eqb_refl backslash), Hq, Hb, H. reflexivity.
  - apply andb_true_iff in H. destruct H as [H1 H2].
    cbn [two append first_len STRING_RULES rmatch rep cls chr exactly].
    rewrite (Ascii.eqb_refl backslash).
    change (Ascii.eqb dquote "x") with false. change (Ascii.eqb backslash "x") with false.
    change (one_of "abfnrtv0" "x") with false. change (Ascii.eqb "x" "x") with true.
    rewrite H1, H2. reflexivity.
  - repeat (apply andb_true_iff in H; let H' := fresh "H" in destruct H as [H H']).
    cbn [two append first_len STRING_RULES rmatch rep cls chr exactly].
    rewrite (Ascii.eqb_refl backslash).
    change (Ascii.eqb dquote "u") with false. change (Ascii.eqb backslash "u") with false.
    change (one_of "abfnrtv0" "u") with false. change (Ascii.eqb "x" "u") with false.
    change (Ascii.eqb "u" "u") with true.
    rewrite H, H0, H1, H2. reflexivity.
  - apply andb_true_iff in H. destruct H as [H1 H2].
    cbn [two append first_len STRING_RULES rmatch rep cls chr exactly].
    rewrite (Ascii.eqb_refl backslash).
    change (Ascii.eqb dquote "u") with false. change (Ascii.eqb backslash "u") with false.
    change (one_of "abfnrtv0" "u") with false. change (Ascii.eqb "x" "u") with false.
    change (Ascii.eqb "u" "u") with true.
    change (is_hex "{") with false. change (Ascii.eqb "{" "{") with true.
    rewrite H1. cbn [option_map].
    rewrite append_assoc.
    match goal with
    | |- context [many is_hex ?k (hs ++ "}" ++ rest)] =>
        rewrite (many_all is_hex k hs ("}" ++ rest) 1 H2 eq_refl eq_refl)
    end.
    cbn [option_map String.length]. rewrite length_append. reflexivity.
  - cbn [two append]. apply first_len_unrecognised. exact H.
Qed.

Lemma simple_escape_total (c : ascii) :
  one_of "abfnrtv0" c = true -> exists d, simple_escape c = Some d.
Proof.
  intros Es. unfold one_of in Es; cbn [contains] in Es. unfold simple_escape.
  repeat match goal with
         | |- context [if Ascii.eqb c ?a then _ else _] =>
             let E := fresh "E" in
             destruct (Ascii.eqb c a) eqn:E;
             [eexists; reflexivity
             | rewrite (Ascii.eqb_sym a c), E in Es; cbn [orb] in Es]
         end.
  discriminate.
Qed.

Lemma piece_decode (p : piece) (rg : SourceRange) :
  decode_part (token_of (rule_of p) (written p) rg) = meant p.
Proof.
  destruct p as [c| | |c|h1 h2|h1 h2 h3 h4|h hs|c]; try reflexivity.
  unfold decode_part, token_of. cbn [name value rule_of written meant].
  change ("ESC_HEX_ANY" =? "ESC_QUOTE") with false.
  change ("ESC_HEX_ANY" =? "ESC_ESC") with false.
  change ("ESC_HEX_ANY" =? "ESC_SIMPLE") with false.
  change ("ESC_HEX_ANY" =? "ESC_HEX_8") with false.
  change ("ESC_HEX_ANY" =? "ESC_HEX_16") with false.
  change ("ESC_HEX_ANY" =? "ESC_HEX_ANY") with true.
  cbv iota. cbn [orb]. cbv iota.
  f_equal. unfold slice. cbn [String.length drop Nat.sub].
  rewrite length_append. cbn [String.length].
  replace (String.length hs + 1 - 0) with (S (String.length hs)) by lia.
  cbn [take]. now rewrite take_append.
Qed.

Lemma written_length (p : piece) : 0 < String.length (written p).
Proof. destruct p; simpl; lia. Qed.

Lemma join_written_length (ps : list piece) :
  List.length ps <= String.length (join (map written ps)).
Proof.
  induction ps as [|p ps IH]; simpl; [lia|].
  rewrite length_append. pose proof (written_length p). lia.
Qed.

Lemma concat_join (parts : list string) : String.concat EmptyString parts = join parts.
Proof.
  induction parts as [|a l IH]; [reflexivity|].
  cbn [join fold_right]. fold (join l). rewrite <- IH.
  destruct l as [|b l]; simpl; [|reflexivity].
  clear; induction a; simpl; congruence.
Qed.

Lemma join_app (a b : list string) : join (a ++ b) = join a ++ join b.
Proof.
  induction a as [|x a IH]; simpl; [reflexivity|].
  fold (join (a ++ b)). fold (join a). rewrite IH. now rewrite append_assoc.
Qed.

Lemma rule_of_open (p : piece) : (rule_of p =? "CLOSING_QUOTE") = false.
Proof. destruct p; reflexivity. Qed.

(** The loop of [lex_string] over the pieces of a body and the closing
    quote. *)
Lemma lex_string_loop_pieces (self : Stream) (ps : list piece) :
  Forall (fun p => well_written p = true) ps ->
  forall (fuel : nat) (sub : Stream) (parts : list string) (len : nat) (rest : string),
    drop (idx sub) (s sub) = join (map written ps) ++ String.String dquote rest ->
    List.length ps < fuel ->
    lex_string_loop self fuel sub parts len =
    match decode_all ps with
    | Return vs =>
        Return ((parts ++ vs)%list, len + String.length (join (map written ps)) + 1)
    | Raise e => Raise e
    | OutOfFuel => OutOfFuel
    end.
Proof.
  induction 1 as [|p ps Hp Hps IH]; intros fuel sub parts len rest D Hf;
    (destruct fuel as [|fuel]; [simpl in Hf; lia|]);
    cbn [lex_string_loop]; rewrite string_next.
  - cbn [map join fold_right append] in D.
    destruct (PyFacts.drop_cons _ _ _ _ D) as [_ D2].
    apply Nat.leb_gt in D2. rewrite D2.
    rewrite first_match_drop, D.
    change (first_len STRING_RULES (String.String dquote rest))
      with (Some ("CLOSING_QUOTE", 1)).
    cbn [option_map fst snd name value]. change ("CLOSING_QUOTE" =? "CLOSING_QUOTE") with true.
    cbv iota. rewrite slice_take, D. cbn [take String.length decode_all map join fold_right].
    rewrite app_nil_r. f_equal. f_equal. lia.
  - cbn [map join fold_right] in D. fold (join (map written ps)) in D.
    rewrite append_assoc in D.
    assert (Hlt : idx sub < String.length (s sub)).
    { pose proof (PyFacts.length_drop (idx sub) (s sub)) as Hl. rewrite D in Hl.
      rewrite length_append in Hl. pose proof (written_length p). lia. }
    apply Nat.leb_gt in Hlt. rewrite Hlt.
    rewrite first_match_drop, D, (piece_first_len p _ Hp).
    cbn [option_map fst snd name value _update_pos]. rewrite rule_of_open.
    rewrite slice_take, D, take_append.
    match goal with
    | |- context [decode_part ?t] =>
        match t with
        | {| name := _; value := _; source_pos := Some ?rg |} =>
            change t with (token_of (rule_of p) (written p) rg);
            rewrite (piece_decode p rg)
        end
    end.
    cbn [decode_all map join fold_right]. fold (join (map written ps)).
    destruct (meant p) as [v|e|]; try reflexivity.
    rewrite (IH fuel _ (parts ++ [v])%list _ rest).
    + destruct (decode_all ps) as [vs|e|]; try reflexivity.
      rewrite <- app_assoc. cbn [app]. rewrite length_append. f_equal. f_equal. lia.
    + cbn [idx s set_idx_lineno].
      rewrite <- PyFacts.drop_drop, D. apply drop_append.
    + simpl in Hf. lia.
Qed.

Lemma plain_well_formed (body : string) :
  all plain body = true -> Runicode.well_formed body = true.
Proof.
  induction body as [|c body IH]; [reflexivity|].
  cbn [all]. intros H. apply andb_true_iff in H. destruct H as [Hc Hb].
  unfold plain in Hc. apply andb_true_iff in Hc. destruct Hc as [_ Hc].
  cbn [Runicode.well_formed]. rewrite Hc. auto.
Qed.

Lemma plain_pieces (body : string) :
  all plain body = true ->
  Forall (fun p => well_written p = true) (map char (list_ascii_of_string body)) /\
  join (map written (map char (list_ascii_of_string body))) = body /\
  decode_all (map char (list_ascii_of_string body))
  = Return (map (fun c => String.String c EmptyString) (list_ascii_of_string body)) /\
  join (map (fun c => String.String c EmptyString) (list_ascii_of_string body)) = body.
Proof.
  induction body as [|c body IH]; [repeat split; constructor|].
  cbn [all]. intros H. apply andb_true_iff in H. destruct H as [Hc Hb].
  destruct (IH Hb) as (I1 & I2 & I3 & I4).
  unfold plain in Hc. apply andb_true_iff in Hc. destruct Hc as [Hc _].
  cbn [list_ascii_of_string map join fold_right written decode_all meant].
  fold (join (map written (map char (list_ascii_of_string body)))).
  fold (join (map (fun c => String.String c EmptyString) (list_ascii_of_string body))).
  rewrite I2, I3, I4. repeat split; auto.
Qed.

(** [next] at an opening quote is [lex_string]. *)
Lemma next_at_quote (self : Stream) (t : string) :
  drop (idx self) (s self) = String.String dquote t ->
  next self =
  ([], match lex_string self with
       | (self', Return token) => (set_last_token self' token, Return token)
       | other => other
       end).
Proof.
  intros D. rewrite (next_at_char self dquote _ D eq_refl).
  unfold next_rule. cbn [rules get_lexer]. rewrite first_match_drop, D.
  reflexivity.
Qed.

(** *** The exceptions of the lexer *)

Lemma get_drop_inv (i : nat) (s : string) (c : ascii) :
  String.get i s = Some c -> exists r, drop i s = String.String c r.
Proof.
  revert s; induction i as [|i IH]; intros [|x s] H; simpl in *; try discriminate.
  - inversion H; subst; eauto.
  - auto.
Qed.

Lemma count_next (x : ascii) (s : string) (i : nat) (c : ascii) :
  String.get i s = Some c ->
  count x s 0 (S i) = count x s 0 i + (if Ascii.eqb c x then 1 else 0).
Proof.
  intros H. destruct (get_drop_inv _ _ _ H) as [r D].
  rewrite <- (PyFacts.count_adjacent x s i (S i)) by lia.
  f_equal. unfold count. replace (S i) with (i + 1) by lia.
  rewrite slice_take, D. simpl. lia.
Qed.

Lemma parse_error_rule (self : Stream) (msg : string) :
  lineno_ok self -> idx self < String.length (s self) ->
  msg = "unrecognized token" \/ msg = "unterminated string" ->
  rule_exception (_filename self) (s self) (parse_error self msg).
Proof.
  intros Hok Hlt Hmsg.
  pose proof Hok as Hn. unfold lineno_ok in Hn.
  unfold parse_error. rewrite Hn.
  destruct (getitem_nat (splitlines (s self)) (count newline (s self) 0 (idx self)))
    as [line Hl].
  - unfold count, slice, splitlines. rewrite Nat.sub_0_r.
    replace (drop 0 (s self)) with (s self) by (now destruct (s self)).
    eapply lines_enough; eauto.
  - rewrite Hl. cbn [rule_exception LexerError.msg LexerError.filename LexerError.lineno
                       LexerError.start_colno LexerError.end_colno LexerError.line].
    repeat split; auto.
    exists (idx self); repeat split; auto.
Qed.

Lemma encode_exception (n : N) :
  match Runicode.encode_code_point n with
  | Return _ => True
  | Raise ValueError | Raise UnicodeError => True
  | _ => False
  end.
Proof.
  unfold Runicode.encode_code_point.
  repeat match goal with
         | |- context [if ?b then _ else _] => destruct b
         end; exact I.
Qed.

Lemma simple_matches (s : string) (pos e : nat) :
  matches [chr backslash; Atom (one_of "abfnrtv0") One] s pos = Some e ->
  exists c, slice s pos e = two c /\ one_of "abfnrtv0" c = true.
Proof.
  unfold matches; cbn [rmatch rep cls chr exactly].
  destruct (drop pos s) as [|x [|c rest]] eqn:D; try discriminate.
  { destruct (Ascii.eqb backslash x); discriminate. }
  destruct (Ascii.eqb backslash x) eqn:Ex; [|discriminate].
  apply Ascii.eqb_eq in Ex; subst x.
  destruct (one_of "abfnrtv0" c) eqn:Ec; [|discriminate].
  simpl. intros H; inversion H; subst.
  exists c; split; auto. rewrite slice_take, D. reflexivity.
Qed.

(** A token of the string lexer decodes, or its hex escape is no
    character: the dictionary of the simple escapes has its key, and the
    assertion on the kind holds. *)
Lemma string_token_decodes (s : string) (i e : nat) (n : string) (p : option SourceRange) :
  first_match STRING_RULES s i = Some (n, e) ->
  (n =? "CLOSING_QUOTE") = false ->
  match decode_part {| name := n; value := slice s i e; source_pos := p |} with
  | Return _ => True
  | Raise ValueError | Raise UnicodeError => True
  | _ => False
  end.
Proof.
  intros F En. apply first_match_in in F. destruct F as (r & Hin & M).
  unfold STRING_RULES in Hin. cbn [In] in Hin.
  repeat (destruct Hin as [Hin|Hin];
          [inversion Hin; subst; clear Hin;
           first [ discriminate En
                 | exact I
                 | apply encode_exception
                 | idtac ]
          |]); try contradiction.
  apply simple_matches in M. destruct M as (c & Hv & Hc).
  destruct (simple_escape_total c Hc) as [d Hd].
  unfold decode_part; cbn [name value]. rewrite Hv.
  change ("ESC_SIMPLE" =? "ESC_QUOTE") with false.
  change ("ESC_SIMPLE" =? "ESC_ESC") with false.
  change ("ESC_SIMPLE" =? "ESC_SIMPLE") with true.
  cbn [two String.get]. rewrite Hd. exact I.
Qed.

Lemma lex_string_loop_raise (self : Stream) (fuel : nat) :
  lineno_ok self -> idx self < String.length (s self) ->
  forall (sub : Stream) (parts : list string) (len : nat) (e : exn),
    s sub = s self -> _filename sub = _filename self -> lineno_ok sub ->
    lex_string_loop self fuel sub parts len = Raise e ->
    rule_exception (_filename self) (s self) e.
Proof.
  intros Hok Hlt.
  induction fuel as [|fuel IH]; intros sub parts len e Hs Hf Hsub;
    cbn [lex_string_loop]; [discriminate|].
  rewrite string_next.
  destruct (Nat.leb _ _) eqn:L.
  { pose proof (parse_error_rule self "unterminated string" Hok Hlt (or_intror eq_refl)) as P.
    destruct (parse_error self "unterminated string"); intros H; inversion H; subst;
      try exact P; contradiction. }
  apply Nat.leb_gt in L.
  destruct (first_match STRING_RULES (s sub) (idx sub)) as [[n e']|] eqn:F.
  - cbn [name value _update_pos snd fst].
    destruct (n =? "CLOSING_QUOTE") eqn:En; [discriminate|].
    pose proof (string_token_decodes _ _ _ _
                  (Some {| start := idx sub; end_ := e'; lineno := _lineno sub;
                           colno := match rfind newline (s sub) (idx sub) with
                                    | Some last_nl => idx sub - last_nl
                                    | None => idx sub + 1
                                    end |}) F En) as Hd.
    destruct (decode_part _) as [part|ex|].
    + apply IH; simpl; auto.
      destruct (first_match_range _ _ _ _ _ F) as [F1 _].
      apply (update_pos_lineno_ok sub e'); auto.
    + intros H; inversion H; subst. destruct e; try contradiction; exact I.
    + discriminate.
  - pose proof (parse_error_rule sub "unrecognized token" Hsub L (or_introl eq_refl)) as P.
    rewrite Hs, Hf in P.
    destruct (parse_error sub "unrecognized token"); intros H; inversion H; subst;
      try exact P; contradiction.
Qed.

Lemma next_rule_raise (self self' : Stream) (e : exn) :
  lineno_ok self -> idx self < String.length (s self) ->
  next_rule self = (self', Raise e) ->
  rule_exception (_filename self) (s self) e.
Proof.
  intros Hok Hlt. unfold next_rule.
  destruct (first_match (rules get_lexer) (s self) (idx self)) as [[rule_name e']|] eqn:E.
  - destruct (rule_name =? "STRING") eqn:En; [|cbn [_update_pos]; discriminate].
    apply String.eqb_eq in En; subst rule_name.
    apply string_rule_match in E.
    unfold lex_string.
    pose proof (lex_string_loop_raise self (enough self) Hok Hlt
                  (SRLexerStream (_filename self) (s self) (idx self + 1) (_lineno self))
                  [] 1) as Hl.
    destruct (lex_string_loop _ _ _ _ _) as [[parts length]|ex|].
    + unfold Runicode.str_decode_utf_8.
      destruct (Runicode.well_formed _); cbn [_update_pos]; intros H; inversion H; subst.
      exact I.
    + intros H; injection H as _ He; subst ex. apply Hl; auto.
      unfold lineno_ok in *; simpl.
      replace (idx self + 1) with (S (idx self)) by lia.
      rewrite (count_next newline _ _ _ E). change (Ascii.eqb dquote newline) with false.
      cbv iota. lia.
    + discriminate.
  - intros H; inversion H; subst.
    apply parse_error_rule; auto.
Qed.

(** An exception of [next], but for the end of the stream, is the
    [AttributeError] of a stream without a last token, at whitespace that
    holds a newline, or an exception of the rules. *)
Lemma next_raise (self self' : Stream) (sk : list SourceRange) (e : exn) :
  lineno_ok self ->
  next self = (sk, (self', Raise e)) -> e <> StopIteration ->
  (e = AttributeError /\ _last_token self = None /\
   exists e', matches (snd whitespace) (s self) (idx self) = Some e' /\
              contains newline (slice (s self) (idx self) e') = true)
  \/ rule_exception (_filename self) (s self) e.
Proof.
  intros Hok. rewrite next_unfold.
  destruct (Nat.leb _ _) eqn:L.
  { intros H; inversion H; subst. congruence. }
  apply Nat.leb_gt in L.
  destruct (matches _ _ _) as [e'|] eqn:M; cbv zeta.
  - assert (Hskip :
      ([fst (_update_pos self (idx self) e')],
       if Nat.leb (String.length (s self)) e'
       then (snd (_update_pos self (idx self) e'), Raise StopIteration)
       else next_rule (snd (_update_pos self (idx self) e')))
      = (sk, (self', Raise e)) -> e <> StopIteration ->
      rule_exception (_filename self) (s self) e).
    { destruct (Nat.leb _ e') eqn:Le.
      - intros H; inversion H; subst. congruence.
      - apply Nat.leb_gt in Le. intros H _; inversion H as [[H1 H2]].
        apply next_rule_raise in H2; auto.
        apply ReFacts.matches_range in M.
        apply (update_pos_lineno_ok self e'); auto; lia. }
    destruct (contains newline _) eqn:C; auto.
    destruct (_last_token self) as [last|] eqn:La.
    + destruct (terminator_eligible _); auto. discriminate.
    + intros H _; inversion H; subst. left; repeat split; auto. exists e'; auto.
  - intros H _; inversion H as [[H1 H2]]. right. eapply next_rule_raise; eauto.
Qed.

Lemma drain_exception (filename text : string) (evs : list event) (e : exn) :
  lex_all filename text = (evs, Raise e) ->
  (e = AttributeError /\ starts_with_blank_line text) \/
  rule_exception filename text e.
Proof.
  unfold lex_all. intros D.
  apply (drain_raise filename text) in D; [|constructor].
  destruct D as (cur & cur' & sk & Hr & E & Hne & _).
  destruct (reachable_ok _ _ _ Hr) as (Hs & Hok & _).
  pose proof (reachable_filename _ _ _ Hr) as Hf.
  destruct (next_raise _ _ _ _ Hok E Hne) as [(H1 & H2 & e' & H3 & H4)|H].
  - left; split; auto.
    destruct (reachable_last _ _ _ Hr) as [Hc|[t Ht]]; [|congruence].
    subst cur. exists e'; auto.
  - right. rewrite Hs, Hf in H. exact H.
Qed.

(** The text that starts with whitespace in which a newline stands is
    the text at which the first call finds no last token. *)
Lemma blank_line_raises (filename text : string) :
  starts_with_blank_line text -> lex_all filename text = ([], Raise AttributeError).
Proof.
  intros (e & M & C). unfold lex_all. cbn [drain].
  rewrite next_unfold. cbn [lex s idx _last_token].
  pose proof (whitespace_matches _ _ _ M) as [Hpos _].
  pose proof (ReFacts.matches_range _ _ _ _ M) as [_ Hle].
  assert (L : Nat.leb (String.length text) 0 = false) by (apply Nat.leb_gt; lia).
  rewrite L, M, C. reflexivity.
Qed.

(** *** Tokens written with blanks between them *)

Lemma spaced_blank_or_end (kvs : list (string * string)) : blank_or_end (spaced kvs).
Proof.
  destruct kvs as [|kv kvs]; [left; reflexivity|].
  right. unfold spaced. cbn [map join fold_right append]. eauto.
Qed.

Lemma blank_no_class (c : ascii -> bool) (rest : string) :
  c " "%char = false -> blank_or_end rest -> starts_with c rest = false.
Proof. intros Hc [H|[r H]]; subst; simpl; auto. Qed.

Lemma punctuation_first_len (k v rest : string) :
  In (k, v) PUNCTUATION -> blank_or_end rest ->
  first_len RULES (v ++ rest) = Some (k, String.length v) /\
  (k =? "STRING") = false /\ KEYWORD_DICT v = false /\
  exists c r, v = String.String c r /\ space c = false.
Proof.
  intros Hin Hrest. unfold PUNCTUATION in Hin. cbn [In] in Hin.
  repeat (destruct Hin as [Hin|Hin];
          [inversion Hin; subst k v; clear Hin;
           (split; [destruct Hrest as [H|[r H]]; subst rest; reflexivity|]);
           (split; [reflexivity|]); (split; [reflexivity|]);
           do 2 eexists; split; reflexivity|]).
  contradiction.
Qed.

Lemma lexable_first_len (k v rest : string) :
  lexable (k, v) = true -> blank_or_end rest ->
  exists rule,
    first_len RULES (v ++ rest) = Some (rule, String.length v) /\
    (rule =? "STRING") = false /\
    (if KEYWORD_DICT v then upper v else rule) = k /\
    exists c r, v = String.String c r /\ space c = false.
Proof.
  intros H Hrest. unfold lexable in H.
  assert (Hword : word v = true ->
            first_len RULES (v ++ rest) = Some ("IDENTIFIER", String.length v) /\
            exists c r, v = String.String c r /\ space c = false).
  { intros Hw. destruct v as [|c r]; [discriminate|].
    cbn [word] in Hw. apply andb_true_iff in Hw. destruct Hw as [Hc Hr].
    destruct (ident_start_classes c Hc) as [_ Hsp].
    split; [|eauto].
    apply (word_first_len c r rest Hc Hr).
    apply blank_no_class; auto. }
  destruct (KEYWORD_DICT v) eqn:K.
  - apply String.eqb_eq in H. subst k.
    destruct (keyword_facts v K) as (_ & Hw & _).
    destruct (Hword Hw) as [F Hc].
    exists "IDENTIFIER"; repeat split; auto.
  - apply orb_true_iff in H. destruct H as [H|H];
      [apply orb_true_iff in H; destruct H as [H|H]|].
    + apply andb_true_iff in H. destruct H as [Hk Hw]. apply String.eqb_eq in Hk. subst k.
      destruct (Hword Hw) as [F Hc].
      exists "IDENTIFIER"; repeat split; auto.
    + apply andb_true_iff in H. destruct H as [Hk Hn]. apply String.eqb_eq in Hk. subst k.
      destruct v as [|c r]; [discriminate|].
      cbn [number] in Hn. apply andb_true_iff in Hn. destruct Hn as [Hc Hr].
      destruct (is_digit_classes c Hc) as [_ Hsp].
      exists "INTEGER"; repeat split; eauto.
      apply (number_first_len c r rest Hc Hr).
      apply blank_no_class; auto.
    + apply existsb_exists in H. destruct H as ([k' v'] & Hin & E).
      apply andb_true_iff in E. destruct E as [E1 E2].
      apply String.eqb_eq in E1, E2. cbn [fst snd] in E1, E2. subst k' v'.
      destruct (punctuation_first_len k v rest Hin Hrest) as (F & H1 & _ & H2).
      exists k; repeat split; auto.
Qed.

(** [next] at a blank before a token that a blank or the end follows. *)
Lemma next_spaced (self : Stream) (k v rest : string) :
  drop (idx self) (s self) = String.String " " (v ++ rest) ->
  lexable (k, v) = true -> blank_or_end rest ->
  exists (sk : list SourceRange) (self' : Stream) (t : Token),
    next self = (sk, (self', Return t)) /\
    name t = k /\ value t = v /\
    s self' = s self /\ idx self' = idx self + 1 + String.length v.
Proof.
  intros D Hl Hrest.
  destruct (lexable_first_len k v rest Hl Hrest) as (rule & F & Hr & Hk & c & r & Hv & Hc).
  destruct (PyFacts.drop_cons _ _ _ _ D) as [D1 D2].
  assert (M : matches (snd whitespace) (s self) (idx self) = Some (idx self + 1)).
  { unfold matches, whitespace; cbn [snd rmatch rep cls]. rewrite D.
    change (space " ") with true. cbv iota.
    rewrite Hv. cbn [append many]. rewrite Hc. reflexivity. }
  assert (Hlen : idx self + 1 < String.length (s self)).
  { pose proof (PyFacts.length_drop (idx self) (s self)) as Hd. rewrite D in Hd.
    rewrite Hv in Hd. cbn [String.length append] in Hd. lia. }
  rewrite next_unfold.
  apply Nat.leb_gt in D2. rewrite D2, M. cbv zeta.
  rewrite slice_take, D. cbn [take contains]. change (Ascii.eqb " " newline) with false.
  cbn [orb]. cbv iota.
  cbn [_update_pos fst snd s].
  assert (L : Nat.leb (String.length (s self)) (idx self + 1) = false)
    by (apply Nat.leb_gt; exact Hlen).
  rewrite L.
  unfold next_rule. cbn [rules get_lexer s idx set_idx_lineno].
  rewrite first_match_drop.
  replace (idx self + 1) with (S (idx self)) by lia. rewrite D1, F.
  cbn [option_map fst snd]. rewrite Hr.
  cbn [_update_pos s idx set_idx_lineno].
  do 3 eexists. split; [reflexivity|].
  cbn [name value s idx set_last_token set_idx_lineno].
  rewrite slice_take, D1, take_append, Hk. repeat split; auto; lia.
Qed.

Lemma drain_spaced (kvs : list (string * string)) :
  forallb lexable kvs = true ->
  forall (fuel : nat) (self : Stream),
    drop (idx self) (s self) = spaced kvs ->
    List.length kvs < fuel ->
    exists evs, drain fuel self = (evs, Return tt) /\ spelled (emitted evs) = kvs.
Proof.
  induction kvs as [|[k v] kvs IH]; intros Hl fuel self D Hf;
    (destruct fuel as [|fuel]; [simpl in Hf; lia|]); cbn [drain].
  - apply PyFacts.drop_nil in D. rewrite next_unfold.
    apply Nat.leb_le in D. rewrite D. exists []. split; reflexivity.
  - cbn [forallb] in Hl. apply andb_true_iff in Hl. destruct Hl as [Hkv Hl].
    unfold spaced in D. cbn [map join fold_right snd] in D.
    fold (join (map (fun kv => " " ++ snd kv) kvs)) in D. fold (spaced kvs) in D.
    cbn [append] in D.
    destruct (next_spaced self k v (spaced kvs) D Hkv (spaced_blank_or_end kvs))
      as (sk & self' & t & E & Hn & Hv & Hs & Hi).
    rewrite E.
    destruct (IH Hl fuel self') as (evs & Hd & Hsp).
    + rewrite Hs, Hi. replace (idx self + 1 + String.length v)
        with (idx self + (1 + String.length v)) by lia.
      rewrite <- PyFacts.drop_drop, D. cbn [drop Nat.add]. apply drop_append.
    + simpl in Hf. lia.
    + rewrite Hd. eexists; split; [reflexivity|].
      rewrite emitted_skipped. cbn [emitted spelled map]. unfold spelled in Hsp.
      rewrite Hsp, Hn, Hv. reflexivity.
Qed.

Lemma spaced_length (kvs : list (string * string)) :
  List.length kvs <= String.length (spaced kvs).
Proof.
  induction kvs as [|kv kvs IH]; [simpl; lia|].
  unfold spaced in *. cbn [map join fold_right List.length].
  fold (join (map (fun kv => " " ++ snd kv) kvs)).
  rewrite !length_append. change (String.length " ") with 1. lia.
Qed.

Lemma lex_all_spaced (filename : string) (kvs : list (string * string)) :
  forallb lexable kvs = true ->
  exists evs, lex_all filename (spaced kvs) = (evs, Return tt) /\
              spelled (emitted evs) = kvs.
Proof.
  intros Hl. unfold lex_all.
  apply (drain_spaced kvs Hl).
  - simpl. now destruct (spaced kvs).
  - pose proof (spaced_length kvs). lia.
Qed.

End LexerFacts.

(** ** Claims about the lexer *)

Module LexerClaims.

Import Py Re Lexer LexerSpec LexerFacts.



Lemma terminator_eligible_spec (n : string) :
  terminator_eligible n = true <->
  In n ["RIGHT_CURLY_BRACE"; "RIGHT_PAREN"; "IDENTIFIER"; "INTEGER"].
Proof.
  unfold terminator_eligible; rewrite existsb_exists; split.
  - intros (x & Hin & E). apply String.eqb_eq in E; now subst.
  - intros H; exists n; split; auto. apply String.eqb_refl.
Qed.






(** C9, as amended.  Inside a literal, a backslash followed by a
    character other than [a b f n r t v 0 x u], the double quote and the
    backslash is one token that decodes to the backslash and that
    character; a literal that holds only such a pair, of a 7-bit
    character, lexes to a STRING token with those two characters, and so
    the literal of backslash and [q] does.  A backslash followed by [x]
    and not by two hex digits, or by [u] and by neither a hex digit nor an
    opening brace, matches no rule: the string lexer raises
    [unrecognized token] there. *)
Theorem unrecognised_escape :
  (forall (sub : Stream) (c : ascii) (rest : string) (fuel : nat),
     drop (idx sub) (s sub) = String.String backslash (String.String c rest) ->
     unrecognised c = true ->
     exists rg,
       SRLexerStream_next get_string_lexer (S fuel) sub
       = (snd (_update_pos sub (idx sub) (idx sub + 2)),
          Return (token_of "ESC_UNRECOGNISED" (two c) rg)) /\
       decode_part (token_of "ESC_UNRECOGNISED" (two c) rg) = Return (two c)) /\
  (forall c : ascii,
     unrecognised c = true -> (N_of_ascii c < 128)%N ->
     lex_all "f" (dq ++ two c ++ dq)
     = ([Emitted (token_of "STRING" (two c)
                           {| start := 0; end_ := 4; lineno := 1; colno := 1 |})],
        Return tt)) /\
  map value (emitted (fst (lex_all "f" (dq ++ "\q" ++ dq)))) = ["\q"] /\
  (forall (sub : Stream) (t : string) (fuel : nat),
     drop (idx sub) (s sub) = String.String backslash (String.String "x" t) ->
     starts_with_two_hex t = false ->
     SRLexerStream_next get_string_lexer (S fuel) sub
     = (sub, Raise (parse_error sub "unrecognized token"))) /\
  (forall (sub : Stream) (t : string) (fuel : nat),
     drop (idx sub) (s sub) = String.String backslash (String.String "u" t) ->
     starts_with_hex_or_brace t = false ->
     SRLexerStream_next get_string_lexer (S fuel) sub
     = (sub, Raise (parse_error sub "unrecognized token"))).
Proof.
  split; [|split; [|split; [|split]]].
  - intros sub c rest fuel D Hc.
    destruct (PyFacts.drop_cons _ _ _ _ D) as [_ D2].
    rewrite string_next. apply Nat.leb_gt in D2. rewrite D2.
    rewrite first_match_drop, D, (first_len_unrecognised c rest Hc).
    cbn [option_map fst snd]. rewrite slice_take, D.
    eexists; split; reflexivity.
  - intros c Hc H7.
    destruct c as [b0 b1 b2 b3 b4 b5 b6 b7].
    destruct b7, b0, b1, b2, b3, b4, b5, b6;
      first [ vm_compute in H7; discriminate
            | vm_compute in Hc; discriminate
            | vm_compute; reflexivity ].
  - vm_compute; reflexivity.
  - intros sub t fuel D Ht.
    destruct (PyFacts.drop_cons _ _ _ _ D) as [_ D2].
    rewrite string_next. apply Nat.leb_gt in D2. rewrite D2.
    rewrite first_match_drop, D.
    replace (first_len STRING_RULES (String.String backslash (String.String "x" t)))
      with (@None (string * nat)); [reflexivity|].
    destruct t as [|h1 [|h2 t']]; try reflexivity.
    + cbn [first_len STRING_RULES rmatch rep cls chr exactly].
      destruct (is_hex h1); reflexivity.
    + unfold starts_with_two_hex in Ht.
      cbn [first_len STRING_RULES rmatch rep cls chr exactly].
      destruct (is_hex h1); [|reflexivity].
      destruct (is_hex h2); [discriminate | reflexivity].
  - intros sub t fuel D Ht.
    destruct (PyFacts.drop_cons _ _ _ _ D) as [_ D2].
    rewrite string_next. apply Nat.leb_gt in D2. rewrite D2.
    rewrite first_match_drop, D.
    replace (first_len STRING_RULES (String.String backslash (String.String "u" t)))
      with (@None (string * nat)); [reflexivity|].
    destruct t as [|h t']; [reflexivity|].
    unfold starts_with_hex_or_brace in Ht. apply orb_false_elim in Ht.
    destruct Ht as [H1 H2].
    cbn [first_len STRING_RULES rmatch rep cls chr exactly].
    rewrite H1, H2. reflexivity.
Qed.

Lemma unrecognised_escape_witness :
  exists rg,
    SRLexerStream_next get_string_lexer 1 (SRLexerStream "f" (dq ++ "\q" ++ dq) 1 1)
    = (snd (_update_pos (SRLexerStream "f" (dq ++ "\q" ++ dq) 1 1) 1 3),
       Return (token_of "ESC_UNRECOGNISED" "\q" rg)) /\
    decode_part (token_of "ESC_UNRECOGNISED" "\q" rg) = Return "\q".
Proof.
  destruct unrecognised_escape as [H _].
  apply (H (SRLexerStream "f" (dq ++ "\q" ++ dq) 1 1) "q"%char dq 0); reflexivity.
Defined.

(** The claim C9 as it was stated fails for a backslash and [x] before
    characters that are not hex digits: lexing raises. *)
Lemma unrecognised_escape_counterexample :
  lex_all "f" (dq ++ "\xZZ" ++ dq)
  = ([], Raise (LexerParseError
                  {| LexerError.msg := "unrecognized token";
                     LexerError.line := dq ++ "\xZZ" ++ dq;
                     LexerError.filename := "f";
                     LexerError.lineno := 1;
                     LexerError.start_colno := 0%Z;
                     LexerError.end_colno := 1%Z |})).
Proof. vm_compute; reflexivity. Qed.

(** *** Further properties of the lexer *)

(** X1.  The line and the column of every token that the lexer emits are
    those of the first character of the token, counted from 1. *)
Theorem token_positions (filename s : string) :
  Forall (placed s) (emitted (fst (lex_all filename s))).
Proof.
  unfold lex_all.
  destruct (drain (S (String.length s)) (lex filename s)) as [evs r] eqn:D.
  apply (drain_placed _ _ _ _ (eq_refl : lineno_ok (lex filename s)) D).
Qed.

(** X2.  Every token that the lexer emits has a kind of [TOKENS], and
    its kind tells what its text is: an INTEGER is one decimal digit or
    more, an IDENTIFIER is a word that is no keyword, a keyword has the
    upper-case form of its text as its kind, a SEMICOLON that the text
    does not spell is whitespace in which a newline stands, and a token
    of a punctuation rule is the text of that rule. *)
Theorem token_shapes (filename s : string) :
  Forall (fun t => In (name t) TOKENS /\ shaped t) (emitted (fst (lex_all filename s))).
Proof.
  unfold lex_all.
  destruct (drain (S (String.length s)) (lex filename s)) as [evs r] eqn:D.
  eapply (drain_reachable filename s); [|constructor|exact D].
  intros self self' sk t _ E. eapply next_shaped; eauto.
Qed.

(** X3.  [getsrcpos] gives, for every token that the lexer emits, a
    start before an end that is inside the text: no token is empty. *)
Theorem token_spans (filename s : string) :
  Forall (fun t => exists a b, getsrcpos t = Return (a, b) /\ a < b /\ b <= String.length s)
         (emitted (fst (lex_all filename s))).
Proof.
  unfold lex_all.
  destruct (drain (S (String.length s)) (lex filename s)) as [evs r] eqn:D.
  eapply (drain_reachable filename s); [|constructor|exact D].
  intros self self' sk t Hr E.
  destruct (next_range _ _ _ _ _ _ Hr E) as (rg & H1 & _ & H2 & H3).
  exists (start rg), (end_ rg). unfold getsrcpos. rewrite H1. auto.
Qed.

(** X4.  Where a word stands that no letter, digit or underscore
    follows, [next] emits one token with the whole word as its text: of
    the kind that is the upper-case form of the word when the word is a
    keyword, and an IDENTIFIER otherwise.  So a word that a keyword only
    starts is an IDENTIFIER. *)
Theorem word_token (self : Stream) (w rest : string) :
  drop (idx self) (s self) = w ++ rest ->
  word w = true -> starts_with ident_char rest = false ->
  next self =
  emits self
        {| name := if KEYWORD_DICT w then upper w else "IDENTIFIER";
           value := w;
           source_pos :=
             Some (fst (_update_pos self (idx self) (idx self + String.length w))) |}
        (String.length w).
Proof.
  intros D Hw Hrest. destruct w as [|c r]; [discriminate|].
  cbn [word] in Hw. apply andb_true_iff in Hw. destruct Hw as [Hc Hr].
  destruct (ident_start_classes c Hc) as [_ Hsp].
  cbn [append] in D.
  rewrite (next_at_rule self c (r ++ rest) "IDENTIFIER" (S (String.length r)) D Hsp
             (word_first_len c r rest Hc Hr Hrest) eq_refl).
  unfold token_at. rewrite slice_take, D.
  change (String.String c (r ++ rest)) with (String.String c r ++ rest).
  change (S (String.length r)) with (String.length (String.String c r)).
  rewrite take_append. reflexivity.
Qed.

Lemma word_token_witness :
  next (lex "f" "define x")
  = emits (lex "f" "define x")
          {| name := "IDENTIFIER"; value := "define";
             source_pos := Some {| start := 0; end_ := 6; lineno := 1; colno := 1 |} |}
          6.
Proof. apply (word_token (lex "f" "define x") "define" " x"); reflexivity. Defined.

(** X5.  Where decimal digits stand that no digit follows, [next] emits
    one INTEGER token with all of them as its text. *)
Theorem number_token (self : Stream) (w rest : string) :
  drop (idx self) (s self) = w ++ rest ->
  number w = true -> starts_with is_digit rest = false ->
  next self =
  emits self
        {| name := "INTEGER"; value := w;
           source_pos :=
             Some (fst (_update_pos self (idx self) (idx self + String.length w))) |}
        (String.length w).
Proof.
  intros D Hw Hrest.
  assert (K : KEYWORD_DICT w = false).
  { destruct (KEYWORD_DICT w) eqn:K; auto.
    destruct (keyword_facts w K) as [Hn _]. congruence. }
  destruct w as [|c r]; [discriminate|].
  cbn [number] in Hw. apply andb_true_iff in Hw. destruct Hw as [Hc Hr].
  destruct (is_digit_classes c Hc) as [_ Hsp].
  cbn [append] in D.
  rewrite (next_at_rule self c (r ++ rest) "INTEGER" (S (String.length r)) D Hsp
             (number_first_len c r rest Hc Hr Hrest) eq_refl).
  unfold token_at. rewrite slice_take, D.
  change (String.String c (r ++ rest)) with (String.String c r ++ rest).
  change (S (String.length r)) with (String.length (String.String c r)).
  rewrite take_append, K. reflexivity.
Qed.

Lemma number_token_witness :
  next (lex "f" "12abc")
  = emits (lex "f" "12abc")
          {| name := "INTEGER"; value := "12";
             source_pos := Some {| start := 0; end_ := 2; lineno := 1; colno := 1 |} |}
          2.
Proof. apply (number_token (lex "f" "12abc") "12" "abc"); reflexivity. Defined.

(** X6.  A string literal is decoded piece by piece.  At an opening
    quote that is followed by characters and escapes and then by a
    closing quote, [next] emits one STRING token over the literal with
    its quotes; the value is what the pieces stand for, in order: a
    character for itself, an escaped quote or backslash for that
    character, a simple escape for the character of the dictionary, a hex
    escape for the UTF-8 bytes of its code point, and an unrecognised
    escape for its two characters.  A hex escape that is no character
    raises, the first of them first, and a value that is not UTF-8 raises
    [UnicodeError]. *)
Theorem string_literal (self : Stream) (ps : list piece) (rest : string) :
  Forall (fun p => well_written p = true) ps ->
  drop (idx self) (s self)
  = String.String dquote (join (map written ps) ++ String.String dquote rest) ->
  next self = literal_outcome self ps.
Proof.
  intros Hps D. rewrite (next_at_quote self _ D).
  destruct (PyFacts.drop_cons _ _ _ _ D) as [D1 D2].
  unfold lex_string, literal_outcome.
  rewrite (lex_string_loop_pieces self ps Hps (enough self) _ [] 1 rest).
  - destruct (decode_all ps) as [vs|e|]; try reflexivity.
    cbn [app]. rewrite concat_join. unfold Runicode.str_decode_utf_8.
    destruct (Runicode.well_formed (join vs)); [|reflexivity].
    replace (1 + String.length (join (map written ps)) + 1)
      with (String.length (join (map written ps)) + 2) by lia.
    reflexivity.
  - cbn [idx s SRLexerStream]. replace (idx self + 1) with (S (idx self)) by lia. exact D1.
  - unfold enough.
    pose proof (PyFacts.length_drop (idx self) (s self)) as Hl. rewrite D in Hl.
    cbn [String.length] in Hl. rewrite length_append in Hl.
    pose proof (join_written_length ps). lia.
Qed.

Lemma string_literal_witness :
  next (lex "f" (dq ++ "a\n\x41\u{1F600}\q" ++ dq ++ ";"))
  = literal_outcome (lex "f" (dq ++ "a\n\x41\u{1F600}\q" ++ dq ++ ";"))
      [char "a"; esc_simple "n"; esc_hex_8 "4" "1"; esc_hex_any "1" "F600";
       esc_unrecognised "q"].
Proof.
  apply (string_literal (lex "f" (dq ++ "a\n\x41\u{1F600}\q" ++ dq ++ ";"))
           [char "a"; esc_simple "n"; esc_hex_8 "4" "1"; esc_hex_any "1" "F600";
            esc_unrecognised "q"] ";").
  - repeat constructor.
  - reflexivity.
Defined.

(** X7.  A literal of 7-bit characters without quote and backslash has
    its body as its value. *)
Theorem plain_literal (self : Stream) (body rest : string) :
  drop (idx self) (s self) = String.String dquote (body ++ String.String dquote rest) ->
  all plain body = true ->
  next self =
  emits self
        {| name := "STRING"; value := body;
           source_pos :=
             Some (fst (_update_pos self (idx self)
                                    (idx self + (String.length body + 2)))) |}
        (String.length body + 2).
Proof.
  intros D Hb.
  destruct (plain_pieces body Hb) as (I1 & I2 & I3 & I4).
  rewrite (next_at_quote self _ D).
  destruct (PyFacts.drop_cons _ _ _ _ D) as [D1 D2].
  unfold lex_string.
  rewrite (lex_string_loop_pieces self _ I1 (enough self) _ [] 1 rest).
  - rewrite I3, I2. cbn [app]. rewrite concat_join, I4.
    unfold Runicode.str_decode_utf_8. rewrite (plain_well_formed body Hb).
    replace (1 + String.length body + 1) with (String.length body + 2) by lia.
    reflexivity.
  - rewrite I2. cbn [idx s SRLexerStream].
    replace (idx self + 1) with (S (idx self)) by lia. exact D1.
  - unfold enough.
    pose proof (PyFacts.length_drop (idx self) (s self)) as Hl. rewrite D in Hl.
    cbn [String.length] in Hl. rewrite length_append in Hl.
    pose proof (join_written_length (map char (list_ascii_of_string body))) as Hj.
    rewrite I2 in Hj. lia.
Qed.

Lemma plain_literal_witness :
  next (lex "f" (dq ++ "def x" ++ dq))
  = emits (lex "f" (dq ++ "def x" ++ dq))
          {| name := "STRING"; value := "def x";
             source_pos := Some {| start := 0; end_ := 7; lineno := 1; colno := 1 |} |}
          7.
Proof. apply (plain_literal (lex "f" (dq ++ "def x" ++ dq)) "def x" ""); reflexivity. Defined.


(** X9.  Lexing raises [AttributeError] for the texts that start with
    whitespace in which a newline stands, and for no other text: there
    the first call asks the last token, which is not there, for its
    kind. *)
Theorem missing_last_token (filename s : string) :
  snd (lex_all filename s) = Raise AttributeError <-> starts_with_blank_line s.
Proof.
  split.
  - intros H. destruct (lex_all filename s) as [evs r] eqn:D. cbn [snd] in H. subst r.
    destruct (drain_exception _ _ _ _ D) as [[_ H]|H]; [exact H | contradiction].
  - intros H. rewrite (blank_line_raises filename s H). reflexivity.
Qed.

Lemma missing_last_token_witness :
  snd (lex_all "f" (nl ++ "class A { }")) = Raise AttributeError.
Proof.
  apply (proj2 (missing_last_token "f" (nl ++ "class A { }"))).
  exists 1; split; reflexivity.
Defined.

(** X10.  The text of a [ParseError] of the lexer, as [__str__] makes
    it, is the line of the error, a newline, blanks, six fewer than the
    start column or none, and one caret. *)
Theorem error_message (filename s : string) :
  match snd (lex_all filename s) with
  | Raise (LexerParseError pe) =>
      LexerError.__str__ pe
      = ((LexerError.line pe ++ nl)
         ++ Py.mul " " (LexerError.start_colno pe - 6)) ++ "^"
  | _ => True
  end.
Proof.
  pose proof (drain_exception filename s) as He.
  destruct (lex_all filename s) as [evs [[]|e|]]; cbn [snd]; try exact I.
  destruct e; try exact I.
  destruct (He evs _ eq_refl) as [[H _]|H]; [discriminate|].
  destruct H as (_ & _ & _ & _ & H).
  unfold LexerError.__str__. rewrite H.
  replace (LexerError.start_colno e + 1 - LexerError.start_colno e)%Z with 1%Z by lia.
  reflexivity.
Qed.

(** X11.  Tokens that are written one after another, with a blank before
    each, are read back as they were written: the lexer drains the text
    without an error, and the kinds and the texts of its tokens are those
    that were written.  This holds for keywords, other words, numbers and
    punctuation. *)
Theorem spaced_tokens (filename : string) (kvs : list (string * string)) :
  forallb lexable kvs = true ->
  snd (lex_all filename (spaced kvs)) = Return tt /\
  spelled (emitted (fst (lex_all filename (spaced kvs)))) = kvs.
Proof.
  intros Hl. destruct (lex_all_spaced filename kvs Hl) as (evs & E & Hs).
  rewrite E. split; [reflexivity | exact Hs].
Qed.

Lemma spaced_tokens_witness :
  snd (lex_all "f" " class A ( B ) { }") = Return tt /\
  spelled (emitted (fst (lex_all "f" " class A ( B ) { }")))
  = [("CLASS", "class"); ("IDENTIFIER", "A"); ("LEFT_PAREN", "(");
     ("IDENTIFIER", "B"); ("RIGHT_PAREN", ")"); ("LEFT_CURLY_BRACE", "{");
     ("RIGHT_CURLY_BRACE", "}")].
Proof.
  apply (spaced_tokens "f"
           [("CLASS", "class"); ("IDENTIFIER", "A"); ("LEFT_PAREN", "(");
            ("IDENTIFIER", "B"); ("RIGHT_PAREN", ")"); ("LEFT_CURLY_BRACE", "{");
            ("RIGHT_CURLY_BRACE", "}")]).
  reflexivity.
Defined.

End LexerClaims.

(** ** The parser *)

Module ParserFacts.

Import Py Lexer Parser LexerSpec ParserSpec LexerFacts.

(** *** One turn of the loop *)

Section Turns.

Variable T : Type.
Variable pull : T -> T * result Token.
Variable table : Rply.LRTable.

Lemma loop_fetch (fuel : nat) (tokenizer tokenizer' : T) (la : Token)
    (sym : list Ast.node) (sst : list nat) (st : nat) (state : ParsingState) :
  nth st (Rply.default_reductions table) 0%Z = 0%Z ->
  pull tokenizer = (tokenizer', Return la) ->
  loop T pull table (S fuel) tokenizer None sym sst st state
  = loop T pull table (S fuel) tokenizer' (Some la) sym sst st state.
Proof.
  intros Hd Hp. unfold loop; cbn [Rply.parse_loop]. rewrite Hd, Hp. reflexivity.
Qed.

Lemma loop_fetch_end (fuel : nat) (tokenizer tokenizer' : T)
    (sym : list Ast.node) (sst : list nat) (st : nat) (state : ParsingState) :
  nth st (Rply.default_reductions table) 0%Z = 0%Z ->
  pull tokenizer = (tokenizer', Raise StopIteration) ->
  loop T pull table (S fuel) tokenizer None sym sst st state
  = loop T pull table (S fuel) tokenizer' (Some Rply.end_token) sym sst st state.
Proof.
  intros Hd Hp. unfold loop; cbn [Rply.parse_loop]. rewrite Hd, Hp. reflexivity.
Qed.

Lemma loop_fetch_raise (fuel : nat) (tokenizer tokenizer' : T) (e : exn)
    (sym : list Ast.node) (sst : list nat) (st : nat) (state : ParsingState) :
  nth st (Rply.default_reductions table) 0%Z = 0%Z ->
  pull tokenizer = (tokenizer', Raise e) -> e <> StopIteration ->
  loop T pull table (S fuel) tokenizer None sym sst st state = Raise e.
Proof.
  intros Hd Hp Hne. unfold loop; cbn [Rply.parse_loop]. rewrite Hd, Hp.
  destruct e; try reflexivity. congruence.
Qed.

Lemma loop_reject (fuel : nat) (tokenizer : T) (la : Token)
    (sym : list Ast.node) (sst : list nat) (st : nat) (state : ParsingState) :
  nth st (Rply.default_reductions table) 0%Z = 0%Z ->
  Rply.assoc_get (gettokentype la) (nth st (Rply.lr_action table) []) = None ->
  loop T pull table (S fuel) tokenizer (Some la) sym sst st state
  = match errorhandler state la with
    | Return _ => Raise AssertionError
    | Raise e => Raise e
    | OutOfFuel => OutOfFuel
    end.
Proof.
  intros Hd Ha. unfold loop; cbn [Rply.parse_loop]. rewrite Hd, Ha. reflexivity.
Qed.

End Turns.

(** *** The error handler *)

Lemma errorhandler_token (state : ParsingState) (la : Token) (pos : SourceRange)
    (line : string) :
  getsourcepos la = Some pos ->
  getitem (splitlines (input state)) (Z.of_nat (lineno pos) - 1) = Some line ->
  errorhandler state la = Raise (ParserParseError (report line la pos)).
Proof. intros Hp Hl. unfold errorhandler. rewrite Hp, Hl. reflexivity. Qed.

(** The line of a token of the text is one of the lines of the text. *)
Lemma token_line (text : string) (pos : SourceRange) :
  start pos < String.length text ->
  lineno pos = S (count newline text 0 (start pos)) ->
  exists line, getitem (splitlines text) (Z.of_nat (lineno pos) - 1) = Some line.
Proof.
  intros Hlt Hl. rewrite Hl. apply getitem_nat.
  unfold count, slice, splitlines. rewrite Nat.sub_0_r.
  replace (drop 0 text) with text by (now destruct text).
  eapply lines_enough; eauto.
Qed.

(** A token that the lexer gives for the text has a position, and its
    line is there. *)
Lemma next_token_line (filename text : string) (self self' : Stream)
    (sk : list SourceRange) (t : Token) :
  reachable filename text self ->
  next self = (sk, (self', Return t)) ->
  In (name t) TOKENS /\
  exists pos line,
    source_pos t = Some pos /\
    getitem (splitlines text) (Z.of_nat (lineno pos) - 1) = Some line.
Proof.
  intros Hr E.
  destruct (next_shaped _ _ _ _ E) as [Hk _]. split; [exact Hk|].
  destruct (next_range _ _ _ _ _ _ Hr E) as (pos & Hp & _ & H1 & H2).
  destruct (reachable_ok _ _ _ Hr) as (Hs & Hok & _).
  pose proof (next_fuel_placed (enough self) self self' sk t Hok E) as Hpl.
  unfold placed in Hpl. rewrite Hp, Hs in Hpl. destruct Hpl as [Hl _].
  destruct (token_line text pos) as [line Hline]; [lia | exact Hl |].
  exists pos, line; auto.
Qed.

(** *** The start of a program *)

Lemma state_2_rejects (k : string) :
  In k TOKENS ->
  k = "CLASS" \/
  Rply.assoc_get k (nth 2 (Rply.lr_action the_table) []) = None.
Proof.
  intros Hin.
  assert (H : forallb (fun k => String.eqb k "CLASS" ||
                                match Rply.assoc_get k (nth 2 (Rply.lr_action the_table) [])
                                with None => true | Some _ => false end) TOKENS = true)
    by (vm_compute; reflexivity).
  rewrite forallb_forall in H. specialize (H k Hin).
  apply orb_true_iff in H. destruct H as [H|H].
  - left. now apply String.eqb_eq.
  - right. destruct (Rply.assoc_get k _); [discriminate | reflexivity].
Qed.

Lemma parse_loop_start (T : Type) (pull : T -> T * result Token) (fuel : nat)
    (tokenizer : T) (state : ParsingState) :
  parse_with pull (S fuel) tokenizer state
  = loop T pull the_table fuel tokenizer None
         [Ast.Program []; Ast.Tok Rply.end_token] [2; 0] 2 state.
Proof. reflexivity. Qed.

(** *** The parser over the stream and over the list of its tokens *)

Lemma feeds_pull (stream : Stream) (tokens : list Token) :
  feeds stream tokens ->
  (exists t stream' tokens',
     pull_stream stream = (stream', Return t) /\ tokens = t :: tokens' /\
     feeds stream' tokens')
  \/
  (exists stream',
     pull_stream stream = (stream', Raise StopIteration) /\ tokens = [] /\
     feeds stream' []).
Proof.
  intros (fuel & evs & D & He). destruct fuel as [|fuel]; [discriminate|].
  cbn [drain] in D. unfold pull_stream.
  pose proof (next_fuel_advances (enough stream) stream) as Ha. fold (next stream) in Ha.
  destruct (next stream) as [sk [stream' [t|e|]]].
  - destruct (drain fuel stream') as [evs' r'] eqn:D'.
    inversion D; subst. left. exists t, stream', (emitted evs').
    rewrite emitted_skipped. repeat split; auto. exists fuel, evs'; auto.
  - destruct e; try discriminate. inversion D; subst. right.
    exists stream'. pose proof (emitted_skipped sk []) as E0. rewrite app_nil_r in E0.
    repeat split; auto.
    exists 1, []. split; [|reflexivity].
    destruct Ha as (Hs & _ & Hl & _). cbn [fst snd] in Hs, Hl.
    cbn [drain]. rewrite next_unfold.
    rewrite Hs. apply Nat.leb_le in Hl. rewrite Hl. reflexivity.
  - discriminate.
Qed.

Section Simulation.

Variable table : Rply.LRTable.

Lemma loop_simulation (fuel : nat) :
  forall (stream : Stream) (tokens : list Token) (la : option Token)
         (sym : list Ast.node) (sst : list nat) (st : nat) (state : ParsingState),
    feeds stream tokens ->
    loop Stream pull_stream table fuel stream la sym sst st state
    = loop (list Token) list_next table fuel tokens la sym sst st state.
Proof.
  induction fuel as [|fuel IH]; intros stream tokens la sym sst st state Hf;
    [reflexivity|].
  assert (Hsome : forall (stream : Stream) (tokens : list Token) (t : Token),
             feeds stream tokens ->
             loop Stream pull_stream table (S fuel) stream (Some t) sym sst st state
             = loop (list Token) list_next table (S fuel) tokens (Some t) sym sst st state).
  { clear stream tokens Hf. intros stream tokens t Hf.
    unfold loop; cbn [Rply.parse_loop].
    destruct (negb _).
    - destruct (Rply._reduce_production _ _ _ _ _ _ _ _) as [[[a b] c]|e|]; try reflexivity.
      apply IH; exact Hf.
    - destruct (Rply.assoc_get _ _) as [z|]; [|reflexivity].
      destruct (0 <? z)%Z; [apply IH; exact Hf|].
      destruct (z <? 0)%Z; [|reflexivity].
      destruct (Rply._reduce_production _ _ _ _ _ _ _ _) as [[[a b] c]|e|]; try reflexivity.
      apply IH; exact Hf. }
  destruct la as [t|]; [apply Hsome; exact Hf|].
  destruct (Z.eqb (nth st (Rply.default_reductions table) 0%Z) 0) eqn:Hd.
  - apply Z.eqb_eq in Hd.
    destruct (feeds_pull _ _ Hf) as [(t & stream' & tokens' & Hp & Ht & Hf')
                                    |(stream' & Hp & Ht & Hf')]; subst tokens.
    + rewrite (loop_fetch _ _ _ fuel stream stream' t _ _ _ _ Hd Hp).
      rewrite (loop_fetch _ _ _ fuel (t :: tokens') tokens' t _ _ _ _ Hd eq_refl).
      apply Hsome; exact Hf'.
    + rewrite (loop_fetch_end _ _ _ fuel stream stream' _ _ _ _ Hd Hp).
      rewrite (loop_fetch_end _ _ _ fuel [] [] _ _ _ _ Hd eq_refl).
      apply Hsome; exact Hf'.
  - unfold loop; cbn [Rply.parse_loop]. rewrite Hd. cbn [negb].
    destruct (Rply._reduce_production _ _ _ _ _ _ _ _) as [[[a b] c]|e|]; try reflexivity.
    apply IH; exact Hf.
Qed.

End Simulation.

(** *** Classes *)

Lemma class_tree_induction (P : class_tree -> Prop) :
  (forall n p ms, Forall P ms -> P (class_of n p ms)) -> forall c, P c.
Proof.
  intros H. fix IH 1. intros [n p ms]. apply H.
  induction ms as [|m ms IHms]; constructor; [apply IH | exact IHms].
Qed.

Lemma spelled_cons (ts : list Token) (k v : string) (kvs : list (string * string)) :
  spelled ts = (k, v) :: kvs ->
  exists t ts', ts = t :: ts' /\ name t = k /\ value t = v /\ spelled ts' = kvs.
Proof.
  destruct ts as [|t ts']; [discriminate|].
  cbn [spelled map]. intros H; inversion H; subst. exists t, ts'; auto.
Qed.

Lemma spelled_app (ts : list Token) (k1 k2 : list (string * string)) :
  spelled ts = (k1 ++ k2)%list ->
  exists t1 t2, ts = (t1 ++ t2)%list /\ spelled t1 = k1 /\ spelled t2 = k2.
Proof.
  revert ts; induction k1 as [|[k v] k1 IH]; intros ts H.
  - exists [], ts; auto.
  - cbn [app] in H. apply spelled_cons in H. destruct H as (t & ts' & -> & Hn & Hv & H).
    destruct (IH _ H) as (t1 & t2 & -> & H1 & H2).
    exists (t :: t1), t2. repeat split; auto.
    cbn [spelled map]. unfold spelled in H1. rewrite H1, Hn, Hv. reflexivity.
Qed.

Lemma spelled_one (ts : list Token) (k v : string) :
  spelled ts = [(k, v)] -> exists t, ts = [t] /\ name t = k /\ value t = v.
Proof.
  intros H. apply spelled_cons in H. destruct H as (t & ts' & -> & Hn & Hv & H).
  destruct ts'; [|discriminate]. exists t; auto.
Qed.

Section Classes.

Variable state : ParsingState.

Lemma class_opens (ctx : body_context) (t1 t2 t3 : Token) (rest : list Token) (fuel : nat)
    (acc : list Ast.element) (v : Ast.node) (sym : list Ast.node) (sst : list nat) :
  name t1 = "CLASS" -> name t2 = "IDENTIFIER" -> name t3 = "LEFT_CURLY_BRACE" ->
  run (4 + fuel) (t1 :: t2 :: t3 :: rest) None
      (Ast.Program acc :: v :: sym)
      (body_state ctx :: base_state ctx :: sst) (body_state ctx) state
  = run fuel rest None
        (Ast.Program [] :: Ast.Tok t3 :: Ast.Tok t2 :: Ast.Tok t1
         :: Ast.Program acc :: v :: sym)
        (body_state in_class :: base_state in_class :: 9 :: 7
         :: body_state ctx :: base_state ctx :: sst)
        (body_state in_class) state.
Proof.
  destruct t1, t2, t3; cbn [name]; intros; subst; destruct ctx; reflexivity.
Qed.

Lemma class_closes (ctx : body_context) (t1 t2 t3 t4 : Token) (rest : list Token)
    (fuel : nat) (ms acc : list Ast.element) (v : Ast.node) (sym : list Ast.node)
    (sst : list nat) :
  name t4 = "RIGHT_CURLY_BRACE" ->
  run (4 + fuel) (t4 :: rest) None
      (Ast.Program ms :: Ast.Tok t3 :: Ast.Tok t2 :: Ast.Tok t1
       :: Ast.Program acc :: v :: sym)
      (body_state in_class :: base_state in_class :: 9 :: 7
       :: body_state ctx :: base_state ctx :: sst)
      (body_state in_class) state
  = run fuel rest None
        (Ast.Program (acc ++ [Ast.ClassDefinition (value t2) ms None]) :: v :: sym)
        (body_state ctx :: base_state ctx :: sst) (body_state ctx) state.
Proof.
  destruct t4; cbn [name]; intros; subst; destruct ctx; reflexivity.
Qed.

Lemma subclass_opens (ctx : body_context) (t1 t2 t3 t4 t5 t6 : Token) (rest : list Token)
    (fuel : nat) (acc : list Ast.element) (v : Ast.node) (sym : list Ast.node)
    (sst : list nat) :
  name t1 = "CLASS" -> name t2 = "IDENTIFIER" -> name t3 = "LEFT_PAREN" ->
  name t4 = "IDENTIFIER" -> name t5 = "RIGHT_PAREN" -> name t6 = "LEFT_CURLY_BRACE" ->
  run (7 + fuel) (t1 :: t2 :: t3 :: t4 :: t5 :: t6 :: rest) None
      (Ast.Program acc :: v :: sym)
      (body_state ctx :: base_state ctx :: sst) (body_state ctx) state
  = run fuel rest None
        (Ast.Program [] :: Ast.Tok t6 :: Ast.Tok t5 :: Ast.Tok t4 :: Ast.Tok t3
         :: Ast.Tok t2 :: Ast.Tok t1 :: Ast.Program acc :: v :: sym)
        (body_state in_subclass :: base_state in_subclass :: 23 :: 18 :: 13 :: 9 :: 7
         :: body_state ctx :: base_state ctx :: sst)
        (body_state in_subclass) state.
Proof.
  destruct t1, t2, t3, t4, t5, t6; cbn [name]; intros; subst; destruct ctx; reflexivity.
Qed.

Lemma subclass_closes (ctx : body_context) (t1 t2 t3 t4 t5 t6 t7 : Token)
    (rest : list Token) (fuel : nat) (ms acc : list Ast.element) (v : Ast.node)
    (sym : list Ast.node) (sst : list nat) :
  name t7 = "RIGHT_CURLY_BRACE" ->
  run (4 + fuel) (t7 :: rest) None
      (Ast.Program ms :: Ast.Tok t6 :: Ast.Tok t5 :: Ast.Tok t4 :: Ast.Tok t3
       :: Ast.Tok t2 :: Ast.Tok t1 :: Ast.Program acc :: v :: sym)
      (body_state in_subclass :: base_state in_subclass :: 23 :: 18 :: 13 :: 9 :: 7
       :: body_state ctx :: base_state ctx :: sst)
      (body_state in_subclass) state
  = run fuel rest None
        (Ast.Program (acc ++ [Ast.ClassDefinition (value t2) ms (Some (value t4))])
         :: v :: sym)
        (body_state ctx :: base_state ctx :: sst) (body_state ctx) state.
Proof.
  destruct t7; cbn [name]; intros; subst; destruct ctx; reflexivity.
Qed.

Lemma classes_run_nil : classes_run state [].
Proof.
  intros ctx ts rest fuel acc v sym sst H.
  destruct ts; [|discriminate]. cbn [flat_map map list_sum app Nat.add].
  now rewrite app_nil_r.
Qed.

Lemma classes_run_cons (c : class_tree) (cs : list class_tree) :
  classes_run state [c] -> classes_run state cs -> classes_run state (c :: cs).
Proof.
  intros Hc Hcs ctx ts rest fuel acc v sym sst H.
  cbn [flat_map] in H. apply spelled_app in H. destruct H as (t1 & t2 & -> & H1 & H2).
  replace (list_sum (map class_turns (c :: cs)) + fuel)
    with (list_sum (map class_turns [c]) + (list_sum (map class_turns cs) + fuel))
    by (simpl; lia).
  rewrite <- app_assoc.
  rewrite (Hc ctx t1); [|cbn [flat_map]; rewrite app_nil_r; exact H1].
  rewrite (Hcs ctx t2); [|exact H2].
  cbn [map]. rewrite <- app_assoc. reflexivity.
Qed.

Lemma classes_run_all (cs : list class_tree) : classes_run state cs.
Proof.
  assert (H1 : forall c, classes_run state [c]).
  { induction c as [n p ms IH] using class_tree_induction.
    assert (Hms : classes_run state ms).
    { induction IH as [|m ms Hm _ IHms]; [apply classes_run_nil|].
      apply classes_run_cons; assumption. }
    clear IH. intros ctx ts rest fuel acc v sym sst H.
    cbn [flat_map class_written] in H. rewrite app_nil_r in H.
    cbn [map class_node].
    destruct p as [q|]; cbn [app] in H.
    - apply spelled_cons in H. destruct H as (t1 & ts1 & -> & N1 & _ & H).
      apply spelled_cons in H. destruct H as (t2 & ts2 & -> & N2 & V2 & H).
      apply spelled_cons in H. destruct H as (t3 & ts3 & -> & N3 & _ & H).
      apply spelled_cons in H. destruct H as (t4 & ts4 & -> & N4 & V4 & H).
      apply spelled_cons in H. destruct H as (t5 & ts5 & -> & N5 & _ & H).
      apply spelled_cons in H. destruct H as (t6 & ts6 & -> & N6 & _ & H).
      apply spelled_app in H. destruct H as (tm & t7s & -> & Hm & H).
      apply spelled_one in H. destruct H as (t7 & -> & N7 & _).
      replace (list_sum [class_turns (class_of n (Some q) ms)] + fuel)
        with (7 + (list_sum (map class_turns ms) + (4 + fuel))) by (simpl; lia).
      cbn [app]. rewrite <- app_assoc.
      rewrite (subclass_opens ctx t1 t2 t3 t4 t5 t6); auto.
      rewrite (Hms in_subclass tm); [|exact Hm].
      cbn [app]. rewrite (subclass_closes ctx t1 t2 t3 t4 t5 t6 t7); auto.
      rewrite V2, V4. reflexivity.
    - apply spelled_cons in H. destruct H as (t1 & ts1 & -> & N1 & _ & H).
      apply spelled_cons in H. destruct H as (t2 & ts2 & -> & N2 & V2 & H).
      apply spelled_cons in H. destruct H as (t3 & ts3 & -> & N3 & _ & H).
      apply spelled_app in H. destruct H as (tm & t4s & -> & Hm & H).
      apply spelled_one in H. destruct H as (t4 & -> & N4 & _).
      replace (list_sum [class_turns (class_of n None ms)] + fuel)
        with (4 + (list_sum (map class_turns ms) + (4 + fuel))) by (simpl; lia).
      cbn [app]. rewrite <- app_assoc.
      rewrite (class_opens ctx t1 t2 t3); auto.
      rewrite (Hms in_class tm); [|exact Hm].
      cbn [app]. rewrite (class_closes ctx t1 t2 t3 t4); auto.
      rewrite V2. reflexivity. }
  induction cs as [|c cs IH]; [apply classes_run_nil|].
  apply classes_run_cons; auto.
Qed.

End Classes.

(** *** Statements *)

Lemma statement_induction (P : statement -> Prop) :
  (forall x, P (expression_statement x)) ->
  (forall f args, P (call_statement f args)) ->
  (forall x0 xs, P (var_statement x0 xs)) ->
  (forall n x, P (assignment n x)) ->
  (forall o a x, P (attribute_assignment o a x)) ->
  (forall x, P (return_statement x)) ->
  (forall x, P (raise_statement x)) ->
  (forall c body, Forall P body -> P (while_loop c body)) ->
  (forall c body, Forall P body -> P (if_block c body)) ->
  (forall body e handler, Forall P body -> Forall P handler ->
                          P (try_except body e handler)) ->
  forall s, P s.
Proof.
  intros H1 H2 H3 H4 H5 H6 H7 H8 H9 H10. fix IH 1.
  intros [x|f args|x0 xs|n x|o a x|x|x|c body|c body|body e handler].
  - apply H1.
  - apply H2.
  - apply H3.
  - apply H4.
  - apply H5.
  - apply H6.
  - apply H7.
  - apply H8. induction body as [|s b IHb]; constructor; [apply IH | exact IHb].
  - apply H9. induction body as [|s b IHb]; constructor; [apply IH | exact IHb].
  - apply H10.
    + induction body as [|s b IHb]; constructor; [apply IH | exact IHb].
    + induction handler as [|s b IHb]; constructor; [apply IH | exact IHb].
Qed.

Section Statements.

Variable pos : option SourceRange.
Variable state : ParsingState.

(** **** Names after [var] *)

Lemma var_shift (xs : list string) :
  forall (rxs : list string) (fuel : nat) (rest : list Token) (sym : list Ast.node)
         (sst : list nat),
    run (2 * List.length xs + fuel) (more pos xs ++ rest) None
        (syms_of pos rxs sym) (var_states rxs sst) (var_top rxs) state
    = run fuel rest None (syms_of pos (rev xs ++ rxs) sym)
          (var_states (rev xs ++ rxs) sst) (var_top (rev xs ++ rxs)) state.
Proof.
  induction xs as [|x xs IH]; intros rxs fuel rest sym sst.
  - reflexivity.
  - replace (2 * List.length (x :: xs) + fuel)
      with (S (S (2 * List.length xs + fuel))) by (simpl; lia).
    replace (rev (x :: xs) ++ rxs)%list with (rev xs ++ x :: rxs)%list
      by (simpl; rewrite <- app_assoc; reflexivity).
    rewrite <- IH.
    destruct rxs; reflexivity.
Qed.

Lemma var_reduce_empty (rxs : list string) (fuel : nat) (rest : list Token)
    (v : Ast.node) (sym : list Ast.node) (sst : list nat) :
  run (S fuel) (semicolon pos :: rest) None (syms_of pos rxs (v :: sym))
      (var_states rxs sst) (var_top rxs) state
  = run fuel rest (Some (semicolon pos))
        (Ast.VarDeclPartial [] :: syms_of pos rxs (v :: sym))
        (var_goto rxs :: var_states rxs sst) (var_goto rxs) state.
Proof. destruct rxs; reflexivity. Qed.

Lemma var_unwind (rxs : list string) :
  forall (acc : list string) (fuel : nat) (rest : list Token) (la : option Token)
         (v : Ast.node) (sym : list Ast.node) (sst : list nat),
    run (List.length rxs + fuel) rest la
        (Ast.VarDeclPartial acc :: syms_of pos rxs (v :: sym))
        (var_goto rxs :: var_states rxs sst) (var_goto rxs) state
    = run fuel rest la (Ast.VarDeclPartial (rev rxs ++ acc) :: v :: sym)
          (78 :: 55 :: sst) 78 state.
Proof.
  induction rxs as [|x r IH]; intros acc fuel rest la v sym sst.
  - reflexivity.
  - replace (rev (x :: r) ++ acc)%list with (rev r ++ x :: acc)%list
      by (simpl; rewrite <- app_assoc; reflexivity).
    rewrite <- IH.
    destruct r; reflexivity.
Qed.

Lemma var_statement_run (x0 : string) (xs : list string) :
  statements_run pos state [var_statement x0 xs].
Proof.
  intros ctx rest fuel acc v sym sst.
  cbn [map list_sum flat_map statement_tokens statement_node statement_turns].
  rewrite !app_nil_r.
  replace (list_sum [3 * List.length xs + 6] + fuel)
    with (2 + (2 * List.length xs + (S (List.length (rev xs) + (3 + fuel)))))
    by (rewrite length_rev; simpl; lia).
  rewrite <- !app_assoc.
  transitivity
    (run (2 * List.length xs + S (List.length (rev xs) + (3 + fuel)))
         (more pos xs ++ [semicolon pos] ++ rest) None
         (syms_of pos [] (Ast.Tok (ident pos x0) :: Ast.Tok (tok "VAR" "var" pos)
                          :: Ast.FunctionBody acc :: v :: sym))
         (var_states [] (30 :: block_state ctx :: block_base ctx :: sst))
         (var_top []) state).
  { destruct ctx; reflexivity. }
  rewrite var_shift, !app_nil_r. cbn [app]. rewrite var_reduce_empty, var_unwind.
  rewrite rev_involutive, app_nil_r.
  destruct ctx; reflexivity.
Qed.

(** **** The arguments of a call *)

Lemma list_sum_cons (x : nat) (l : list nat) : list_sum (x :: l) = x + list_sum l.
Proof. reflexivity. Qed.

Lemma list_sum_one (x : nat) : list_sum [x] = x.
Proof. apply Nat.add_0_r. Qed.

Lemma argument_shift (b : operand) (rbs : list operand) (fuel : nat)
    (rest : list Token) (v : Ast.node) (sym : list Ast.node) (sst : list nat) :
  run (operand_turns b + 1 + fuel) (operand_token pos b :: comma pos :: rest) None
      (argument_syms pos rbs (v :: sym)) (argument_states rbs sst) (argument_top rbs) state
  = run fuel rest None
        (argument_syms pos (b :: rbs) (v :: sym)) (argument_states (b :: rbs) sst)
        (argument_top (b :: rbs)) state.
Proof. destruct rbs as [|r0 rbs], b; reflexivity. Qed.

Lemma argument_last (b : operand) (rbs : list operand) (fuel : nat)
    (rest : list Token) (v : Ast.node) (sym : list Ast.node) (sst : list nat) :
  run (operand_turns b + 1 + fuel) (operand_token pos b :: rparen pos :: rest) None
      (argument_syms pos rbs (v :: sym)) (argument_states rbs sst) (argument_top rbs) state
  = run fuel rest (Some (rparen pos))
        (Ast.ExpressionListPartial [] :: Ast.Expr (operand_node b)
         :: argument_syms pos rbs (v :: sym))
        (sublist_state rbs :: expression_state rbs :: argument_states rbs sst)
        (sublist_state rbs) state.
Proof. destruct rbs as [|r0 rbs], b; reflexivity. Qed.

Lemma argument_unwind (rbs : list operand) :
  forall (b : operand) (acc : list Ast.expr) (fuel : nat) (rest : list Token)
         (la : option Token) (v : Ast.node) (sym : list Ast.node) (sst : list nat),
    run (List.length rbs + 1 + fuel) rest la
        (Ast.ExpressionListPartial acc :: Ast.Expr (operand_node b)
         :: argument_syms pos rbs (v :: sym))
        (sublist_state rbs :: expression_state rbs :: argument_states rbs sst)
        (sublist_state rbs) state
    = run fuel rest la
          (Ast.ExpressionListPartial
             (map operand_node (rev rbs) ++ operand_node b :: acc) :: v :: sym)
          (76 :: 54 :: sst) 76 state.
Proof.
  induction rbs as [|c r IH]; intros b acc fuel rest la v sym sst.
  - reflexivity.
  - replace (map operand_node (rev (c :: r)) ++ operand_node b :: acc)%list
      with (map operand_node (rev r) ++ operand_node c :: operand_node b :: acc)%list
      by (simpl; rewrite map_app, <- app_assoc; reflexivity).
    rewrite <- IH.
    destruct r; reflexivity.
Qed.

Lemma arguments_split (bs : list operand) :
  forall (b : operand) (rbs : list operand),
    (rev (arguments_before b bs rbs) ++ [last_argument b bs])%list
    = (rev rbs ++ b :: bs)%list.
Proof.
  induction bs as [|c bs IH]; intros b rbs; cbn [arguments_before last_argument].
  - reflexivity.
  - rewrite IH. cbn [rev]. rewrite <- app_assoc. reflexivity.
Qed.

Lemma arguments_before_length (bs : list operand) :
  forall (b : operand) (rbs : list operand),
    List.length (arguments_before b bs rbs) = List.length bs + List.length rbs.
Proof.
  induction bs as [|c bs IH]; intros b rbs; cbn [arguments_before]; [reflexivity|].
  rewrite IH. simpl. lia.
Qed.

Lemma arguments_shift (bs : list operand) :
  forall (b : operand) (rbs : list operand) (fuel : nat) (rest : list Token)
         (v : Ast.node) (sym : list Ast.node) (sst : list nat),
    run (operand_turns b + 1 + list_sum (map (fun c => 2 + operand_turns c) bs)
         - List.length bs + fuel)
        (operand_token pos b
         :: flat_map (fun c => [comma pos; operand_token pos c]) bs
         ++ rparen pos :: rest)
        None
        (argument_syms pos rbs (v :: sym)) (argument_states rbs sst) (argument_top rbs)
        state
    = run fuel rest (Some (rparen pos))
          (Ast.ExpressionListPartial []
           :: Ast.Expr (operand_node (last_argument b bs))
           :: argument_syms pos (arguments_before b bs rbs) (v :: sym))
          (sublist_state (arguments_before b bs rbs)
           :: expression_state (arguments_before b bs rbs)
           :: argument_states (arguments_before b bs rbs) sst)
          (sublist_state (arguments_before b bs rbs)) state.
Proof.
  induction bs as [|c bs IH]; intros b rbs fuel rest v sym sst.
  - cbn [flat_map app arguments_before last_argument].
    match goal with
    | |- run ?n _ _ _ _ _ _ = _ =>
        replace n with (operand_turns b + 1 + fuel) by (simpl; lia)
    end.
    apply argument_last.
  - cbn [flat_map app arguments_before last_argument].
    assert (Hle : List.length bs <= list_sum (map (fun c => 2 + operand_turns c) bs)).
    { clear. induction bs as [|x bs IHb]; [simpl; lia|].
      cbn [map List.length]. rewrite list_sum_cons. lia. }
    match goal with
    | |- run ?n _ _ _ _ _ _ = _ =>
        replace n
          with (operand_turns b + 1 +
                (operand_turns c + 1
                 + list_sum (map (fun c0 => 2 + operand_turns c0) bs)
                 - List.length bs + fuel))
          by (cbn [map List.length]; rewrite list_sum_cons; lia)
    end.
    rewrite argument_shift. apply IH.
Qed.

Lemma call_opens (ctx : block_context) (f : string) (t : Token) (rest : list Token)
    (fuel : nat) (acc : list Ast.stmt) (v : Ast.node) (sym : list Ast.node)
    (sst : list nat) :
  run (3 + fuel) (ident pos f :: lparen pos :: rest) None
      (Ast.FunctionBody acc :: v :: sym)
      (block_state ctx :: block_base ctx :: sst) (block_state ctx) state
  = run fuel rest None
        (Ast.Tok (lparen pos) :: Ast.Expr (Ast.Identifier f)
         :: Ast.FunctionBody acc :: v :: sym)
        (54 :: atom_state ctx :: block_state ctx :: block_base ctx :: sst) 54 state.
Proof. destruct ctx; reflexivity. Qed.

Lemma call_closes (ctx : block_context) (f : string) (args : list Ast.expr)
    (rest : list Token) (fuel : nat) (acc : list Ast.stmt) (v : Ast.node)
    (sym : list Ast.node) (sst : list nat) :
  run (6 + fuel) (semicolon pos :: rest) (Some (rparen pos))
      (Ast.ExpressionListPartial args :: Ast.Tok (lparen pos)
       :: Ast.Expr (Ast.Identifier f) :: Ast.FunctionBody acc :: v :: sym)
      (76 :: 54 :: atom_state ctx :: block_state ctx :: block_base ctx :: sst) 76 state
  = run fuel rest None
        (Ast.FunctionBody (acc ++ [Ast.Statement (Ast.Call (Ast.Identifier f) args)])
         :: v :: sym)
        (block_state ctx :: block_base ctx :: sst) (block_state ctx) state.
Proof. destruct ctx; reflexivity. Qed.

Lemma call_statement_run (f : string) (args : list operand) :
  statements_run pos state [call_statement f args].
Proof.
  intros ctx rest fuel acc v sym sst.
  cbn [map list_sum flat_map statement_tokens statement_node statement_turns].
  rewrite !app_nil_r. rewrite <- !app_assoc. cbn [app].
  destruct args as [|a bs].
  - cbn [arguments arguments_turns app map].
    destruct ctx; reflexivity.
  - cbn [arguments arguments_turns app].
    assert (Hle : List.length bs <= list_sum (map (fun c => 2 + operand_turns c) bs)).
    { clear. induction bs as [|x bs IHb]; [simpl; lia|].
      cbn [map List.length]. rewrite list_sum_cons. lia. }
    pose proof (arguments_before_length bs a []) as Hlen. simpl in Hlen.
    rewrite Nat.add_0_r in Hlen.
    replace (list_sum [operand_turns a + list_sum (map (fun b => 2 + operand_turns b) bs)
                       + 3 + 8] + fuel)
      with (3 + (operand_turns a + 1 + list_sum (map (fun c => 2 + operand_turns c) bs)
                 - List.length bs
                 + (List.length (arguments_before a bs []) + 1 + (6 + fuel))))
      by (rewrite list_sum_cons; change (list_sum []) with 0; lia).
    rewrite (call_opens ctx f (rparen pos)).
    rewrite (arguments_shift bs a [] _ _ (Ast.Tok (lparen pos))
               (Ast.Expr (Ast.Identifier f) :: Ast.FunctionBody acc :: v :: sym)
               (atom_state ctx :: block_state ctx :: block_base ctx :: sst)).
    rewrite argument_unwind.
    change [operand_node (last_argument a bs)]
      with (map operand_node [last_argument a bs]).
    rewrite <- map_app, arguments_split. cbn [rev app].
    apply call_closes.
Qed.

(** **** Statements of one expression *)

Lemma expression_statement_run (x : operand) :
  statements_run pos state [expression_statement x].
Proof. intros ctx rest fuel acc v sym sst. destruct ctx, x; reflexivity. Qed.

Lemma assignment_run (n : string) (x : operand) :
  statements_run pos state [assignment n x].
Proof. intros ctx rest fuel acc v sym sst. destruct ctx, x; reflexivity. Qed.

Lemma attribute_assignment_run (o a : string) (x : operand) :
  statements_run pos state [attribute_assignment o a x].
Proof. intros ctx rest fuel acc v sym sst. destruct ctx, x; reflexivity. Qed.

Lemma return_statement_run (x : operand) :
  statements_run pos state [return_statement x].
Proof. intros ctx rest fuel acc v sym sst. destruct ctx, x; reflexivity. Qed.

Lemma raise_statement_run (x : operand) :
  statements_run pos state [raise_statement x].
Proof. intros ctx rest fuel acc v sym sst. destruct ctx, x; reflexivity. Qed.

(** **** Blocks *)

Lemma while_opens (ctx : block_context) (c : operand) (rest : list Token) (fuel : nat)
    (acc : list Ast.stmt) (v : Ast.node) (sym : list Ast.node) (sst : list nat) :
  run (operand_turns c + 3 + fuel)
      (tok "WHILE" "while" pos :: operand_token pos c :: lbrace pos :: rest) None
      (Ast.FunctionBody acc :: v :: sym)
      (block_state ctx :: block_base ctx :: sst) (block_state ctx) state
  = run fuel rest None
        (Ast.FunctionBody [] :: Ast.Tok (lbrace pos) :: Ast.Expr (operand_node c)
         :: Ast.Tok (tok "WHILE" "while" pos) :: Ast.FunctionBody acc :: v :: sym)
        (block_state in_while :: block_base in_while :: 60 :: 33
         :: block_state ctx :: block_base ctx :: sst) (block_state in_while) state.
Proof. destruct ctx, c; reflexivity. Qed.

Lemma while_closes (ctx : block_context) (c : operand) (body : list Ast.stmt)
    (rest : list Token) (fuel : nat) (acc : list Ast.stmt) (v : Ast.node)
    (sym : list Ast.node) (sst : list nat) :
  run (3 + fuel) (rbrace pos :: rest) None
      (Ast.FunctionBody body :: Ast.Tok (lbrace pos) :: Ast.Expr (operand_node c)
       :: Ast.Tok (tok "WHILE" "while" pos) :: Ast.FunctionBody acc :: v :: sym)
      (block_state in_while :: block_base in_while :: 60 :: 33
       :: block_state ctx :: block_base ctx :: sst) (block_state in_while) state
  = run fuel rest None
        (Ast.FunctionBody (acc ++ [Ast.While (operand_node c) body]) :: v :: sym)
        (block_state ctx :: block_base ctx :: sst) (block_state ctx) state.
Proof. destruct ctx; reflexivity. Qed.

Lemma if_opens (ctx : block_context) (c : operand) (rest : list Token) (fuel : nat)
    (acc : list Ast.stmt) (v : Ast.node) (sym : list Ast.node) (sst : list nat) :
  run (operand_turns c + 3 + fuel)
      (tok "IF" "if" pos :: operand_token pos c :: lbrace pos :: rest) None
      (Ast.FunctionBody acc :: v :: sym)
      (block_state ctx :: block_base ctx :: sst) (block_state ctx) state
  = run fuel rest None
        (Ast.FunctionBody [] :: Ast.Tok (lbrace pos) :: Ast.Expr (operand_node c)
         :: Ast.Tok (tok "IF" "if" pos) :: Ast.FunctionBody acc :: v :: sym)
        (block_state in_if :: block_base in_if :: 61 :: 34
         :: block_state ctx :: block_base ctx :: sst) (block_state in_if) state.
Proof. destruct ctx, c; reflexivity. Qed.

Lemma if_closes (ctx : block_context) (c : operand) (body : list Ast.stmt)
    (rest : list Token) (fuel : nat) (acc : list Ast.stmt) (v : Ast.node)
    (sym : list Ast.node) (sst : list nat) :
  run (3 + fuel) (rbrace pos :: rest) None
      (Ast.FunctionBody body :: Ast.Tok (lbrace pos) :: Ast.Expr (operand_node c)
       :: Ast.Tok (tok "IF" "if" pos) :: Ast.FunctionBody acc :: v :: sym)
      (block_state in_if :: block_base in_if :: 61 :: 34
       :: block_state ctx :: block_base ctx :: sst) (block_state in_if) state
  = run fuel rest None
        (Ast.FunctionBody (acc ++ [Ast.If (operand_node c) body]) :: v :: sym)
        (block_state ctx :: block_base ctx :: sst) (block_state ctx) state.
Proof. destruct ctx; reflexivity. Qed.

Lemma try_opens (ctx : block_context) (rest : list Token) (fuel : nat)
    (acc : list Ast.stmt) (v : Ast.node) (sym : list Ast.node) (sst : list nat) :
  run (3 + fuel) (tok "TRY" "try" pos :: lbrace pos :: rest) None
      (Ast.FunctionBody acc :: v :: sym)
      (block_state ctx :: block_base ctx :: sst) (block_state ctx) state
  = run fuel rest None
        (Ast.FunctionBody [] :: Ast.Tok (lbrace pos) :: Ast.Tok (tok "TRY" "try" pos)
         :: Ast.FunctionBody acc :: v :: sym)
        (block_state in_try :: block_base in_try :: 36
         :: block_state ctx :: block_base ctx :: sst) (block_state in_try) state.
Proof. destruct ctx; reflexivity. Qed.

Lemma except_opens (ctx : block_context) (e : string) (body : list Ast.stmt)
    (rest : list Token) (fuel : nat) (acc : list Ast.stmt) (v : Ast.node)
    (sym : list Ast.node) (sst : list nat) :
  run (5 + fuel)
      (rbrace pos :: tok "EXCEPT" "except" pos :: ident pos e :: lbrace pos :: rest) None
      (Ast.FunctionBody body :: Ast.Tok (lbrace pos) :: Ast.Tok (tok "TRY" "try" pos)
       :: Ast.FunctionBody acc :: v :: sym)
      (block_state in_try :: block_base in_try :: 36
       :: block_state ctx :: block_base ctx :: sst) (block_state in_try) state
  = run fuel rest None
        (Ast.FunctionBody [] :: Ast.Tok (lbrace pos) :: Ast.Tok (ident pos e)
         :: Ast.Tok (tok "EXCEPT" "except" pos) :: Ast.Tok (rbrace pos)
         :: Ast.FunctionBody body :: Ast.Tok (lbrace pos) :: Ast.Tok (tok "TRY" "try" pos)
         :: Ast.FunctionBody acc :: v :: sym)
        (block_state in_except :: block_base in_except :: 107 :: 104 :: 97
         :: block_state in_try :: block_base in_try :: 36
         :: block_state ctx :: block_base ctx :: sst) (block_state in_except) state.
Proof. destruct ctx; reflexivity. Qed.

Lemma except_closes (ctx : block_context) (e : string) (body handler : list Ast.stmt)
    (rest : list Token) (fuel : nat) (acc : list Ast.stmt) (v : Ast.node)
    (sym : list Ast.node) (sst : list nat) :
  run (3 + fuel) (rbrace pos :: rest) None
      (Ast.FunctionBody handler :: Ast.Tok (lbrace pos) :: Ast.Tok (ident pos e)
       :: Ast.Tok (tok "EXCEPT" "except" pos) :: Ast.Tok (rbrace pos)
       :: Ast.FunctionBody body :: Ast.Tok (lbrace pos) :: Ast.Tok (tok "TRY" "try" pos)
       :: Ast.FunctionBody acc :: v :: sym)
      (block_state in_except :: block_base in_except :: 107 :: 104 :: 97
       :: block_state in_try :: block_base in_try :: 36
       :: block_state ctx :: block_base ctx :: sst) (block_state in_except) state
  = run fuel rest None
        (Ast.FunctionBody (acc ++ [Ast.TryExcept body [e] handler None]) :: v :: sym)
        (block_state ctx :: block_base ctx :: sst) (block_state ctx) state.
Proof. destruct ctx; reflexivity. Qed.

(** **** The statements of a block, one after the other *)

Lemma statements_run_nil : statements_run pos state [].
Proof.
  intros ctx rest fuel acc v sym sst.
  cbn [flat_map map list_sum app Nat.add]. now rewrite app_nil_r.
Qed.

Lemma statements_run_cons (s : statement) (body : list statement) :
  statements_run pos state [s] -> statements_run pos state body ->
  statements_run pos state (s :: body).
Proof.
  intros Hs Hb ctx rest fuel acc v sym sst.
  replace (list_sum (map statement_turns (s :: body)) + fuel)
    with (list_sum (map statement_turns [s]) + (list_sum (map statement_turns body) + fuel))
    by (simpl; lia).
  cbn [flat_map]. rewrite <- app_assoc.
  specialize (Hs ctx (flat_map (statement_tokens pos) body ++ rest)%list).
  cbn [flat_map] in Hs. rewrite app_nil_r in Hs.
  rewrite Hs, Hb. cbn [map]. rewrite <- app_assoc. reflexivity.
Qed.

Lemma statements_run_forall (body : list statement) :
  Forall (fun s => statements_run pos state [s]) body -> statements_run pos state body.
Proof.
  induction 1 as [|s body Hs _ IH]; [apply statements_run_nil|].
  apply statements_run_cons; assumption.
Qed.

Lemma statements_run_all (body : list statement) : statements_run pos state body.
Proof.
  apply statements_run_forall. apply Forall_forall. intros s _.
  induction s as [x|f args|x0 xs|n x|o a x|x|x|c body' IH|c body' IH|body' e handler IHb IHh]
    using statement_induction.
  - apply expression_statement_run.
  - apply call_statement_run.
  - apply var_statement_run.
  - apply assignment_run.
  - apply attribute_assignment_run.
  - apply return_statement_run.
  - apply raise_statement_run.
  - apply statements_run_forall in IH.
    intros ctx rest fuel acc v sym sst.
    cbn [flat_map statement_tokens map statement_node statement_turns].
    rewrite !app_nil_r. rewrite <- !app_assoc. cbn [app].
    replace (list_sum [operand_turns c + 6 + list_sum (map statement_turns body')] + fuel)
      with (operand_turns c + 3 + (list_sum (map statement_turns body') + (3 + fuel)))
      by (rewrite list_sum_cons; change (list_sum []) with 0; lia).
    rewrite while_opens.
    rewrite (IH in_while). cbn [app]. apply while_closes.
  - apply statements_run_forall in IH.
    intros ctx rest fuel acc v sym sst.
    cbn [flat_map statement_tokens map statement_node statement_turns].
    rewrite !app_nil_r. rewrite <- !app_assoc. cbn [app].
    replace (list_sum [operand_turns c + 6 + list_sum (map statement_turns body')] + fuel)
      with (operand_turns c + 3 + (list_sum (map statement_turns body') + (3 + fuel)))
      by (rewrite list_sum_cons; change (list_sum []) with 0; lia).
    rewrite if_opens.
    rewrite (IH in_if). cbn [app]. apply if_closes.
  - apply statements_run_forall in IHb. apply statements_run_forall in IHh.
    intros ctx rest fuel acc v sym sst.
    cbn [flat_map statement_tokens map statement_node statement_turns].
    rewrite !app_nil_r. rewrite <- !app_assoc. cbn [app].
    replace (list_sum [11 + list_sum (map statement_turns body')
                       + list_sum (map statement_turns handler)] + fuel)
      with (3 + (list_sum (map statement_turns body')
                 + (5 + (list_sum (map statement_turns handler) + (3 + fuel)))))
      by (rewrite list_sum_cons; change (list_sum []) with 0; lia).
    rewrite try_opens.
    rewrite (IHb in_try). cbn [app]. rewrite except_opens.
    rewrite (IHh in_except). cbn [app]. apply except_closes.
Qed.

End Statements.

(** *** The stacks follow the table *)

Lemma states_ok_checked : forallb state_ok (seq 0 n_states) = true.
Proof. vm_compute. reflexivity. Qed.

Lemma assoc_get_In (A : Type) (k : string) (l : list (string * A)) (v : A) :
  Rply.assoc_get k l = Some v -> In (k, v) l.
Proof.
  induction l as [|[k' v'] l IH]; cbn [Rply.assoc_get]; [discriminate|].
  destruct (String.eqb k k') eqn:E.
  - apply String.eqb_eq in E. subst. intros H; inversion H; subst. now left.
  - intros H. right. auto.
Qed.

Lemma all_states_ok (s : nat) : state_ok s = true.
Proof.
  destruct (Nat.lt_ge_cases s n_states) as [H|H].
  - pose proof states_ok_checked as Hc. rewrite forallb_forall in Hc.
    apply Hc. apply in_seq. lia.
  - unfold state_ok. rewrite !nth_overflow; [reflexivity | exact H | exact H].
Qed.

Lemma preds_edge (p s : nat) : edge p s = true -> In p (preds s).
Proof.
  intros H. pose proof H as H'. unfold edge in H'.
  apply andb_true_iff in H'. destruct H' as [H' _].
  apply andb_true_iff in H'. destruct H' as [Hp Hs].
  apply Nat.ltb_lt in Hp. apply Nat.ltb_lt in Hs.
  unfold preds.
  set (f := fun s0 => filter (fun p0 => edge p0 s0) (seq 0 n_states)).
  assert (E : predecessors = map f (seq 0 n_states)) by (vm_compute; reflexivity).
  rewrite E.
  rewrite (nth_indep _ [] (f 0)) by (rewrite length_map, length_seq; exact Hs).
  rewrite (map_nth f), seq_nth by exact Hs. cbn [Nat.add]. unfold f.
  apply filter_In. split; [apply in_seq; lia | exact H].
Qed.

Lemma Forall2_reversed (A B : Type) (R : A -> B -> Prop) (l : list A) (l' : list B) :
  Forall2 R l l' -> Forall2 R (rev l) (rev l').
Proof.
  induction 1 as [|a b l l' Hab _ IH]; [constructor|].
  cbn [rev]. apply Forall2_app; [exact IH | repeat constructor; exact Hab].
Qed.

Lemma errorhandler_raises (state : ParsingState) (la : Token) :
  exists e, errorhandler state la = Raise e.
Proof.
  unfold errorhandler. destruct (getsourcepos la); [|eauto].
  destruct (Py.getitem _ _); eauto.
Qed.

Ltac invert_fits :=
  repeat match goal with
         | H : Forall2 _ _ (_ :: _) |- _ => inversion H; subst; clear H
         | H : Forall2 _ _ [] |- _ => inversion H; subst; clear H
         end;
  repeat match goal with
         | H : fits ?n _ = true |- _ =>
             is_var n; destruct n; try (vm_compute in H; discriminate H); revert H
         end;
  intros.

Lemma action_fits (state : ParsingState) (j : nat) (lhs : string) (rhs : list string)
    (func : action) (p : list Ast.node) :
  nth_error rules j = Some (lhs, rhs) ->
  nth_error funcs (S j) = Some func ->
  Forall2 (fun n k => fits n k = true) p rhs ->
  match func state p with
  | Return n => fits n lhs = true
  | Raise e =>
      e = AssertionError /\
      exists t, In (Ast.Tok t) p /\ name t = "STRING" /\ value t = EmptyString
  | OutOfFuel => False
  end.
Proof.
  intros Hr Hf Hp.
  do 25 (destruct j as [|j];
         [vm_compute in Hr; injection Hr as <- <-; cbn in Hf; injection Hf as <-;
          invert_fits; reflexivity|]).
  destruct j as [|j].
  { vm_compute in Hr; injection Hr as <- <-; cbn in Hf; injection Hf as <-.
    invert_fits. cbn [expression_string].
    match goal with H : fits (Ast.Tok ?t) _ = true |- _ =>
      destruct t as [n v sp]; cbn [getstr value];
      change (String.eqb n "STRING" = true) in H; apply String.eqb_eq in H; subst n
    end.
    destruct v as [|c v].
    - cbn. split; [reflexivity|]. eexists. split; [left; reflexivity|]. split; reflexivity.
    - replace (Z.of_nat (String.length (String c v)) - 1 <? 0)%Z with false; [reflexivity|].
      symmetry. apply Z.ltb_ge. cbn [String.length]. lia. }
  do 19 (destruct j as [|j];
         [vm_compute in Hr; injection Hr as <- <-; cbn in Hf; injection Hf as <-;
          invert_fits; reflexivity|]).
  vm_compute in Hr. destruct j; discriminate.
Qed.

Lemma rank_bound (s : nat) : rank s <= 4.
Proof.
  assert (H : forallb (fun r => Nat.leb r 4) ranks = true) by (vm_compute; reflexivity).
  rewrite forallb_forall in H. unfold rank.
  destruct (nth_in_or_default s ranks 0) as [Hin | ->]; [|lia].
  apply Nat.leb_le. apply H. exact Hin.
Qed.

Section Safety.

Variable given : Token -> Prop.
Variable raised : exn -> Prop.
Variable clean : Ast.node -> Prop.
Variable state : ParsingState.

Hypothesis clean_token : forall t, read given t -> clean (Ast.Tok t).

Hypothesis clean_kept :
  forall (j : nat) (lhs : string) (rhs : list string) (func : action)
         (p : list Ast.node) (n : Ast.node),
    nth_error rules j = Some (lhs, rhs) ->
    nth_error funcs (S j) = Some func ->
    Forall2 (node_ok given clean) p rhs ->
    func state p = Return n -> clean n.

Lemma stacks_top (syms : list Ast.node) (sts : list nat) :
  stacks given clean syms sts ->
  exists n syms' s sts',
    syms = n :: syms' /\ sts = s :: sts' /\ s < n_states /\ node_ok given clean n (accessing s).
Proof.
  intros H. destruct H as [n Hn|n s p syms sts H He Hn].
  - exists n, [], 0, []. repeat split; try apply Hn. unfold n_states; lia.
  - exists n, syms, s, (p :: sts). repeat split; try apply Hn.
    unfold edge in He. apply andb_true_iff in He. destruct He as [He _].
    apply andb_true_iff in He. destruct He as [_ He]. now apply Nat.ltb_lt in He.
Qed.

Lemma walk_sound (rhs_rev : list string) (lhs : string) (limit : nat) :
  forall (syms : list Ast.node) (s : nat) (sts : list nat),
    stacks given clean syms (s :: sts) ->
    walk rhs_rev lhs limit s = true ->
    Forall2 (node_ok given clean) (firstn (List.length rhs_rev) syms) rhs_rev /\
    List.length rhs_rev + 1 <= List.length syms /\
    exists p sts' t,
      skipn (List.length rhs_rev) (s :: sts) = p :: sts' /\
      stacks given clean (skipn (List.length rhs_rev) syms) (p :: sts') /\
      goto_target p lhs = Some t /\ edge p t = true /\ accessing t = lhs /\
      is_token_class (class_of_symbol lhs) = false /\ rank t < limit.
Proof.
  induction rhs_rev as [|k r IH]; intros syms s sts Hs Hw.
  - cbn [walk] in Hw. destruct (goto_target s lhs) as [t|] eqn:Hg; [|discriminate].
    apply andb_true_iff in Hw. destruct Hw as [Hw Hr].
    apply andb_true_iff in Hw. destruct Hw as [Hw Hc].
    apply andb_true_iff in Hw. destruct Hw as [Ht Ha].
    apply String.eqb_eq in Ha. apply negb_true_iff in Hc. apply Nat.ltb_lt in Hr.
    destruct (stacks_top _ _ Hs) as (n & syms' & s' & sts' & -> & E & Hlt & _).
    injection E as <- <-.
    cbn [List.length firstn skipn]. split; [constructor|]. split; [cbn; lia|].
    exists s, sts, t. repeat split; auto.
    unfold edge. apply Nat.ltb_lt in Hlt. rewrite Hlt, Ht, Ha, Hg, Nat.eqb_refl.
    cbn. apply orb_true_r.
  - cbn [walk] in Hw.
    apply andb_true_iff in Hw. destruct Hw as [Hw Hall].
    apply andb_true_iff in Hw. destruct Hw as [H0 Ha].
    apply negb_true_iff in H0. apply Nat.eqb_neq in H0. apply String.eqb_eq in Ha.
    inversion Hs as [n Hn|n s' p syms' sts' Hs' He Hn]; subst; [congruence|].
    rewrite forallb_forall in Hall.
    specialize (Hall p (preds_edge _ _ He)).
    destruct (IH _ _ _ Hs' Hall)
      as (Hf & Hlen & p' & sts'' & t & Hsk & Hst & Hg & Het & Hat & Hc & Hr).
    cbn [List.length firstn skipn]. split; [constructor; auto|]. split; [cbn; lia|].
    exists p', sts'', t. repeat split; auto.
Qed.

Lemma rules_funcs (j : nat) (r : string * list string) :
  nth_error rules j = Some r -> exists func, nth_error funcs (S j) = Some func.
Proof.
  intros H.
  assert (Hlt : j < List.length rules) by (apply nth_error_Some; congruence).
  assert (El : List.length rules = List.length (map snd productions))
    by (vm_compute; reflexivity).
  rewrite El in Hlt.
  apply nth_error_Some in Hlt. cbn [funcs nth_error].
  destruct (nth_error (map snd productions) j); [eauto|congruence].
Qed.

(** A reduction that the table asks for keeps the stacks in order and
    lowers their height; it fails only in [expression_string]. *)
Lemma reduce_safe (t : Z) (syms : list Ast.node) (s : nat) (sts : list nat) :
  stacks given clean syms (s :: sts) ->
  reduce_ok (Z.to_nat (- t)) s = true ->
  match Rply._reduce_production Ast.node ParsingState the_table funcs t syms (s :: sts) state
  with
  | Return (syms', sts', st') =>
      stacks given clean syms' sts' /\ (exists rest, sts' = st' :: rest) /\
      height sts' < height (s :: sts)
  | Raise e =>
      e = AssertionError /\
      exists t, given t /\ name t = "STRING" /\ value t = EmptyString
  | OutOfFuel => False
  end.
Proof.
  intros Hs Hr. unfold reduce_ok in Hr. unfold Rply._reduce_production.
  destruct (Z.to_nat (- t)) as [|j] eqn:Ei; [discriminate|].
  destruct (nth_error (Rply.productions the_table) (S j)) as [[lhs plen]|]; [|discriminate].
  destruct (nth_error rules j) as [[lhs' rhs]|] eqn:Er; [|discriminate].
  apply andb_true_iff in Hr. destruct Hr as [Hr Hw].
  apply andb_true_iff in Hr. destruct Hr as [Hl Hn].
  apply String.eqb_eq in Hl. apply Nat.eqb_eq in Hn. subst lhs' plen.
  destruct (rules_funcs _ _ Er) as [func Hf]. pose proof Hf as Hf'.
  unfold action in Hf'. rewrite Hf'. clear Hf'.
  destruct (walk_sound _ _ _ _ _ _ Hs Hw)
    as (Hfit & Hlen & p & sts' & t' & Hsk & Hst & Hg & He & Ha & Hc & Hrk).
  rewrite length_rev in *.
  assert (Hlt : Nat.ltb (List.length syms) (List.length rhs + 1) = false)
    by (apply Nat.ltb_ge; lia).
  rewrite Hlt.
  assert (Hfit' : Forall2 (node_ok given clean) (rev (firstn (List.length rhs) syms)) rhs).
  { rewrite <- (rev_involutive rhs) at 2. apply Forall2_reversed. exact Hfit. }
  assert (Hfit2 : Forall2 (fun n k => fits n k = true)
                          (rev (firstn (List.length rhs) syms)) rhs).
  { eapply Forall2_impl; [|exact Hfit']. intros a b [H _]. exact H. }
  pose proof (action_fits state j lhs rhs func _ Er Hf Hfit2) as Hact.
  pose proof (fun n => clean_kept j lhs rhs func _ n Er Hf Hfit') as Hclean.
  destruct (func state (rev (firstn (List.length rhs) syms))) as [value|e|];
    [| |exact Hact].
  - rewrite Hsk. unfold goto_target in Hg. rewrite Hg.
    split; [|split; [eauto|]].
    + apply stacks_push; auto. rewrite Ha. split; [exact Hact|].
      split; [apply (Hclean value); reflexivity|].
      destruct value; auto.
      unfold fits in Hact. unfold is_token_class in Hc.
      destruct (class_of_symbol lhs); discriminate.
    + pose proof (f_equal (@List.length nat) Hsk) as Hk.
      rewrite length_skipn in Hk. cbn [List.length] in Hk.
      cbn [height List.length]. lia.
  - destruct Hact as [-> (tk & Hin & Hname & Hval)]. split; [reflexivity|].
    exists tk. split; [|auto].
    assert (Hread : read given tk).
    { clear - Hin Hfit'.
      induction Hfit' as [|a b l l' [_ [_ Hab]] _ IHl]; [destruct Hin|].
      destruct Hin as [-> | Hin]; [exact Hab | auto]. }
    destruct Hread as [Hgv | ->]; [exact Hgv | discriminate].
Qed.

Section Iterator.

(** A token iterator, the states of it that parsing goes through, and
    what is left of it. *)
Variable T : Type.
Variable pull : T -> T * result Token.
Variable inv : T -> Prop.
Variable size : T -> nat.

Hypothesis pull_ok :
  forall tokenizer, inv tokenizer ->
    match snd (pull tokenizer) with
    | Return t =>
        given t /\ inv (fst (pull tokenizer)) /\ size (fst (pull tokenizer)) < size tokenizer
    | Raise StopIteration => inv (fst (pull tokenizer))
    | Raise e => raised e
    | OutOfFuel => False
    end.

(** With the stacks in order, and more fuel than the bound of the turns
    left, the loop comes to one of the outcomes. *)
Lemma loop_safe (fuel : nat) :
  forall (tokenizer : T) (la : option Token) (syms : list Ast.node) (s : nat)
         (sts : list nat),
    inv tokenizer ->
    match la with Some t => read given t | None => True end ->
    stacks given clean syms (s :: sts) ->
    reading la (size tokenizer) + height (s :: sts) < fuel ->
    outcome given raised clean state
            (loop T pull the_table fuel tokenizer la syms (s :: sts) s state).
Proof.
  induction fuel as [|fuel IH]; intros tokenizer la syms s sts Hi Hla Hs Hfuel; [lia|].
  unfold loop in *. cbn [Rply.parse_loop].
  pose proof (all_states_ok s) as Hok. unfold state_ok in Hok.
  apply andb_true_iff in Hok. destruct Hok as [Hd Hrow].
  destruct (Z.eqb (nth s (Rply.default_reductions the_table) 0%Z) 0) eqn:Ed; cbn [negb].
  - assert (Hfetch :
      forall tokenizer' t, inv tokenizer' -> read given t ->
        reading (Some t) (size tokenizer') + height (s :: sts) < S fuel ->
        outcome given raised clean state
          match Rply.assoc_get (gettokentype t) (nth s (Rply.lr_action the_table) []) with
          | Some t0 =>
              if (0 <? t0)%Z
              then Rply.parse_loop Ast.node ParsingState T Ast.Tok pull the_table funcs
                     errorhandler fuel tokenizer' None (Ast.Tok t :: syms)
                     (Z.to_nat t0 :: s :: sts) (Z.to_nat t0) state
              else if (t0 <? 0)%Z
              then match Rply._reduce_production Ast.node ParsingState the_table funcs t0
                           syms (s :: sts) state with
                   | Return (symstack', statestack', current_state') =>
                       Rply.parse_loop Ast.node ParsingState T Ast.Tok pull the_table funcs
                         errorhandler fuel tokenizer' (Some t) symstack' statestack'
                         current_state' state
                   | Raise e => Raise e
                   | OutOfFuel => OutOfFuel
                   end
              else match syms with
                   | n :: _ => Return n
                   | [] => Raise IndexError
                   end
          | None =>
              match errorhandler state t with
              | Return _ => Raise AssertionError
              | Raise e => Raise e
              | OutOfFuel => OutOfFuel
              end
          end).
    { intros tokenizer' t Hi' Ht Hf'.
      destruct (Rply.assoc_get (gettokentype t) (nth s (Rply.lr_action the_table) []))
        as [t0|] eqn:Ea.
      - pose proof (assoc_get_In _ _ _ _ Ea) as Hin. rewrite forallb_forall in Hrow.
        specialize (Hrow _ Hin). cbn [fst snd] in Hrow.
        destruct (0 <? t0)%Z eqn:Epos.
        + apply andb_true_iff in Hrow. destruct Hrow as [Hrow Hc].
          apply andb_true_iff in Hrow. destruct Hrow as [Hrow Ha].
          apply andb_true_iff in Hrow. destruct Hrow as [He Hlt].
          apply String.eqb_eq in Ha. apply negb_true_iff in He.
          apply IH; auto.
          * apply stacks_push; auto.
            -- destruct (stacks_top _ _ Hs) as (n & syms' & s' & sts' & _ & E & Hs' & _).
               injection E as <- <-.
               unfold edge. apply Nat.ltb_lt in Hs'. rewrite Hs', Hlt, Ha.
               unfold shift_target. rewrite Ea, Epos, Nat.eqb_refl. reflexivity.
            -- split; [|split; [apply clean_token; exact Ht | exact Ht]].
               rewrite Ha. unfold fits.
               unfold is_token_class in Hc.
               destruct (class_of_symbol (gettokentype t)); try discriminate.
               apply String.eqb_refl.
          * unfold reading in *. unfold gettokentype in He. rewrite He in Hf'.
            pose proof (rank_bound (Z.to_nat t0)).
            cbn [height List.length] in *. lia.
        + destruct (t0 <? 0)%Z eqn:Eneg.
          * pose proof (reduce_safe t0 syms s sts Hs Hrow) as Hr.
            destruct (Rply._reduce_production _ _ _ _ _ _ _ _) as [[[syms' sts'] st']|e|];
              [| |destruct Hr].
            -- destruct Hr as (Hst & (rest & ->) & Hh). apply IH; auto. lia.
            -- right. right. exact Hr.
          * destruct (stacks_top _ _ Hs) as (n & syms' & s' & sts' & -> & E & _ & Hn).
            injection E as <- <-. destruct Hn as [Hn [Hcl _]].
            unfold fits in Hn. unfold is_program_class in Hrow.
            destruct (class_of_symbol (accessing s)); try discriminate.
            destruct n; try discriminate. split; [eexists; reflexivity | exact Hcl].
      - destruct (errorhandler_raises state t) as [e He]. rewrite He.
        right. left. exists t. auto. }
    destruct la as [t|].
    + apply Hfetch; auto.
    + pose proof (pull_ok tokenizer Hi) as Hp.
      destruct (pull tokenizer) as [tokenizer' [t|e|]]; cbn [fst snd] in *.
      * destruct Hp as (Hg & Hi' & Hsz). apply Hfetch; auto; [left; exact Hg|].
        unfold reading in *. destruct (String.eqb (name t) "$end"); lia.
      * destruct e; try (left; exact Hp). apply Hfetch; auto; [right; reflexivity|].
        change (reading (Some Rply.end_token) (size tokenizer')) with 0.
        unfold reading in Hfuel. lia.
      * destruct Hp.
  - apply andb_true_iff in Hd. destruct Hd as [_ Hd].
    pose proof (reduce_safe _ syms s sts Hs Hd) as Hr.
    destruct (Rply._reduce_production _ _ _ _ _ _ _ _) as [[[syms' sts'] st']|e|];
      [| |destruct Hr].
    + destruct Hr as (Hst & (rest & ->) & Hh). apply IH; auto. lia.
    + right. right. exact Hr.
Qed.

End Iterator.

End Safety.

Lemma start_stacks (given : Token -> Prop) (clean : Ast.node -> Prop) :
  clean (Ast.Tok Rply.end_token) -> clean (Ast.Program []) ->
  stacks given clean [Ast.Program []; Ast.Tok Rply.end_token] [2; 0].
Proof.
  intros H1 H2. apply stacks_push.
  - apply stacks_bottom. split; [reflexivity|]. split; [exact H1 | right; reflexivity].
  - reflexivity.
  - split; [reflexivity|]. split; [exact H2 | exact I].
Qed.

Lemma list_next_ok (tokens : list Token) (tokenizer : list Token) :
  incl tokenizer tokens ->
  match snd (list_next tokenizer) with
  | Return t =>
      In t tokens /\ incl (fst (list_next tokenizer)) tokens /\
      List.length (fst (list_next tokenizer)) < List.length tokenizer
  | Raise StopIteration => incl (fst (list_next tokenizer)) tokens
  | Raise _ => False
  | OutOfFuel => False
  end.
Proof.
  intros H. destruct tokenizer as [|t tk]; cbn [list_next fst snd].
  - exact H.
  - split; [apply H; now left|]. split; [intros x Hx; apply H; now right|].
    cbn [List.length]. lia.
Qed.

Lemma chain_last (rs : list SourceRange) :
  forall (a b : nat) (rg : SourceRange),
    chain a (rs ++ [rg]) b -> a <= start rg /\ end_ rg = b.
Proof.
  induction rs as [|r rs IH]; intros a b rg; cbn [app chain].
  - intros (H1 & _ & H2). split; [lia | exact H2].
  - intros (H1 & H2 & H3). destruct (IH _ _ _ H3) as [H4 H5]. split; [lia | exact H5].
Qed.

Lemma pull_stream_ok (filename text : string) (self : Stream) :
  lexing filename text self ->
  match snd (pull_stream self) with
  | Return t =>
      lexed filename text t /\ lexing filename text (fst (pull_stream self)) /\
      unread (fst (pull_stream self)) < unread self
  | Raise StopIteration => lexing filename text (fst (pull_stream self))
  | Raise e => lexer_exception filename text e
  | OutOfFuel => False
  end.
Proof.
  intros [Hr|He]; unfold pull_stream.
  - pose proof (LexerFacts.next_fuel_advances (enough self) self) as Ha.
    pose proof (LexerFacts.next_fuel_enough (enough self) self) as Hen.
    fold (next self) in Ha, Hen.
    destruct (LexerFacts.reachable_ok _ _ _ Hr) as (Hs & Hok & Hle).
    pose proof (LexerFacts.reachable_filename _ _ _ Hr) as Hf.
    destruct (next self) as [sk [self' r]] eqn:E. cbn [fst snd] in *.
    destruct r as [t|e|].
    + split; [exists self, self', sk; auto|]. split; [left; econstructor; eauto|].
      destruct (LexerFacts.next_range _ _ _ _ _ _ Hr E) as (rg & Hp & H1 & H2 & H3).
      unfold advances in Ha. cbn [fst snd] in Ha.
      destruct Ha as (Hs' & rg' & Hp' & Hc & _).
      rewrite Hp in Hp'. injection Hp' as <-.
      destruct (chain_last _ _ _ _ Hc) as [_ Hend].
      unfold unread. rewrite Hs', Hs. lia.
    + assert (Hne : e = StopIteration \/ e <> StopIteration)
        by (destruct e; auto; right; discriminate).
      destruct Hne as [-> | Hne].
      * right. unfold advances in Ha. cbn [fst snd] in Ha.
        destruct Ha as (Hs' & _ & Hl & _). rewrite Hs'. exact Hl.
      * assert (Hx : lexer_exception filename text e).
        { destruct (LexerFacts.next_raise _ _ _ _ Hok E Hne) as [[-> _] | Hx].
          - left; reflexivity.
          - right. rewrite Hf, Hs in Hx. exact Hx. }
        destruct e; try exact Hx. congruence.
    + apply Hen; [unfold enough; lia | reflexivity].
  - rewrite LexerFacts.next_unfold. apply Nat.leb_le in He. rewrite He.
    cbn [fst snd]. right. now apply Nat.leb_le.
Qed.

(** *** The positions of the tokens *)

Ltac unfold_actions :=
  cbv beta delta [getstr program_body body_empty body_body_element body_function
    body_element_class_definition class_definition class_definition_inheritance
    function_function_body function_function_body_implicit_return
    function_body_empty function_body_statement statement_expression
    statement_var_decl var_decl_empty var_decl_identifier
    statement_identifier_assign_expr statement_setattr statement_return
    statement_while_loop statement_if_block statement_raise statement_try_except
    arglist arglist_non_empty expression_number expression_string expression_atom
    expression_or_expression expression_and_expression atom_true atom_identifier
    atom_false atom_call atom_paren_expression_paren atom_dot_identifier
    expression_lt_expression expression_list_empty expression_list_expression
    expression_sublist_empty expression_sublist_expression].

Ltac split_match :=
  repeat (cbn [map erase_node getstr erase value];
          match goal with
          | |- context [match ?x with _ => _ end] => is_var x; destruct x
          | |- context [if ?c then _ else _] => destruct c
          end).

Lemma action_erase (state state' : ParsingState) (j : nat) (func : action)
    (p : list Ast.node) :
  nth_error funcs j = Some func ->
  alike (func state p) (func state' (map erase_node p)).
Proof.
  intros Hf.
  do 46 (destruct j as [|j];
         [cbn in Hf; injection Hf as <-; unfold alike; unfold_actions;
          solve [split_match; cbn [map erase_node getstr erase value];
                 first [reflexivity | eexists; reflexivity]]|]).
  destruct j; discriminate.
Qed.

(** A reduction does not look at the positions. *)
Lemma reduce_erase (t : Z) (syms : list Ast.node) (sts : list nat)
    (state state' : ParsingState) :
  match Rply._reduce_production Ast.node ParsingState the_table funcs t syms sts state with
  | Return (syms', sts', st') =>
      Rply._reduce_production Ast.node ParsingState the_table funcs t
                              (map erase_node syms) sts state'
      = Return (map erase_node syms', sts', st')
  | Raise _ =>
      exists e',
        Rply._reduce_production Ast.node ParsingState the_table funcs t
                                (map erase_node syms) sts state' = Raise e'
  | OutOfFuel =>
      Rply._reduce_production Ast.node ParsingState the_table funcs t
                              (map erase_node syms) sts state' = OutOfFuel
  end.
Proof.
  unfold Rply._reduce_production.
  destruct (nth_error (Rply.productions the_table) (Z.to_nat (- t))) as [[pname plen]|];
    [|eauto].
  destruct (@nth_error (ParsingState -> list Ast.node -> result Ast.node) funcs
                       (Z.to_nat (- t))) as [func|] eqn:Ef; [|eauto].
  rewrite length_map.
  destruct (Nat.ltb (List.length syms) (plen + 1)); [eauto|].
  rewrite firstn_map, <- map_rev, skipn_map.
  pose proof (action_erase state state' _ func (rev (firstn plen syms)) Ef) as Ha.
  unfold alike in Ha.
  destruct (func state (rev (firstn plen syms))) as [v|e|].
  - rewrite Ha. destruct (skipn plen sts) as [|top rest]; [eauto|].
    destruct (Rply.assoc_get pname (nth top (Rply.lr_goto the_table) [])); [reflexivity|eauto].
  - destruct Ha as [e' ->]. eauto.
  - rewrite Ha. reflexivity.
Qed.

(** The loop does not look at the positions, but to report a token that
    it rejects. *)
Lemma run_erase (state state' : ParsingState) (fuel : nat) :
  forall (tokens : list Token) (la : option Token) (syms : list Ast.node)
         (sts : list nat) (st : nat),
    alike (run fuel tokens la syms sts st state)
          (run fuel (map erase tokens) (option_map erase la) (map erase_node syms)
               sts st state').
Proof.
  induction fuel as [|fuel IH]; intros tokens la syms sts st; [reflexivity|].
  unfold run, loop in *. cbn [Rply.parse_loop].
  destruct (negb (Z.eqb (nth st (Rply.default_reductions the_table) 0%Z) 0)).
  - pose proof (reduce_erase (nth st (Rply.default_reductions the_table) 0%Z) syms sts
                             state state') as Hr.
    destruct (Rply._reduce_production _ _ _ _ _ syms sts state)
      as [[[syms' sts'] st']|e|].
    + rewrite Hr. apply IH.
    + destruct Hr as [e' ->]. cbn. eauto.
    + rewrite Hr. reflexivity.
  - assert (Hstep : forall (tokens' : list Token) (t : Token),
      alike
        match Rply.assoc_get (gettokentype t) (nth st (Rply.lr_action the_table) []) with
        | Some t0 =>
            if (0 <? t0)%Z
            then Rply.parse_loop Ast.node ParsingState (list Token) Ast.Tok list_next
                   the_table funcs errorhandler fuel tokens' None (Ast.Tok t :: syms)
                   (Z.to_nat t0 :: sts) (Z.to_nat t0) state
            else if (t0 <? 0)%Z
            then match Rply._reduce_production Ast.node ParsingState the_table funcs t0
                         syms sts state with
                 | Return (symstack', statestack', current_state') =>
                     Rply.parse_loop Ast.node ParsingState (list Token) Ast.Tok list_next
                       the_table funcs errorhandler fuel tokens' (Some t) symstack'
                       statestack' current_state' state
                 | Raise e => Raise e
                 | OutOfFuel => OutOfFuel
                 end
            else match syms with
                 | n :: _ => Return n
                 | [] => Raise IndexError
                 end
        | None =>
            match errorhandler state t with
            | Return _ => Raise AssertionError
            | Raise e => Raise e
            | OutOfFuel => OutOfFuel
            end
        end
        match Rply.assoc_get (gettokentype (erase t))
                             (nth st (Rply.lr_action the_table) []) with
        | Some t0 =>
            if (0 <? t0)%Z
            then Rply.parse_loop Ast.node ParsingState (list Token) Ast.Tok list_next
                   the_table funcs errorhandler fuel (map erase tokens') None
                   (Ast.Tok (erase t) :: map erase_node syms)
                   (Z.to_nat t0 :: sts) (Z.to_nat t0) state'
            else if (t0 <? 0)%Z
            then match Rply._reduce_production Ast.node ParsingState the_table funcs t0
                         (map erase_node syms) sts state' with
                 | Return (symstack', statestack', current_state') =>
                     Rply.parse_loop Ast.node ParsingState (list Token) Ast.Tok list_next
                       the_table funcs errorhandler fuel (map erase tokens')
                       (Some (erase t)) symstack' statestack' current_state' state'
                 | Raise e => Raise e
                 | OutOfFuel => OutOfFuel
                 end
            else match map erase_node syms with
                 | n :: _ => Return n
                 | [] => Raise IndexError
                 end
        | None =>
            match errorhandler state' (erase t) with
            | Return _ => Raise AssertionError
            | Raise e => Raise e
            | OutOfFuel => OutOfFuel
            end
        end).
    { intros tokens' t. change (gettokentype (erase t)) with (gettokentype t).
      destruct (Rply.assoc_get (gettokentype t) (nth st (Rply.lr_action the_table) []))
        as [t0|].
      - destruct (0 <? t0)%Z.
        + apply (IH tokens' None (Ast.Tok t :: syms)).
        + destruct (t0 <? 0)%Z.
          * pose proof (reduce_erase t0 syms sts state state') as Hr.
            destruct (Rply._reduce_production _ _ _ _ _ syms sts state)
              as [[[syms' sts'] st']|e|].
            -- rewrite Hr. apply (IH tokens' (Some t)).
            -- destruct Hr as [e' ->]. cbn. eauto.
            -- rewrite Hr. reflexivity.
          * destruct syms as [|n syms]; cbn; eauto.
      - destruct (errorhandler_raises state t) as [e ->].
        destruct (errorhandler_raises state' (erase t)) as [e' ->]. cbn. eauto. }
    destruct la as [t|]; cbn [option_map].
    + apply Hstep.
    + destruct tokens as [|t tokens]; cbn [map list_next].
      * apply (Hstep [] Rply.end_token).
      * apply Hstep.
Qed.

Lemma spelled_erase (ts : list Token) :
  forall ts', spelled ts = spelled ts' -> map erase ts = map erase ts'.
Proof.
  unfold spelled.
  induction ts as [|t ts IH]; intros [|t' ts'] H; try discriminate; [reflexivity|].
  cbn [map] in *. injection H as Hn Hv H. unfold erase at 1 3.
  rewrite Hn, Hv, (IH _ H). reflexivity.
Qed.

(** Tokens of the same kinds and texts come to the same outcome but for
    the positions. *)
Lemma run_spelled (state state' : ParsingState) (fuel : nat) (ts ts' : list Token)
    (syms : list Ast.node) (sts : list nat) (st : nat) (es : list Ast.element) :
  spelled ts = spelled ts' ->
  run fuel ts' None syms sts st state' = Return (Ast.Program es) ->
  run fuel ts None syms sts st state = Return (Ast.Program es).
Proof.
  intros Hs H'.
  pose proof (run_erase state' state fuel ts' None syms sts st) as H1.
  pose proof (run_erase state state fuel ts None syms sts st) as H2.
  rewrite H' in H1. unfold alike in H1. cbn [erase_node option_map] in H1.
  rewrite (spelled_erase _ _ Hs) in H2. cbn [option_map] in H2. rewrite H1 in H2.
  unfold alike in H2.
  destruct (run fuel ts None syms sts st state) as [n|e|].
  - injection H2 as H2. destruct n; try discriminate. cbn in H2. congruence.
  - destruct H2 as [e' H2]. discriminate.
  - discriminate.
Qed.

(** *** What parsing a list of tokens comes to *)

Lemma tokens_outcome (fuel : nat) (tokens : list Token) (state : ParsingState) :
  outcome (fun t => In t tokens) (fun _ => False) (fun _ => True) state
          (parse_tokens (6 * List.length tokens + 5 + fuel) tokens state).
Proof.
  replace (6 * List.length tokens + 5 + fuel) with (S (6 * List.length tokens + 4 + fuel))
    by lia.
  unfold parse_tokens. rewrite parse_loop_start.
  assert (Hf : reading None (List.length tokens) + height [2; 0]
               < 6 * List.length tokens + 4 + fuel) by (cbn; lia).
  apply (loop_safe (fun t => In t tokens) (fun _ => False) (fun _ => True) state
                   (fun _ _ => I) (fun _ _ _ _ _ _ _ _ _ _ => I)
                   (list Token) list_next (fun tk => incl tk tokens) (@List.length Token)
                   (list_next_ok tokens)); auto.
  - apply incl_refl.
  - apply start_stacks; exact I.
Qed.

(** *** What parsing a text comes to *)

Lemma function_is_no_token : existsb (String.eqb "FUNCTION") TOKENS = false.
Proof. vm_compute. reflexivity. Qed.

Lemma lexed_kind (filename text : string) (t : Token) :
  lexed filename text t -> name t <> "FUNCTION".
Proof.
  intros (self & self' & sk & _ & E) Hn.
  destruct (next_shaped _ _ _ _ E) as [Hk _]. rewrite Hn in Hk.
  pose proof function_is_no_token as Hf.
  assert (Ht : existsb (String.eqb "FUNCTION") TOKENS = true).
  { apply existsb_exists. exists "FUNCTION". split; [exact Hk | apply String.eqb_refl]. }
  congruence.
Qed.

Ltac invert_nodes :=
  repeat match goal with
         | H : Forall2 _ _ (_ :: _) |- _ => inversion H; subst; clear H
         | H : Forall2 _ _ [] |- _ => inversion H; subst; clear H
         end;
  repeat match goal with
         | H : node_ok _ _ ?n _ |- _ =>
             is_var n;
             let Hfit := fresh "Hfit" in
             let Hcl := fresh "Hcl" in
             let Hrd := fresh "Hrd" in
             destruct H as (Hfit & Hcl & Hrd);
             destruct n; try (vm_compute in Hfit; discriminate Hfit);
             revert Hfit Hcl Hrd
         end;
  intros.

Ltac no_function Hg :=
  match goal with
  | Hfit : fits (Ast.Tok ?t) "FUNCTION" = true, Hrd : _ |- _ =>
      change (String.eqb (name t) "FUNCTION" = true) in Hfit;
      apply String.eqb_eq in Hfit;
      match type of Hrd with
      | context [read _ t] =>
          cbn beta iota in Hrd; destruct Hrd as [Hgv | ->];
          [exact (False_ind _ (Hg _ Hgv Hfit)) | discriminate Hfit]
      end
  end.

Ltac kept_case Hg Hr Hf H :=
  vm_compute in Hr; injection Hr as <- <-; cbn in Hf; injection Hf as <-;
  invert_nodes; unfold_actions;
  first [ solve [no_function Hg]
        | cbn in H;
          try match type of H with
              | (if ?c then _ else _) = _ => destruct c; [discriminate H|]
              end;
          try discriminate H; try (injection H as <-);
          cbn [function_free class_only] in *;
          try rewrite forallb_app; cbn [forallb];
          repeat match goal with Hc : _ = true |- _ => rewrite Hc end;
          first [exact I | assumption | reflexivity] ].

(** The actions make a function of a FUNCTION token only. *)
Lemma function_free_kept (given : Token -> Prop) (state : ParsingState) :
  (forall t, given t -> name t <> "FUNCTION") ->
  forall (j : nat) (lhs : string) (rhs : list string) (func : action)
         (p : list Ast.node) (n : Ast.node),
    nth_error rules j = Some (lhs, rhs) ->
    nth_error funcs (S j) = Some func ->
    Forall2 (node_ok given function_free) p rhs ->
    func state p = Return n -> function_free n.
Proof.
  intros Hg j lhs rhs func p n Hr Hf Hp H.
  do 45 (destruct j as [|j]; [kept_case Hg Hr Hf H|]).
  vm_compute in Hr; destruct j; discriminate.
Qed.

Lemma text_outcome (fuel : nat) (text filename : string) :
  outcome (lexed filename text) (lexer_exception filename text) function_free
          {| input := text |}
          (parse (6 * String.length text + 5 + fuel) text filename).
Proof.
  replace (6 * String.length text + 5 + fuel) with (S (6 * String.length text + 4 + fuel))
    by lia.
  unfold parse. rewrite parse_loop_start.
  change (fun stream : Stream => snd (next stream)) with pull_stream.
  assert (Hf : reading None (unread (lex filename text)) + height [2; 0]
               < 6 * String.length text + 4 + fuel).
  { unfold unread, lex. cbn [s idx reading height List.length rank]. cbn. lia. }
  apply (loop_safe (lexed filename text) (lexer_exception filename text) function_free
                   {| input := text |} (fun _ _ => I)
                   (function_free_kept _ _ (lexed_kind filename text))
                   Stream pull_stream (lexing filename text) unread
                   (pull_stream_ok filename text)); auto.
  - left. apply reachable_lex.
  - apply start_stacks; [exact I | reflexivity].
Qed.

(** The elements that hold no function are the nodes of classes. *)
Lemma class_only_node : forall e, class_only e = true -> exists c, class_node c = e.
Proof.
  fix IH 1. intros [f a b|n body p]; cbn [class_only]; [discriminate|].
  intros H.
  cut (exists ms, map class_node ms = body).
  { intros [ms <-]. exists (class_of n p ms). reflexivity. }
  induction body as [|e body IHb]; [exists []; reflexivity|].
  cbn [forallb] in H. apply andb_true_iff in H. destruct H as [H1 H2].
  destruct (IH e H1) as [c Hc]. destruct (IHb H2) as [ms Hms].
  exists (c :: ms). cbn [map]. congruence.
Qed.

Lemma class_only_nodes (es : list Ast.element) :
  forallb class_only es = true -> exists cs, es = map class_node cs.
Proof.
  induction es as [|e es IH]; [exists []; reflexivity|].
  cbn [forallb]. intros H. apply andb_true_iff in H. destruct H as [H1 H2].
  destruct (class_only_node e H1) as [c <-]. destruct (IH H2) as [cs ->].
  exists (c :: cs). reflexivity.
Qed.

End ParserFacts.

(** ** Claims about the parser *)

Module ParserClaims.

Import Lexer Parser LexerSpec ParserSpec.





(** *** Precedence *)


(** *** The error handler *)

Section Rejected.

Variable T : Type.
Variable pull : T -> T * result Token.
Variable table : Rply.LRTable.


End Rejected.

Lemma get_parser_returns : get_parser = Return the_table.
Proof. reflexivity. Qed.



(** *** Parameter lists *)

Lemma parse_tokens_run (fuel : nat) (tokens : list Token) (state : ParsingState) :
  parse_tokens fuel tokens state
  = run fuel tokens None [Ast.Tok Rply.end_token] [0] 0 state.
Proof. reflexivity. Qed.

Section Parameters.

Variable pos : option SourceRange.
Variable state : ParsingState.

Lemma shift_more (xs : list string) :
  forall (rxs : list string) (fuel : nat) (rest : list Token) (sym : list Ast.node)
         (sst : list nat),
    run (2 * List.length xs + fuel) (more pos xs ++ rest) None
        (syms_of pos rxs sym) (states_of rxs sst) (top_of rxs) state
    = run fuel rest None (syms_of pos (rev xs ++ rxs) sym) (states_of (rev xs ++ rxs) sst)
          (top_of (rev xs ++ rxs)) state.
Proof.
  induction xs as [|x xs IH]; intros rxs fuel rest sym sst.
  - reflexivity.
  - replace (2 * List.length (x :: xs) + fuel)
      with (S (S (2 * List.length xs + fuel))) by (simpl; lia).
    replace (rev (x :: xs) ++ rxs)%list with (rev xs ++ x :: rxs)%list
      by (simpl; rewrite <- app_assoc; reflexivity).
    rewrite <- IH.
    destruct rxs; reflexivity.
Qed.

Lemma reduce_empty (rxs : list string) (fuel : nat) (rest : list Token)
    (v : Ast.node) (sym : list Ast.node) (sst : list nat) :
  run (S fuel) ((rparen pos) :: rest) None (syms_of pos rxs (v :: sym)) (states_of rxs sst)
      (top_of rxs) state
  = run fuel rest (Some (rparen pos)) (Ast.VarDeclPartial [] :: syms_of pos rxs (v :: sym))
        (goto_of rxs :: states_of rxs sst) (goto_of rxs) state.
Proof. destruct rxs; reflexivity. Qed.

Lemma unwind (rxs : list string) :
  forall (acc : list string) (fuel : nat) (rest : list Token) (la : option Token)
         (v : Ast.node) (sym : list Ast.node) (sst : list nat),
    run (List.length rxs + fuel) rest la
        (Ast.VarDeclPartial acc :: syms_of pos rxs (v :: sym))
        (goto_of rxs :: states_of rxs sst) (goto_of rxs) state
    = run fuel rest la (Ast.VarDeclPartial (rev rxs ++ acc) :: v :: sym)
          (20 :: 16 :: sst) 20 state.
Proof.
  induction rxs as [|x r IH]; intros acc fuel rest la v sym sst.
  - reflexivity.
  - replace (rev (x :: r) ++ acc)%list with (rev r ++ x :: acc)%list
      by (simpl; rewrite <- app_assoc; reflexivity).
    rewrite <- IH.
    destruct r; reflexivity.
Qed.


End Parameters.


(** *** Further properties of the parser *)


(** X13.  The grammar uses one symbol that no production defines and that
    is no kind of [lexer.TOKENS]: FUNCTION, the first symbol of a function
    (the other such symbol is the end marker of the parser).  No token
    that the lexer gives, for any text, has that kind. *)
Theorem token_kinds (filename text : string) :
  filter (fun k => negb (existsb (String.eqb k) TOKENS))
         (firstn (Rply.n_term grammar) (Rply.symbols grammar))
  = ["$end"; "FUNCTION"] /\
  existsb (fun t => String.eqb (name t) "FUNCTION")
          (emitted (fst (lex_all filename text))) = false.
Proof.
  split; [vm_compute; reflexivity|].
  assert (H : Forall (fun t => name t <> "FUNCTION")
                     (emitted (fst (lex_all filename text)))).
  { unfold lex_all.
    destruct (drain (S (String.length text)) (lex filename text)) as [evs r] eqn:D.
    eapply (LexerFacts.drain_reachable filename text); [|constructor|exact D].
    intros self self' sk t Hr E.
    apply (ParserFacts.lexed_kind filename text). exists self, self', sk. auto. }
  induction H as [|t ts Ht _ IH]; [reflexivity|].
  cbn [existsb]. rewrite IH. apply String.eqb_neq in Ht. rewrite Ht. reflexivity.
Qed.

(** *** The start of a program, from its text *)




(** *** The end of the input *)

Section Ended.

Variable T : Type.
Variable pull : T -> T * result Token.
Variable table : Rply.LRTable.

(** X16.  When the tokens end in a state that has no default reduction
    and no action for the end of the input, the parser raises
    [AttributeError], not a [ParseError]: the token that stands for the
    end has no source position, and the error handler asks it for its
    line. *)
Theorem end_of_input (fuel : nat) (tokenizer tokenizer' : T)
    (symstack : list Ast.node) (statestack : list nat) (current_state : nat)
    (state : ParsingState) :
  nth current_state (Rply.default_reductions table) 0%Z = 0%Z ->
  pull tokenizer = (tokenizer', Raise StopIteration) ->
  Rply.assoc_get "$end" (nth current_state (Rply.lr_action table) []) = None ->
  loop T pull table (S fuel) tokenizer None symstack statestack current_state state
  = Raise AttributeError.
Proof.
  intros Hd Hp Ha.
  rewrite (ParserFacts.loop_fetch_end T pull table fuel tokenizer tokenizer' _ _ _ _ Hd Hp).
  rewrite ParserFacts.loop_reject; [reflexivity | exact Hd | exact Ha].
Qed.

End Ended.

(** The parser after the tokens of [class A {], the body of the class
    still open. *)
Lemma end_of_input_witness :
  loop (list Token) list_next the_table 1 [] None
       [Ast.Program []; Ast.Tok (tok "LEFT_CURLY_BRACE" "{" None);
        Ast.Tok (tok "IDENTIFIER" "A" None); Ast.Tok (tok "CLASS" "class" None);
        Ast.Program []; Ast.Tok Rply.end_token]
       [17; 12; 9; 7; 2; 0] 17 {| input := "class A {" |}
  = Raise AttributeError.
Proof.
  apply (end_of_input (list Token) list_next the_table 0 [] []); reflexivity.
Defined.

(** *** The text of an error of the parser *)

(** X17.  The text of a [ParseError] that the error handler raises for a
    token, as [__str__] makes it, is the line of the token, a newline,
    blanks, seven fewer than the column of the token or none, and as many
    carets as the value of the token has characters. *)
Theorem rejected_message (state : ParsingState) (lookahead : Token) :
  match errorhandler state lookahead, getsourcepos lookahead with
  | Raise (ParserParseError pe), Some pos =>
      ParserError.__str__ pe
      = ((ParserError.line pe ++ nl) ++ Py.mul " " (Z.of_nat (colno pos) - 7))
        ++ Py.mul "^" (Z.of_nat (String.length (value lookahead))) /\
      String.length (Py.mul "^" (Z.of_nat (String.length (value lookahead))))
      = String.length (value lookahead)
  | Raise (ParserParseError _), None => False
  | Raise _, _ => True
  | _, _ => False
  end.
Proof.
  unfold errorhandler.
  destruct (getsourcepos lookahead) as [pos|]; [|exact I].
  destruct (Py.getitem _ _) as [line|]; [|exact I].
  unfold ParserError.__str__. cbn [ParserError.line ParserError.start_colno
                                     ParserError.end_colno].
  split.
  - f_equal; [f_equal|]; f_equal; lia.
  - unfold Py.mul. rewrite Nat2Z.id.
    induction (String.length (value lookahead)) as [|n IH]; [reflexivity|].
    cbn [repeat]. rewrite LexerFacts.concat_join in *.
    cbn [join fold_right]. fold (join (repeat "^" n)).
    cbn [append String.length]. now rewrite IH.
Qed.

(** *** Arguments by name *)



(** *** Classes *)



(** *** Functions, and the elements of a program *)

Lemma element_induction (P : element -> Prop) :
  (forall n p ms, Forall P ms -> P (class_element n p ms)) ->
  (forall f ps body r, P (function_element f ps body r)) ->
  forall e, P e.
Proof.
  intros Hc Hf. fix IH 1. intros [n p ms|f ps body r].
  - apply Hc. induction ms as [|m ms IHms]; constructor; [apply IH | exact IHms].
  - apply Hf.
Qed.

Section Elements.

Variable pos : option SourceRange.
Variable state : ParsingState.

Lemma function_opens_plain (ctx : body_context) (f : string) (rest : list Token)
    (fuel : nat) (acc : list Ast.element) (v : Ast.node) (sym : list Ast.node)
    (sst : list nat) :
  run (7 + fuel)
      (tok "FUNCTION" "def" pos :: ident pos f :: lparen pos :: rparen pos :: lbrace pos
       :: rest) None
      (Ast.Program acc :: v :: sym)
      (body_state ctx :: base_state ctx :: sst) (body_state ctx) state
  = run fuel rest None
        (Ast.FunctionBody [] :: function_syms pos f [] (Ast.Program acc :: v :: sym))
        (function_states (body_state ctx :: base_state ctx :: sst))
        (block_state in_function) state.
Proof. destruct ctx; reflexivity. Qed.

Lemma function_opens_parameters (ctx : body_context) (f x0 : string) (xs : list string)
    (rest : list Token) (fuel : nat) (acc : list Ast.element) (v : Ast.node)
    (sym : list Ast.node) (sst : list nat) :
  run (3 * List.length xs + 9 + fuel)
      (tok "FUNCTION" "def" pos :: ident pos f :: lparen pos :: ident pos x0
       :: more pos xs ++ rparen pos :: lbrace pos :: rest) None
      (Ast.Program acc :: v :: sym)
      (body_state ctx :: base_state ctx :: sst) (body_state ctx) state
  = run fuel rest None
        (Ast.FunctionBody []
         :: function_syms pos f (x0 :: xs) (Ast.Program acc :: v :: sym))
        (function_states (body_state ctx :: base_state ctx :: sst))
        (block_state in_function) state.
Proof.
  replace (3 * List.length xs + 9 + fuel)
    with (4 + (2 * List.length xs + (S (List.length (rev xs) + (4 + fuel)))))
    by (rewrite length_rev; lia).
  transitivity
    (run (2 * List.length xs + S (List.length (rev xs) + (4 + fuel)))
         (more pos xs ++ rparen pos :: lbrace pos :: rest) None
         (syms_of pos [] (Ast.Tok (ident pos x0) :: Ast.Tok (lparen pos)
                          :: Ast.Tok (ident pos f) :: Ast.Tok (tok "FUNCTION" "def" pos)
                          :: Ast.Program acc :: v :: sym))
         (states_of [] (11 :: 8 :: 6 :: body_state ctx :: base_state ctx :: sst))
         (top_of []) state).
  { destruct ctx; reflexivity. }
  rewrite shift_more, !app_nil_r, reduce_empty, unwind.
  rewrite rev_involutive, app_nil_r.
  destruct ctx; reflexivity.
Qed.

Lemma function_opens (ctx : body_context) (f : string) (ps : list string)
    (rest : list Token) (fuel : nat) (acc : list Ast.element) (v : Ast.node)
    (sym : list Ast.node) (sst : list nat) :
  run (7 + parameter_turns ps + fuel)
      (tok "FUNCTION" "def" pos :: ident pos f :: lparen pos
       :: parameter_tokens pos ps ++ rparen pos :: lbrace pos :: rest) None
      (Ast.Program acc :: v :: sym)
      (body_state ctx :: base_state ctx :: sst) (body_state ctx) state
  = run fuel rest None
        (Ast.FunctionBody [] :: function_syms pos f ps (Ast.Program acc :: v :: sym))
        (function_states (body_state ctx :: base_state ctx :: sst))
        (block_state in_function) state.
Proof.
  destruct ps as [|x0 xs]; cbn [parameter_tokens parameter_turns app].
  - rewrite Nat.add_0_r. apply function_opens_plain.
  - replace (7 + (3 * List.length xs + 2) + fuel) with (3 * List.length xs + 9 + fuel)
      by lia.
    apply function_opens_parameters.
Qed.

Lemma function_closes (ctx : body_context) (f : string) (ps : list string)
    (body : list Ast.stmt) (rest : list Token) (fuel : nat) (acc : list Ast.element)
    (v : Ast.node) (sym : list Ast.node) (sst : list nat) :
  run (4 + fuel) (rbrace pos :: rest) None
      (Ast.FunctionBody body :: function_syms pos f ps (Ast.Program acc :: v :: sym))
      (function_states (body_state ctx :: base_state ctx :: sst))
      (block_state in_function) state
  = run fuel rest None
        (Ast.Program (acc ++ [Ast.Function f ps body]) :: v :: sym)
        (body_state ctx :: base_state ctx :: sst) (body_state ctx) state.
Proof. destruct ctx; reflexivity. Qed.

Lemma function_returns (ctx : body_context) (f : string) (ps : list string)
    (body : list Ast.stmt) (x : operand) (rest : list Token) (fuel : nat)
    (acc : list Ast.element) (v : Ast.node) (sym : list Ast.node) (sst : list nat) :
  run (operand_turns x + 4 + fuel) (operand_token pos x :: rbrace pos :: rest) None
      (Ast.FunctionBody body :: function_syms pos f ps (Ast.Program acc :: v :: sym))
      (function_states (body_state ctx :: base_state ctx :: sst))
      (block_state in_function) state
  = run fuel rest None
        (Ast.Program (acc ++ [Ast.Function f ps (body ++ [Ast.Return (operand_node x)])])
         :: v :: sym)
        (body_state ctx :: base_state ctx :: sst) (body_state ctx) state.
Proof. destruct ctx, x; reflexivity. Qed.

Lemma function_run (f : string) (ps : list string) (body : list statement)
    (r : option operand) :
  elements_run pos state [function_element f ps body r].
Proof.
  intros ctx rest fuel acc v sym sst.
  cbn [flat_map element_tokens map element_node element_turns].
  rewrite !app_nil_r. rewrite <- !app_assoc. cbn [app].
  rewrite ParserFacts.list_sum_one.
  replace (11 + parameter_turns ps + list_sum (map statement_turns body)
           + match r with Some x => operand_turns x | None => 0 end + fuel)
    with (7 + parameter_turns ps
          + (list_sum (map statement_turns body)
             + (match r with Some x => operand_turns x | None => 0 end + 4 + fuel)))
    by lia.
  rewrite function_opens.
  unfold function_syms, function_states.
  rewrite (ParserFacts.statements_run_all pos state body in_function).
  cbn [app]. destruct r as [x|]; cbn [app].
  - apply (function_returns ctx f ps).
  - rewrite app_nil_r. apply (function_closes ctx f ps).
Qed.

Lemma class_run (n : string) (p : option string) (ms : list element) :
  elements_run pos state ms -> elements_run pos state [class_element n p ms].
Proof.
  intros Hms ctx rest fuel acc v sym sst.
  cbn [flat_map element_tokens map element_node element_turns].
  rewrite !app_nil_r. rewrite ParserFacts.list_sum_one.
  destruct p as [q|]; cbn [app]; rewrite <- !app_assoc; cbn [app].
  - replace (8 + 3 + list_sum (map element_turns ms) + fuel)
      with (7 + (list_sum (map element_turns ms) + (4 + fuel))) by lia.
    rewrite (ParserFacts.subclass_opens state ctx); try reflexivity.
    rewrite (Hms in_subclass).
    rewrite (ParserFacts.subclass_closes state ctx); reflexivity.
  - replace (8 + 0 + list_sum (map element_turns ms) + fuel)
      with (4 + (list_sum (map element_turns ms) + (4 + fuel))) by lia.
    rewrite (ParserFacts.class_opens state ctx); try reflexivity.
    rewrite (Hms in_class).
    rewrite (ParserFacts.class_closes state ctx); reflexivity.
Qed.

Lemma elements_run_nil : elements_run pos state [].
Proof.
  intros ctx rest fuel acc v sym sst.
  cbn [flat_map map list_sum app Nat.add]. now rewrite app_nil_r.
Qed.

Lemma elements_run_cons (e : element) (es : list element) :
  elements_run pos state [e] -> elements_run pos state es ->
  elements_run pos state (e :: es).
Proof.
  intros He Hes ctx rest fuel acc v sym sst.
  replace (list_sum (map element_turns (e :: es)) + fuel)
    with (list_sum (map element_turns [e]) + (list_sum (map element_turns es) + fuel))
    by (simpl; lia).
  cbn [flat_map]. rewrite <- app_assoc.
  specialize (He ctx (flat_map (element_tokens pos) es ++ rest)%list).
  cbn [flat_map] in He. rewrite app_nil_r in He.
  rewrite He, Hes. cbn [map]. rewrite <- app_assoc. reflexivity.
Qed.

Lemma elements_run_forall (es : list element) :
  Forall (fun e => elements_run pos state [e]) es -> elements_run pos state es.
Proof.
  induction 1 as [|e es He _ IH]; [apply elements_run_nil|].
  apply elements_run_cons; assumption.
Qed.

Lemma elements_run_all (es : list element) : elements_run pos state es.
Proof.
  apply elements_run_forall. apply Forall_forall. intros e _.
  induction e as [n p ms IH|f ps body r] using element_induction.
  - apply class_run. apply elements_run_forall. exact IH.
  - apply function_run.
Qed.

Lemma elements_program (es : list element) (fuel : nat) :
  run (list_sum (map element_turns es) + 3 + fuel) (flat_map (element_tokens pos) es) None
      [Ast.Program []; Ast.Tok Rply.end_token] [2; 0] 2 state
  = Return (Ast.Program (map element_node es)).
Proof.
  replace (list_sum (map element_turns es) + 3 + fuel)
    with (list_sum (map element_turns es) + (3 + fuel)) by lia.
  rewrite <- (app_nil_r (flat_map (element_tokens pos) es)).
  rewrite (elements_run_all es at_top [] (3 + fuel) [] _ [] []).
  reflexivity.
Qed.

End Elements.



(** *** What parsing comes to *)



(** *** The positions of the tokens *)



End ParserClaims.
